(** * mcp-bridge: a shallow embedding of the gateway runtime

    The development follows the TypeScript sources of the bridge:
    the retry wrapper ([execution/error-handler.ts]), the upstream
    client ([clients/mcp-client.ts]), the response cache
    ([cache/response-cache.ts]), the response formatter
    ([utils/response-formatter.ts]), the batch executor
    ([execution/parallel-executor.ts]), the operation registry
    ([registry/operation-registry.ts]), the metrics collector
    ([monitoring/metrics.ts]), the protocol handler
    ([protocol/mcp-protocol.ts]) and the dispatcher
    ([bridge-server.ts]).

    Conventions.  A JavaScript [number] that holds a count or a time in
    milliseconds is a [Z], and a quotient of two of them is the double
    the division rounds to ([Double]); a string is a [string] of 8-bit code units
    (the first 256 code units of UTF-16); a [Map] is an association list in
    insertion order; a promise is represented by the value it settles
    with ([Settled]); [Date.now()] and elapsed times are inputs.  Log
    calls have no effect on the program state and are left out. *)

From Stdlib Require Import ZArith List Bool Ascii String Lia.
From Stdlib Require Import DecimalString QArith Permutation.
Import ListNotations.

Local Open Scope string_scope.
Local Open Scope list_scope.
Local Open Scope Z_scope.
Set Warnings "-register-all".

(* ================================================================== *)
(** * Part I: the program                                             *)
(* ================================================================== *)

(** ** JavaScript string primitives *)

Module JS.

(** [String.prototype.toLowerCase]: the letters [A]-[Z] are lowered;
    the other code units are kept (lowering one of them never yields an
    ASCII character, so searches for ASCII patterns are unaffected). *)
Definition lowerAscii (c : ascii) : ascii :=
  let n := nat_of_ascii c in
  if (andb (Nat.leb 65 n) (Nat.leb n 90)) then ascii_of_nat (n + 32) else c.

Fixpoint toLowerCase (s : string) : string :=
  match s with
  | EmptyString => EmptyString
  | String c s' => String (lowerAscii c) (toLowerCase s')
  end.

(** [s.startsWith(p)]. *)
Fixpoint startsWith (s p : string) : bool :=
  match p, s with
  | EmptyString, _ => true
  | String _ _, EmptyString => false
  | String a p', String b s' => andb (Ascii.eqb a b) (startsWith s' p')
  end.

(** [s.includes(p)]: [p] occurs in [s] at some position. *)
Fixpoint includes (s p : string) : bool :=
  match s with
  | EmptyString => startsWith EmptyString p
  | String _ s' => orb (startsWith s p) (includes s' p)
  end.

(** Template-literal rendering of an integral number. *)
Definition showZ (z : Z) : string := NilZero.string_of_int (Z.to_int z).

(** Characters of a string, as a list. *)
Definition chars (s : string) : list ascii := list_ascii_of_string s.

(** Digits and the minus sign: the characters of a rendered integer. *)
Definition numeralChar (c : ascii) : bool :=
  let n := nat_of_ascii c in
  orb (Nat.eqb n 45) (andb (Nat.leb 48 n) (Nat.leb n 57)).

Definition numeralFree (p : string) : bool :=
  forallb (fun c => negb (numeralChar c)) (chars p).

Definition numeral (s : string) : bool := forallb numeralChar (chars s).

(** The double-quote character. *)
Definition dquote : string := String (ascii_of_nat 34) EmptyString.

(** A promise, identified with the way it settles. *)
Inductive Settled (T E : Type) : Type :=
| Fulfilled (v : T)
| Rejected (e : E).
Arguments Fulfilled {T E} v.
Arguments Rejected {T E} e.

(** An [Error] object; only its message is observed by the program. *)
Record Error : Type := mkError { message : string }.

End JS.

(** ** execution/error-handler.ts *)

Module ErrorHandler.
Import JS.

Record RetryConfig : Type := mkRetryConfig {
  maxAttempts : Z;
  initialDelayMs : Z;
  maxDelayMs : Z;
  backoffMultiplier : Z
}.

(** [totalDurationMs] is a clock reading and is not part of the model. *)
Record ExecutionResult (T : Type) : Type := mkExecutionResult {
  success : bool;
  result : option T;
  error : option Error;
  attempts : Z
}.
Arguments mkExecutionResult {T}.
Arguments success {T}.
Arguments result {T}.
Arguments error {T}.
Arguments attempts {T}.

Definition nonRetriablePatterns : list string :=
  [ "invalid"; "not found"; "unauthorized"; "forbidden";
    "bad request"; "validation"; "parse error" ].

Definition retriablePatterns : list string :=
  [ "timeout"; "econnrefused"; "econnreset"; "etimedout";
    "network"; "temporary" ].

(** [isRetriable]: the first loop returns [false] on a non-retriable
    pattern, the second returns [true] on a retriable one, and the
    fall-through value is [true]. *)
Definition isRetriable (e : Error) : bool :=
  let msg := toLowerCase (message e) in
  if existsb (includes msg) nonRetriablePatterns then false
  else if existsb (includes msg) retriablePatterns then true
  else true.

(** What one run of the retry wrapper did: the value it returned, the
    number of times it invoked [operation], and the number of backoff
    sleeps it took. *)
Record Run (T : Type) : Type := mkRun {
  returned : ExecutionResult T;
  calls : nat;
  sleeps : nat
}.
Arguments mkRun {T}.
Arguments returned {T}.
Arguments calls {T}.
Arguments sleeps {T}.

Section Retry.
Context {T : Type}.
Variable cfg : RetryConfig.
(** [operation k] is how the promise returned by the invocation number
    [k] (counted from zero) settles. *)
Variable operation : nat -> Settled T Error.

Definition failure (lastError : option Error) : ExecutionResult T :=
  {| success := false; result := None; error := lastError;
     attempts := maxAttempts cfg |}.

(** The [for] loop of [executeWithRetry].  [budget] bounds the number of
    iterations; the loop condition itself is [attempt <= maxAttempts]. *)
Fixpoint attemptLoop (budget : nat) (attempt : Z) (ncalls nsleeps : nat)
    (lastError : option Error) : Run T :=
  match budget with
  | O => mkRun (failure lastError) ncalls nsleeps
  | S budget' =>
    if attempt <=? maxAttempts cfg then
      match operation ncalls with
      | Fulfilled v =>
          mkRun {| success := true; result := Some v; error := None;
                   attempts := attempt |} (S ncalls) nsleeps
      | Rejected e =>
          if attempt <? maxAttempts cfg then
            if isRetriable e
            then attemptLoop budget' (attempt + 1) (S ncalls) (S nsleeps) (Some e)
            else mkRun (failure (Some e)) (S ncalls) nsleeps
          else attemptLoop budget' (attempt + 1) (S ncalls) nsleeps (Some e)
      end
    else mkRun (failure lastError) ncalls nsleeps
  end.

Definition executeWithRetry : Run T :=
  attemptLoop (Z.to_nat (maxAttempts cfg)) 1 0 0 None.

End Retry.

End ErrorHandler.

(** ** clients/mcp-client.ts *)

Module MCPClient.
Import JS.

(** [ServerName], the closed set of upstream identifiers. *)
Inductive ServerName : Type :=
| serena | context7 | playwright | tavily | shadcn.

Definition serverNameString (n : ServerName) : string :=
  match n with
  | serena => "serena"
  | context7 => "context7"
  | playwright => "playwright"
  | tavily => "tavily"
  | shadcn => "shadcn"
  end.

Definition ServerName_eqb (a b : ServerName) : bool :=
  String.eqb (serverNameString a) (serverNameString b).

(** The client object.  [processAlive] stands for [this.process !== null];
    [pendingRequests] lists the ids of the pending table in insertion
    order, each id standing for its pair of promise callbacks. *)
Record Client : Type := mkClient {
  name : ServerName;
  processAlive : bool;
  requestId : Z;
  pendingRequests : list Z;
  initialized : bool
}.

(** [Map.prototype.delete] on the pending table. *)
Definition tableDelete (id : Z) (table : list Z) : list Z :=
  filter (fun k => negb (k =? id)) table.

(** The exit code argument, [number | null], in a template literal. *)
Definition showCode (code : option Z) : string :=
  match code with
  | Some n => showZ n
  | None => "null"
  end.

Definition exitError (n : ServerName) (code : option Z) : Error :=
  mkError (serverNameString n ++ " process exited with code " ++ showCode code).

(** The loop of [handleProcessExit] and [handleProcessError]: every
    entry is handed [error] through its [reject] callback and is then
    deleted.  [log] collects the rejections in the order they are made. *)
Fixpoint rejectLoop (error : Error) (entries table : list Z)
    (log : list (Z * Error)) : list Z * list (Z * Error) :=
  match entries with
  | [] => (table, log)
  | id :: rest => rejectLoop error rest (tableDelete id table) (log ++ [(id, error)])
  end.

Definition handleProcessExit (code : option Z) (c : Client)
  : Client * list (Z * Error) :=
  let error := exitError (name c) code in
  let '(table, log) := rejectLoop error (pendingRequests c) (pendingRequests c) [] in
  ({| name := name c; processAlive := processAlive c; requestId := requestId c;
      pendingRequests := table; initialized := false |}, log).

Definition handleProcessError (error : Error) (c : Client)
  : Client * list (Z * Error) :=
  let '(table, log) := rejectLoop error (pendingRequests c) (pendingRequests c) [] in
  ({| name := name c; processAlive := processAlive c; requestId := requestId c;
      pendingRequests := table; initialized := initialized c |}, log).

End MCPClient.

(** ** JSON values and [JSON.stringify] *)

Module Json.
Import JS.

(** A JSON value; numbers are integral, objects keep their fields in
    property order. *)
Inductive JSON : Type :=
| JNull
| JBool (b : bool)
| JNumber (n : Z)
| JString (s : string)
| JArray (items : list JSON)
| JObject (fields : list (string * JSON)).

Definition hexDigit (n : nat) : ascii :=
  ascii_of_nat (if Nat.ltb n 10 then 48 + n else 87 + n).

(** [QuoteJSONString], one code unit. *)
Definition escapeChar (c : ascii) : string :=
  let n := nat_of_ascii c in
  if Nat.eqb n 34 then String "\" dquote
  else if Nat.eqb n 92 then "\\"
  else if Nat.eqb n 8 then "\b"
  else if Nat.eqb n 9 then "\t"
  else if Nat.eqb n 10 then "\n"
  else if Nat.eqb n 12 then "\f"
  else if Nat.eqb n 13 then "\r"
  else if Nat.ltb n 32 then
    ("\u00" ++ String (hexDigit (Nat.div n 16)) (String (hexDigit (Nat.modulo n 16)) ""))%string
  else String c "".

Fixpoint escape (s : string) : string :=
  match s with
  | EmptyString => EmptyString
  | String c s' => (escapeChar c ++ escape s')%string
  end.

Definition quote (s : string) : string := (dquote ++ escape s ++ dquote)%string.

(** Property lookup on an object. *)
Fixpoint assoc {A : Type} (k : string) (fields : list (string * A)) : option A :=
  match fields with
  | [] => None
  | (k', x) :: rest => if String.eqb k' k then Some x else assoc k rest
  end.

(** Lookup in a table keyed by numbers. *)
Fixpoint assoc_nat {A : Type} (k : nat) (entries : list (nat * A)) : option A :=
  match entries with
  | [] => None
  | (k', x) :: rest => if Nat.eqb k' k then Some x else assoc_nat k rest
  end.

(** [SerializeJSONProperty] and its helpers.  [K] is the property list
    built from an array replacer, if one was given: an object then emits
    the properties named in [K], in the order of [K], that it has, and
    this at every depth; without it an object emits its own properties
    in order. *)
Fixpoint serialize (K : option (list string)) (v : JSON) {struct v} : string :=
  match v with
  | JNull => "null"
  | JBool b => if b then "true" else "false"
  | JNumber n => showZ n
  | JString s => quote s
  | JArray items =>
      ("[" ++ String.concat "," (map (serialize K) items) ++ "]")%string
  | JObject fields =>
      let done := map (fun kv => match kv with
                                 | (k, x) => (k, serialize K x)
                                 end) fields in
      let keys := match K with
                  | Some ks => ks
                  | None => map fst done
                  end in
      ("{" ++ String.concat ","
                (flat_map (fun P => match assoc P done with
                                    | Some str => [(quote P ++ ":" ++ str)%string]
                                    | None => []
                                    end) keys)
           ++ "}")%string
  end.

(** The property list of an array replacer: its items, without
    repetitions. *)
Fixpoint propertyList (seen replacer : list string) : list string :=
  match replacer with
  | [] => []
  | k :: rest =>
      if existsb (String.eqb k) seen then propertyList seen rest
      else k :: propertyList (k :: seen) rest
  end.

(** [JSON.stringify(value)] and [JSON.stringify(value, replacerArray)]. *)
Definition stringify (v : JSON) : string := serialize None v.

Definition stringifyWith (v : JSON) (replacer : list string) : string :=
  serialize (Some (propertyList [] replacer)) v.

(** [Array.prototype.sort] on strings (code-unit order). *)
Fixpoint insertSorted (k : string) (l : list string) : list string :=
  match l with
  | [] => [k]
  | x :: rest => if String.leb k x then k :: l else x :: insertSorted k rest
  end.

Definition sort (l : list string) : list string :=
  fold_right insertSorted [] l.

(** [Object.keys]. *)
Definition keys (fields : list (string * JSON)) : list string := map fst fields.

(** The canonical form of the specification: a serialization in which
    the keys of every object, at every depth, are in sorted order. *)
Fixpoint insertField (f : string * JSON) (l : list (string * JSON))
  : list (string * JSON) :=
  match l with
  | [] => [f]
  | g :: rest =>
      if String.leb (fst f) (fst g) then f :: l else g :: insertField f rest
  end.

Fixpoint canonicalize (v : JSON) : JSON :=
  match v with
  | JArray items => JArray (map canonicalize items)
  | JObject fields =>
      JObject (fold_right insertField []
                 (map (fun kv => match kv with
                                 | (k, x) => (k, canonicalize x)
                                 end) fields))
  | _ => v
  end.

Definition canonicalJSON (v : JSON) : string := stringify (canonicalize v).

End Json.

(** ** protocol/types.ts *)

Module Protocol.
Import JS Json.

(** An item of [CallToolResult.content]. *)
Record ContentItem : Type := mkContentItem {
  type : string;
  text : option string;
  data : option JSON
}.

Record CallToolResult : Type := mkCallToolResult {
  content : list ContentItem;
  isError : option bool
}.

Inductive OperationCategory : Type :=
| code_operations | documentation_lookup | browser_testing
| web_research | ui_components.

Definition categoryString (c : OperationCategory) : string :=
  match c with
  | code_operations => "code_operations"
  | documentation_lookup => "documentation_lookup"
  | browser_testing => "browser_testing"
  | web_research => "web_research"
  | ui_components => "ui_components"
  end.

Record BridgeOperation : Type := mkBridgeOperation {
  category : OperationCategory;
  operation : string;
  params : list (string * JSON)
}.

(** The [error] block.  [details] is the error object a failure was
    built from (the dispatcher stores its stack trace, the batch
    executor the rejection reason itself). *)
Record BridgeError : Type := mkBridgeError {
  errorMessage : string;
  code : string;
  details : option Error
}.

(** The [metadata] block; [tokensEstimate] is optional in the
    interface. *)
Record Metadata : Type := mkMetadata {
  serverName : string;
  operationName : string;
  durationMs : Z;
  cached : bool;
  tokensEstimate : option Z
}.

(** [BridgeResponse]: [data], [error] and [metadata] are optional. *)
Record BridgeResponse : Type := mkBridgeResponse {
  success : bool;
  responseData : option (list ContentItem);
  error : option BridgeError;
  metadata : option Metadata
}.

Record BatchSummary : Type := mkBatchSummary {
  total : Z;
  succeeded : Z;
  failed : Z;
  batchDurationMs : Z;
  batchTokensEstimate : Z
}.

Record BatchResponse : Type := mkBatchResponse {
  results : list BridgeResponse;
  summary : BatchSummary
}.

(** The objects as [JSON.stringify] sees them: absent optional
    properties are skipped. *)
Definition optionalField {A : Type} (k : string) (f : A -> JSON) (o : option A)
  : list (string * JSON) :=
  match o with
  | Some x => [(k, f x)]
  | None => []
  end.

Definition itemJSON (item : ContentItem) : JSON :=
  JObject ([("type", JString (type item))]
           ++ optionalField "text" JString (text item)
           ++ optionalField "data" (fun d => d) (data item)).

Definition resultJSON (r : CallToolResult) : JSON :=
  JObject ([("content", JArray (map itemJSON (content r)))]
           ++ optionalField "isError" JBool (isError r)).

End Protocol.

(** ** utils/response-formatter.ts *)

Module ResponseFormatter.
Import JS Json Protocol.

Definition newline : ascii := ascii_of_nat 10.
Definition nl : string := String newline EmptyString.

(** The class [\s] on 8-bit code units. *)
Definition isSpace (c : ascii) : bool :=
  let n := nat_of_ascii c in
  orb (andb (Nat.leb 9 n) (Nat.leb n 13)) (orb (Nat.eqb n 32) (Nat.eqb n 160)).

Definition isNewline (c : ascii) : bool := Ascii.eqb c newline.

(** [s.replace(/C{min,}/g, replacement)] for a character class [C]:
    every maximal run of class characters that is at least [min] long
    is replaced. *)
Definition flushRun (min : nat) (replacement run : string) : string :=
  if Nat.leb min (String.length run) then replacement else run.

Fixpoint replaceRuns (cls : ascii -> bool) (min : nat) (replacement : string)
    (run s : string) : string :=
  match s with
  | EmptyString => flushRun min replacement run
  | String c s' =>
      if cls c then replaceRuns cls min replacement (run ++ String c "")%string s'
      else (flushRun min replacement run
            ++ String c (replaceRuns cls min replacement "" s'))%string
  end.

Fixpoint trimStart (s : string) : string :=
  match s with
  | EmptyString => EmptyString
  | String c s' => if isSpace c then trimStart s' else s
  end.

Fixpoint trimEnd (s : string) : string :=
  match s with
  | EmptyString => EmptyString
  | String c s' =>
      match trimEnd s' with
      | EmptyString => if isSpace c then EmptyString else String c EmptyString
      | rest => String c rest
      end
  end.

Definition trim (s : string) : string := trimEnd (trimStart s).

Definition compressText (t : string) : string :=
  trim (replaceRuns isSpace 2 " " ""
          (replaceRuns isNewline 3 (nl ++ nl)%string "" t)).

(** [item.type === 'text' && item.text]: the text is present and not
    the empty string. *)
Definition compressItem (item : ContentItem) : ContentItem :=
  match text item with
  | Some t =>
      if andb (String.eqb (type item) "text") (negb (String.eqb t ""))
      then {| type := "text"; text := Some (compressText t); data := None |}
      else item
  | None => item
  end.

Definition compressResponse (response : CallToolResult) : CallToolResult :=
  {| content := map compressItem (content response);
     isError := isError response |}.

(** [JSON.stringify(result).length]. *)
Definition serializedLength (r : CallToolResult) : Z :=
  Z.of_nat (String.length (stringify (resultJSON r))).

(** [Math.ceil(text.length / 4)]. *)
Definition estimateTokens (r : CallToolResult) : Z :=
  (serializedLength r + 3) / 4.

(** [!result.isError], with [undefined] falsy. *)
Definition notError (r : CallToolResult) : bool :=
  match isError r with
  | Some true => false
  | _ => true
  end.

(** The spread [...metadata] is overridden by the estimate computed
    here. *)
Definition formatBridgeResponse (r : CallToolResult) (m : Metadata)
  : BridgeResponse :=
  let estimate := estimateTokens r in
  {| success := notError r;
     responseData := Some (content r);
     error := None;
     metadata := Some {| serverName := serverName m;
                         operationName := operationName m;
                         durationMs := durationMs m;
                         cached := cached m;
                         tokensEstimate := Some estimate |} |}.

Definition defaultMaxSize : Z := 50000.

Definition truncationHeader (size : Z) : string :=
  ("[Response truncated - original size: " ++ showZ size ++ " bytes]"
   ++ nl ++ nl)%string.

Definition truncationTrailer : string := (nl ++ nl ++ "[... truncated]")%string.

(** [truncateIfNeeded(response, maxSize)]; [substring(0, maxSize - 100)]
    takes nothing when its end is not positive. *)
Definition truncateIfNeeded (response : CallToolResult) (maxSize : Z)
  : CallToolResult :=
  let size := serializedLength response in
  if size <=? maxSize then response
  else
    {| content :=
         [ {| type := "text";
              text := Some (truncationHeader size
                            ++ String.substring 0 (Z.to_nat (maxSize - 100))
                                 (stringify (resultJSON response))
                            ++ truncationTrailer)%string;
              data := None |} ];
       isError := isError response |}.

End ResponseFormatter.

(** ** Numbers of the runtime *)

(** JavaScript numbers are IEEE 754 doubles.  A finite double is
    modelled by the rational it denotes; [nearest] is the rounding of
    every arithmetic operation: the double nearest to a rational, ties
    to the even significand of 53 bits.  The range of exponents is not
    modelled; the quotients formed here, of clock readings by hit
    counts, stay far inside it. *)
Module Double.

(** The integer nearest to [n / d], ties to even, for positive [d]. *)
Definition roundHalfEven (n d : Z) : Z :=
  let q := n / d in
  let r := n mod d in
  if 2 * r <? d then q
  else if d <? 2 * r then q + 1
  else if Z.even q then q else q + 1.

(** [a / (d * 2^e)] as a fraction of integers. *)
Definition scaled (a d e : Z) : Z * Z :=
  if 0 <=? e then (a, d * 2 ^ e) else (a * 2 ^ (- e), d).

Definition nearest (n : Z) (d : positive) : Q :=
  if n =? 0 then 0%Q
  else
    let a := Z.abs n in
    let e0 := Z.log2 a - Z.log2 (Zpos d) - 52 in
    let e := if fst (scaled a (Zpos d) e0) <? 2 ^ 52 * snd (scaled a (Zpos d) e0)
             then e0 - 1 else e0 in
    let m := roundHalfEven (fst (scaled a (Zpos d) e)) (snd (scaled a (Zpos d) e)) in
    let v := if 0 <=? e then Qmake (m * 2 ^ e) 1
             else Qmake m (Z.to_pos (2 ^ (- e))) in
    if n <? 0 then Qopp v else v.

(** The double that holds an integer. *)
Definition ofZ (z : Z) : Q := nearest z 1.

(** [x / y] on doubles, for a divisor that is not zero. *)
Definition div (x y : Q) : Q :=
  let n := Qnum x * Zpos (Qden y) in
  let d := Zpos (Qden x) * Qnum y in
  nearest (n * Z.sgn d) (Z.to_pos (Z.abs d)).

End Double.

(** ** cache/response-cache.ts *)

Module ResponseCache.
Import JS Json Protocol.

Record CacheEntry : Type := mkCacheEntry {
  value : CallToolResult;
  timestamp : Z;
  hits : Z
}.

Record CacheConfig : Type := mkCacheConfig {
  enabled : bool;
  ttlSeconds : Z;
  maxSize : Z
}.

(** The [Map] of the cache, in insertion order. *)
Definition Cache : Type := list (string * CacheEntry).

(** [Map.prototype.set]: an existing key keeps its place. *)
Fixpoint mapSet (k : string) (e : CacheEntry) (m : Cache) : Cache :=
  match m with
  | [] => [(k, e)]
  | (k', e') :: rest =>
      if String.eqb k' k then (k, e) :: rest else (k', e') :: mapSet k e rest
  end.

(** [Map.prototype.delete]. *)
Definition mapDelete (k : string) (m : Cache) : Cache :=
  filter (fun kv => negb (String.eqb (fst kv) k)) m.

(** [generateKey]: the sorted top-level keys of [args] are handed to
    [JSON.stringify] as its replacer. *)
Definition generateKey (server tool : string) (args : list (string * JSON))
  : string :=
  let sortedArgs := stringifyWith (JObject args) (sort (keys args)) in
  (server ++ ":" ++ tool ++ ":" ++ sortedArgs)%string.

Section WithConfig.
Variable cfg : CacheConfig.

Definition get (now : Z) (server tool : string) (args : list (string * JSON))
    (cache : Cache) : Cache * option CallToolResult :=
  if negb (enabled cfg) then (cache, None)
  else
    let key := generateKey server tool args in
    match assoc key cache with
    | None => (cache, None)
    | Some entry =>
        let age := now - timestamp entry in
        let maxAge := ttlSeconds cfg * 1000 in
        if maxAge <? age then (mapDelete key cache, None)
        else (mapSet key {| value := value entry;
                            timestamp := timestamp entry;
                            hits := hits entry + 1 |} cache,
              Some (value entry))
    end.

(** [entry.timestamp / (entry.hits + 1)]: the division of doubles,
    rounded.  A hit count starts at zero and only grows, so the
    divisor is at least one. *)
Definition score (e : CacheEntry) : Q :=
  Double.div (Double.ofZ (timestamp e))
             (Double.ofZ (Zpos (Z.to_pos (hits e + 1)))).

(** [score < oldestScore], where [None] is the initial [Infinity]. *)
Definition below (s : Q) (oldestScore : option Q) : bool :=
  match oldestScore with
  | None => true
  | Some o => negb (Qle_bool o s)
  end.

(** The loop of [evictOldest]. *)
Fixpoint scan (entries : Cache) (oldestKey : option string)
    (oldestScore : option Q) : option string :=
  match entries with
  | [] => oldestKey
  | (k, e) :: rest =>
      if below (score e) oldestScore
      then scan rest (Some k) (Some (score e))
      else scan rest oldestKey oldestScore
  end.

(** [if (oldestKey)]: the key must be neither [null] nor empty. *)
Definition evictOldest (cache : Cache) : Cache :=
  match scan cache None None with
  | Some k => if String.eqb k "" then cache else mapDelete k cache
  | None => cache
  end.

Definition set (now : Z) (server tool : string) (args : list (string * JSON))
    (v : CallToolResult) (cache : Cache) : Cache :=
  if negb (enabled cfg) then cache
  else
    let cache1 :=
      if maxSize cfg <=? Z.of_nat (List.length cache) then evictOldest cache
      else cache in
    let key := generateKey server tool args in
    mapSet key {| value := v; timestamp := now; hits := 0 |} cache1.

(** [key.split(':')]. *)
Fixpoint splitColon (cur s : string) : list string :=
  match s with
  | EmptyString => [cur]
  | String c s' =>
      if Ascii.eqb c ":"%char then cur :: splitColon "" s'
      else splitColon (cur ++ String c "")%string s'
  end.

Record Pattern : Type := mkPattern {
  patternServer : option string;
  patternTool : option string
}.

(** [!p || segment === p], where an absent or empty [p] is falsy and an
    absent segment equals no string. *)
Definition segmentMatches (p : option string) (segment : option string) : bool :=
  match p with
  | None => true
  | Some want =>
      if String.eqb want "" then true
      else match segment with
           | Some s => String.eqb s want
           | None => false
           end
  end.

Definition keyMatches (p : Pattern) (key : string) : bool :=
  let segments := splitColon "" key in
  andb (segmentMatches (patternServer p) (nth_error segments 0))
       (segmentMatches (patternTool p) (nth_error segments 1)).

Definition invalidate (pattern : option Pattern) (cache : Cache) : Cache * Z :=
  match pattern with
  | None => ([], Z.of_nat (List.length cache))
  | Some p =>
      (filter (fun kv => negb (keyMatches p (fst kv))) cache,
       Z.of_nat (List.length (filter (fun kv => keyMatches p (fst kv)) cache)))
  end.

(** The body of the cleanup interval. *)
Definition sweep (now : Z) (cache : Cache) : Cache :=
  let maxAge := ttlSeconds cfg * 1000 in
  filter (fun kv => negb (maxAge <? now - timestamp (snd kv))) cache.

(** The operations a client of the cache, or its timer, can perform. *)
Inductive Op : Type :=
| OpGet (now : Z) (server tool : string) (args : list (string * JSON))
| OpSet (now : Z) (server tool : string) (args : list (string * JSON))
        (v : CallToolResult)
| OpInvalidate (pattern : option Pattern)
| OpSweep (now : Z).

Definition apply (cache : Cache) (op : Op) : Cache :=
  match op with
  | OpGet now server tool args => fst (get now server tool args cache)
  | OpSet now server tool args v => set now server tool args v cache
  | OpInvalidate pattern => fst (invalidate pattern cache)
  | OpSweep now => sweep now cache
  end.

(** The cache after a sequence of operations on a new, empty cache. *)
Definition run (ops : list Op) : Cache := fold_left apply ops [].

Definition size (cache : Cache) : Z := Z.of_nat (List.length cache).

(** Every entry sits under a non-empty key, as generated keys are. *)
Definition keyed (m : Cache) : Prop := Forall (fun kv => fst kv <> "") m.

(** The invariant of the cache: at most [maxSize] entries, all under
    generated keys. *)
Definition bounded (m : Cache) : Prop :=
  Z.of_nat (List.length m) <= maxSize cfg /\ keyed m.

End WithConfig.

End ResponseCache.

(** ** registry/operation-registry.ts *)

Module Registry.
Import Protocol.

(** An [OperationMapping]; its [description] plays no part in routing
    and is left out. *)
Record OperationMapping : Type := mkMapping {
  server : MCPClient.ServerName;
  tool : string;
  cacheable : bool
}.

Definition entry (n : string) (s : MCPClient.ServerName) (t : string) (c : bool)
  : string * OperationMapping :=
  (n, {| server := s; tool := t; cacheable := c |}).

Definition code_operations_table : list (string * OperationMapping) :=
  [ entry "findSymbol" MCPClient.serena "find_symbol" true;
    entry "findReferencingSymbols" MCPClient.serena "find_referencing_symbols" true;
    entry "findFiles" MCPClient.serena "find_file" true;
    entry "findDirectory" MCPClient.serena "find_directory" true;
    entry "searchInFiles" MCPClient.serena "search_for_pattern" true;
    entry "editFile" MCPClient.serena "replace_lines" false;
    entry "writeFile" MCPClient.serena "create_text_file" false;
    entry "createFile" MCPClient.serena "create_text_file" false;
    entry "deleteFile" MCPClient.serena "delete_lines" false;
    entry "renameFile" MCPClient.serena "replace_lines" false;
    entry "moveFile" MCPClient.serena "replace_lines" false;
    entry "readMemory" MCPClient.serena "read_memory" true;
    entry "writeMemory" MCPClient.serena "write_memory" false;
    entry "deleteMemory" MCPClient.serena "delete_memory" false;
    entry "listMemories" MCPClient.serena "list_memories" false;
    entry "getProjectStructure" MCPClient.serena "list_dir" true;
    entry "analyzeProject" MCPClient.serena "get_symbols_overview" true;
    entry "thinkAboutTaskAdherence" MCPClient.serena "think_about_task_adherence" false;
    entry "thinkAboutCollectedInformation" MCPClient.serena "think_about_collected_information" false;
    entry "thinkAboutWhetherYouAreDone" MCPClient.serena "think_about_whether_you_are_done" false;
    entry "thinkAboutCurrentTask" MCPClient.serena "think_about_collected_information" false;
    entry "getSessionInfo" MCPClient.serena "get_current_config" false;
    entry "updateSessionInfo" MCPClient.serena "switch_modes" false ].

Definition documentation_lookup_table : list (string * OperationMapping) :=
  [ entry "resolveLibraryId" MCPClient.context7 "resolve-library-id" true;
    entry "getLibraryDocs" MCPClient.context7 "get-library-docs" true ].

Definition browser_testing_table : list (string * OperationMapping) :=
  [ entry "navigate" MCPClient.playwright "browser_navigate" false;
    entry "goBack" MCPClient.playwright "browser_navigate_back" false;
    entry "goForward" MCPClient.playwright "browser_go_forward" false;
    entry "reload" MCPClient.playwright "browser_reload" false;
    entry "click" MCPClient.playwright "browser_click" false;
    entry "fill" MCPClient.playwright "browser_fill_form" false;
    entry "select" MCPClient.playwright "browser_select_option" false;
    entry "check" MCPClient.playwright "browser_check" false;
    entry "uncheck" MCPClient.playwright "browser_uncheck" false;
    entry "hover" MCPClient.playwright "browser_hover" false;
    entry "press" MCPClient.playwright "browser_press_key" false;
    entry "takeSnapshot" MCPClient.playwright "browser_snapshot" false;
    entry "getElements" MCPClient.playwright "browser_get_elements" false;
    entry "evaluate" MCPClient.playwright "browser_evaluate" false;
    entry "setViewportSize" MCPClient.playwright "browser_resize" false;
    entry "close" MCPClient.playwright "browser_close" false;
    entry "newPage" MCPClient.playwright "browser_new_page" false;
    entry "waitForSelector" MCPClient.playwright "browser_wait_for_selector" false;
    entry "waitForNavigation" MCPClient.playwright "browser_wait_for_navigation" false;
    entry "screenshot" MCPClient.playwright "browser_take_screenshot" false;
    entry "assertVisible" MCPClient.playwright "browser_assert_visible" false ].

Definition web_research_table : list (string * OperationMapping) :=
  [ entry "search" MCPClient.tavily "tavily-search" true;
    entry "extract" MCPClient.tavily "tavily-extract" true;
    entry "crawl" MCPClient.tavily "tavily-crawl" true;
    entry "map" MCPClient.tavily "tavily-map" true ].

Definition ui_components_table : list (string * OperationMapping) :=
  [ entry "getProjectRegistries" MCPClient.shadcn "get_project_registries" true;
    entry "listItemsInRegistries" MCPClient.shadcn "list_items_in_registries" true;
    entry "searchItemsInRegistries" MCPClient.shadcn "search_items_in_registries" true;
    entry "viewItemsInRegistries" MCPClient.shadcn "view_items_in_registries" true;
    entry "getItemExamplesFromRegistries" MCPClient.shadcn "get_item_examples_from_registries" true;
    entry "getAddCommandForItems" MCPClient.shadcn "get_add_command_for_items" true;
    entry "getAuditChecklist" MCPClient.shadcn "get_audit_checklist" true ].

(** [OPERATION_REGISTRY[category]]. *)
Definition OPERATION_REGISTRY (c : OperationCategory)
  : list (string * OperationMapping) :=
  match c with
  | code_operations => code_operations_table
  | documentation_lookup => documentation_lookup_table
  | browser_testing => browser_testing_table
  | web_research => web_research_table
  | ui_components => ui_components_table
  end.

(** The tables are plain objects, so a property read also finds the
    members they inherit from [Object.prototype]. *)
Definition objectPrototypeNames : list string :=
  [ "constructor"; "__defineGetter__"; "__defineSetter__"; "hasOwnProperty";
    "__lookupGetter__"; "__lookupSetter__"; "isPrototypeOf";
    "propertyIsEnumerable"; "toString"; "valueOf"; "__proto__";
    "toLocaleString" ].

(** What a property read on a table returns: one of its mappings, or
    an inherited member (a function, or the prototype itself), which is
    truthy and has no [server], [tool] or [cacheable]. *)
Inductive Member : Type :=
| Mapping (m : OperationMapping)
| Inherited.

(** [OPERATION_REGISTRY[category]?.[operation]]. *)
Definition getOperationMapping (c : OperationCategory) (operation : string)
  : option Member :=
  match Json.assoc operation (OPERATION_REGISTRY c) with
  | Some m => Some (Mapping m)
  | None =>
      if existsb (String.eqb operation) objectPrototypeNames
      then Some Inherited else None
  end.

(** [Object.keys(OPERATION_REGISTRY[category] || {})]. *)
Definition listOperations (c : OperationCategory) : list string :=
  map fst (OPERATION_REGISTRY c).

(** [!!OPERATION_REGISTRY[category]?.[operation]]. *)
Definition isValidOperation (c : OperationCategory) (operation : string) : bool :=
  match getOperationMapping c operation with
  | Some _ => true
  | None => false
  end.

End Registry.

(** ** execution/parallel-executor.ts *)

Module ParallelExecutor.
Import JS Protocol.

Record ExecutorConfig : Type := mkExecutorConfig { maxConcurrent : Z }.

(** How the promise returned by [executor(operation)] settles. *)
Definition Outcome : Type := Settled BridgeResponse Error.

(** A call of [executeWithConcurrencyControl]; [ticket] names the
    promise the call returned (and, for a queued call, its [resolve] and
    [reject] callbacks). *)
Record Task : Type := mkTask {
  ticket : nat;
  taskOperation : BridgeOperation
}.

(** The executor object together with the promises it has created.
    - [inFlight]: [executor(operation)] has been invoked and its
      promise is pending;
    - [resuming]: that promise has settled, the continuation after the
      [await] (the [finally] block) has not run yet;
    - [settled]: the promise handed to the caller has settled. *)
Record State : Type := mkState {
  activeOperations : Z;
  queue : list Task;
  inFlight : list Task;
  resuming : list (nat * Outcome);
  settled : list (nat * Outcome);
  nextTicket : nat
}.

Definition idle : State :=
  {| activeOperations := 0; queue := []; inFlight := []; resuming := [];
     settled := []; nextTicket := 0 |}.

(** Removes the first element whose key is [i]. *)
Fixpoint extract {A : Type} (key : A -> nat) (i : nat) (l : list A)
  : option (A * list A) :=
  match l with
  | [] => None
  | x :: rest =>
      if Nat.eqb (key x) i then Some (x, rest)
      else match extract key i rest with
           | Some (y, rest') => Some (y, x :: rest')
           | None => None
           end
  end.

Section WithConfig.
Variable cfg : ExecutorConfig.

(** [executeOperation] up to its [await]: the counter is incremented
    and the executor is invoked. *)
Definition startOperation (t : Task) (s : State) : State :=
  {| activeOperations := activeOperations s + 1;
     queue := queue s;
     inFlight := inFlight s ++ [t];
     resuming := resuming s;
     settled := settled s;
     nextTicket := nextTicket s |}.

Definition executeWithConcurrencyControl (operation : BridgeOperation)
    (s : State) : State :=
  let t := {| ticket := nextTicket s; taskOperation := operation |} in
  let s1 := {| activeOperations := activeOperations s;
               queue := queue s;
               inFlight := inFlight s;
               resuming := resuming s;
               settled := settled s;
               nextTicket := S (nextTicket s) |} in
  if maxConcurrent cfg <=? activeOperations s1 then
    {| activeOperations := activeOperations s1;
       queue := queue s1 ++ [t];
       inFlight := inFlight s1;
       resuming := resuming s1;
       settled := settled s1;
       nextTicket := nextTicket s1 |}
  else startOperation t s1.

(** The [while] loop of [processQueue], by recursion on the queue it
    shifts. *)
Fixpoint processLoop (pending : list Task) (s : State) : State :=
  match pending with
  | [] => s
  | t :: rest =>
      if activeOperations s <? maxConcurrent cfg then
        processLoop rest
          (startOperation t
             {| activeOperations := activeOperations s;
                queue := rest;
                inFlight := inFlight s;
                resuming := resuming s;
                settled := settled s;
                nextTicket := nextTicket s |})
      else s
  end.

Definition processQueue (s : State) : State := processLoop (queue s) s.

(** The promise of the executor invocation of ticket [i] settles
    with [o]. *)
Definition executorSettles (i : nat) (o : Outcome) (s : State) : option State :=
  match extract ticket i (inFlight s) with
  | Some (_, rest) =>
      Some {| activeOperations := activeOperations s;
              queue := queue s;
              inFlight := rest;
              resuming := resuming s ++ [(i, o)];
              settled := settled s;
              nextTicket := nextTicket s |}
  | None => None
  end.

(** The continuation of [executeOperation] for ticket [i] runs: the
    [finally] block decrements the counter and processes the queue,
    and the caller's promise settles like the executor's. *)
Definition resume (i : nat) (s : State) : option State :=
  match extract fst i (resuming s) with
  | Some ((_, o), rest) =>
      Some (processQueue
              {| activeOperations := activeOperations s - 1;
                 queue := queue s;
                 inFlight := inFlight s;
                 resuming := rest;
                 settled := settled s ++ [(i, o)];
                 nextTicket := nextTicket s |})
  | None => None
  end.

(** The steps of the executor. *)
Inductive Label : Type :=
| Present (operation : BridgeOperation)
| ExecutorSettles (i : nat) (o : Outcome)
| Resume (i : nat).

Definition applyLabel (l : Label) (s : State) : option State :=
  match l with
  | Present operation => Some (executeWithConcurrencyControl operation s)
  | ExecutorSettles i o => executorSettles i o s
  | Resume i => resume i s
  end.

Definition step (s : State) (l : Label) (s' : State) : Prop :=
  applyLabel l s = Some s'.

Inductive reachable : State -> Prop :=
| reachable_idle : reachable idle
| reachable_step : forall s l s',
    reachable s -> step s l s' -> reachable s'.

(** *** [executeBatch] *)

(** The promise of a rejected call becomes an [EXECUTION_ERROR]
    response; [details] records the rejection reason. *)
Definition rejectionResponse (operation : BridgeOperation) (reason : Error)
  : BridgeResponse :=
  {| success := false;
     responseData := None;
     error := Some {| errorMessage :=
                        if String.eqb (message reason) ""
                        then "Operation failed" else message reason;
                      code := "EXECUTION_ERROR";
                      details := Some reason |};
     metadata := Some {| serverName := categoryString (category operation);
                         operationName := Protocol.operation operation;
                         durationMs := 0;
                         cached := false;
                         tokensEstimate := None |} |}.

Definition bridgeResult (operation : BridgeOperation) (o : Outcome)
  : BridgeResponse :=
  match o with
  | Fulfilled v => v
  | Rejected reason => rejectionResponse operation reason
  end.

(** [r.metadata?.tokensEstimate || 0]. *)
Definition tokensOf (r : BridgeResponse) : Z :=
  match metadata r with
  | Some m => match tokensEstimate m with
              | Some n => n
              | None => 0
              end
  | None => 0
  end.

Definition summarize (operations : list BridgeOperation)
    (bridgeResults : list BridgeResponse) (totalDurationMs : Z) : BatchSummary :=
  {| total := Z.of_nat (List.length operations);
     succeeded := Z.of_nat (List.length (filter success bridgeResults));
     failed := Z.of_nat (List.length
                           (filter (fun r => negb (success r)) bridgeResults));
     batchDurationMs := totalDurationMs;
     batchTokensEstimate := fold_left (fun sum r => sum + tokensOf r) bridgeResults 0 |}.

(** The settlements the event loop can deliver next: an executor
    promise settles, or a settled one resumes its caller.
    [executor i operation] is how the promise of the invocation made for
    call [i] settles, whichever caller passed the executor function that
    ran it: a call that waited in the queue is run with the function of
    the call whose [finally] block released it.  The function hands
    back its promise without throwing first, as the [async] function
    that [BridgeServer.executeBatch] passes does. *)
Definition deliverable (executor : nat -> BridgeOperation -> Outcome)
    (s : State) : list Label :=
  map (fun t => ExecutorSettles (ticket t) (executor (ticket t) (taskOperation t)))
      (inFlight s)
  ++ map (fun r => Resume (fst r)) (resuming s).

(** What happens on the executor object while a batch waits: another
    batch arrives, or the event loop delivers a settlement, the one at
    position [k] (modulo their number) among those it can deliver, if
    there is one. *)
Inductive Event : Type :=
| Arrives (operations : list BridgeOperation)
| Delivers (k : nat).

(** [operations.map(operation => this.executeWithConcurrencyControl(...))]:
    the calls of a batch are made one after the other, before anything
    else runs. *)
Definition presentAll (operations : list BridgeOperation) (s : State) : State :=
  fold_left (fun st operation => executeWithConcurrencyControl operation st)
            operations s.

Definition handle (executor : nat -> BridgeOperation -> Outcome)
    (e : Event) (s : State) : State :=
  match e with
  | Arrives operations => presentAll operations s
  | Delivers k =>
      let labels := deliverable executor s in
      match nth_error labels (Nat.modulo k (List.length labels)) with
      | Some l =>
          match applyLabel l s with
          | Some s' => s'
          | None => s
          end
      | None => s
      end
  end.

(** [results.map((result, index) => ...)] over the settled promises of
    the calls [index], [index + 1], ..., in the order of [operations];
    [None] while one of them is pending. *)
Fixpoint collect (index : nat) (operations : list BridgeOperation)
    (done : list (nat * Outcome)) : option (list BridgeResponse) :=
  match operations with
  | [] => Some []
  | operation :: rest =>
      match Json.assoc_nat index done, collect (S index) rest done with
      | Some o, Some rs => Some (bridgeResult operation o :: rs)
      | _, _ => None
      end
  end.

(** [await Promise.allSettled(...)] on the promises of the calls
    [first], [first + 1], ...: the batch goes on as soon as all of them
    have settled; [None] when [events] ends before that. *)
Fixpoint awaitAll (executor : nat -> BridgeOperation -> Outcome)
    (first : nat) (operations : list BridgeOperation)
    (events : list Event) (s : State) : option (list BridgeResponse) :=
  match collect first operations (settled s) with
  | Some bridgeResults => Some bridgeResults
  | None =>
      match events with
      | [] => None
      | e :: rest => awaitAll executor first operations rest (handle executor e s)
      end
  end.

(** [executeBatch] on the executor object in state [s], which other
    batches share: its calls take the tickets from [nextTicket s] on.
    [events] is what happens on the executor after the calls of the
    batch were made; [totalDurationMs] is the clock difference the
    method measures. *)
Definition executeBatch (s : State) (operations : list BridgeOperation)
    (executor : nat -> BridgeOperation -> Outcome)
    (events : list Event) (totalDurationMs : Z) : option BatchResponse :=
  match awaitAll executor (nextTicket s) operations events
          (presentAll operations s) with
  | Some bridgeResults =>
      Some {| results := bridgeResults;
              summary := summarize operations bridgeResults totalDurationMs |}
  | None => None
  end.

(** *** Invariants *)

(** The counter counts the invocations that have started and whose
    [finally] block has not run; it stays within the cap; and calls wait
    in the queue only while the executor is at its cap. *)
Definition coherent (s : State) : Prop :=
  activeOperations s
    = Z.of_nat (List.length (inFlight s) + List.length (resuming s)) /\
  activeOperations s <= maxConcurrent cfg /\
  (queue s <> [] -> maxConcurrent cfg <= activeOperations s).

(** The work left: a queued or running call needs two deliveries, a
    resuming one needs one. *)
Definition load (s : State) : nat :=
  2 * List.length (queue s) + 2 * List.length (inFlight s)
  + List.length (resuming s).

(** The calls that arrive and the deliveries in a list of events. *)
Fixpoint arrivals (events : list Event) : nat :=
  match events with
  | [] => O
  | Arrives operations :: rest => (List.length operations + arrivals rest)%nat
  | Delivers _ :: rest => arrivals rest
  end.

Fixpoint deliveries (events : list Event) : nat :=
  match events with
  | [] => O
  | Arrives _ :: rest => deliveries rest
  | Delivers _ :: rest => S (deliveries rest)
  end.

(** Every ticket in the executor has been handed out. *)
Definition fresh (s : State) : Prop :=
  (forall t, In t (queue s ++ inFlight s) -> (ticket t < nextTicket s)%nat) /\
  (forall r, In r (resuming s ++ settled s) -> (fst r < nextTicket s)%nat).

(** The calls made from ticket [first] on are those of [history], one
    after the other: each is somewhere, it carries its operation, and
    once its invocation has settled its outcome is that of the
    executor on that operation. *)
Definition tracks (first : nat) (history : list BridgeOperation)
    (executor : nat -> BridgeOperation -> Outcome) (s : State) : Prop :=
  (forall t, In t (queue s ++ inFlight s) -> (first <= ticket t)%nat ->
     nth_error history (ticket t - first) = Some (taskOperation t)) /\
  (forall i o, In (i, o) (resuming s ++ settled s) -> (first <= i)%nat ->
     exists operation,
       nth_error history (i - first) = Some operation /\ o = executor i operation) /\
  nextTicket s = (first + List.length history)%nat /\
  (forall i, (first <= i < nextTicket s)%nat ->
     In i (map ticket (queue s)) \/ In i (map ticket (inFlight s)) \/
     In i (map fst (resuming s)) \/ In i (map fst (settled s))).

End WithConfig.

End ParallelExecutor.

(** ** monitoring/metrics.ts and bridge-server.ts *)

Module BridgeServer.
Import JS Json Protocol Registry.

Record OperationMetric : Type := mkOperationMetric {
  metricServer : MCPClient.ServerName;
  metricOperation : string;
  metricDurationMs : Z;
  metricTokensEstimate : Z;
  metricCached : bool;
  metricSuccess : bool;
  metricTimestamp : Z
}.

(** The dispatcher object: the keys of its client map, its cache, its
    retry policy and the metrics collector it shares. *)
Record Server : Type := mkServer {
  initialized : bool;
  clients : list MCPClient.ServerName;
  cacheConfig : ResponseCache.CacheConfig;
  cache : ResponseCache.Cache;
  retryConfig : ErrorHandler.RetryConfig;
  metricsEnabled : bool;
  metrics : list OperationMetric
}.

(** What a dispatch reads from outside: the clock on entry, the time
    the upstream call took, and how the promise of each
    [client.callTool] invocation settles. *)
Record Env : Type := mkEnv {
  now : Z;
  elapsed : Z;
  callTool : MCPClient.ServerName -> string -> list (string * JSON) ->
             nat -> Settled CallToolResult Error
}.

Inductive Completion : Type :=
| Throws (e : Error)
| Returns (r : BridgeResponse).

Definition withCache (s : Server) (c : ResponseCache.Cache) : Server :=
  {| initialized := initialized s; clients := clients s;
     cacheConfig := cacheConfig s; cache := c;
     retryConfig := retryConfig s; metricsEnabled := metricsEnabled s;
     metrics := metrics s |}.

(** [MetricsCollector.recordOperation]. *)
Definition recordOperation (m : OperationMetric) (s : Server) : Server :=
  if negb (metricsEnabled s) then s
  else
    {| initialized := initialized s; clients := clients s;
       cacheConfig := cacheConfig s; cache := cache s;
       retryConfig := retryConfig s; metricsEnabled := metricsEnabled s;
       metrics := metrics s ++ [m] |}.

Definition failureResponse (msg errorCode : string) : BridgeResponse :=
  {| success := false; responseData := None;
     error := Some {| errorMessage := msg; code := errorCode; details := None |};
     metadata := None |}.

(** [this.clients.get(mapping.server)] finds a client. *)
Definition hasClient (s : Server) (n : MCPClient.ServerName) : bool :=
  existsb (MCPClient.ServerName_eqb n) (clients s).

Definition executeOperation (env : Env) (category : OperationCategory)
    (operation : string) (params : list (string * JSON)) (s : Server)
  : Server * Completion :=
  if negb (initialized s) then
    (s, Throws (mkError "Bridge server not initialized"))
  else if negb (isValidOperation category operation) then
    (s, Returns (failureResponse
                   ("Invalid operation: " ++ operation ++ " in category "
                    ++ categoryString category)%string
                   "INVALID_OPERATION"))
  else
    match getOperationMapping category operation with
    | None =>
        (s, Returns (failureResponse
                       ("Operation mapping not found: " ++ operation)%string
                       "MAPPING_ERROR"))
    | Some Inherited =>
        (s, Returns (failureResponse "Server not available: undefined"
                       "SERVER_UNAVAILABLE"))
    | Some (Mapping mapping) =>
        let serverString := MCPClient.serverNameString (server mapping) in
        if negb (hasClient s (server mapping)) then
          (s, Returns (failureResponse
                         ("Server not available: " ++ serverString)%string
                         "SERVER_UNAVAILABLE"))
        else
          let '(cache1, cached) :=
            if cacheable mapping
            then ResponseCache.get (cacheConfig s) (now env) serverString
                   (tool mapping) params (cache s)
            else (cache s, None) in
          let s1 := withCache s cache1 in
          match cached with
          | Some hit =>
              let meta :=
                {| serverName := serverString; operationName := operation;
                   durationMs := 0; cached := true;
                   tokensEstimate := Some (ResponseFormatter.estimateTokens hit) |} in
              let s2 :=
                recordOperation
                  {| metricServer := server mapping; metricOperation := operation;
                     metricDurationMs := 0;
                     metricTokensEstimate := ResponseFormatter.estimateTokens hit;
                     metricCached := true; metricSuccess := true;
                     metricTimestamp := now env |} s1 in
              (s2, Returns (ResponseFormatter.formatBridgeResponse hit meta))
          | None =>
              let executionResult :=
                ErrorHandler.returned
                  (ErrorHandler.executeWithRetry (retryConfig s1)
                     (callTool env (server mapping) (tool mapping) params)) in
              let durationMs := elapsed env in
              match ErrorHandler.success executionResult,
                    ErrorHandler.result executionResult with
              | true, Some result =>
                  let compressed := ResponseFormatter.compressResponse result in
                  let s2 :=
                    if cacheable mapping
                    then withCache s1
                           (ResponseCache.set (cacheConfig s1)
                              (now env + elapsed env) serverString
                              (tool mapping) params compressed (cache s1))
                    else s1 in
                  let meta :=
                    {| serverName := serverString; operationName := operation;
                       durationMs := durationMs; cached := false;
                       tokensEstimate :=
                         Some (ResponseFormatter.estimateTokens compressed) |} in
                  let s3 :=
                    recordOperation
                      {| metricServer := server mapping;
                         metricOperation := operation;
                         metricDurationMs := durationMs;
                         metricTokensEstimate :=
                           ResponseFormatter.estimateTokens compressed;
                         metricCached := false; metricSuccess := true;
                         metricTimestamp := now env + elapsed env |} s2 in
                  (s3, Returns (ResponseFormatter.formatBridgeResponse
                                  compressed meta))
              | _, _ =>
                  let error :=
                    match ErrorHandler.error executionResult with
                    | Some e => e
                    | None => mkError "Unknown error"
                    end in
                  let s2 :=
                    recordOperation
                      {| metricServer := server mapping;
                         metricOperation := operation;
                         metricDurationMs := durationMs;
                         metricTokensEstimate := 0;
                         metricCached := false; metricSuccess := false;
                         metricTimestamp := now env + elapsed env |} s1 in
                  (s2, Returns
                         {| success := false; responseData := None;
                            error := Some {| errorMessage := message error;
                                             code := "EXECUTION_ERROR";
                                             details := Some error |};
                            metadata :=
                              Some {| serverName := serverString;
                                      operationName := operation;
                                      durationMs := durationMs;
                                      cached := false;
                                      tokensEstimate := None |} |})
              end
          end
    end.

End BridgeServer.

(** ** clients/mcp-client.ts: requests, responses and the reader *)

Module MCPTransport.
Import JS Json MCPClient.

(** The [id] of a JSON-RPC message: [string | number]. *)
Inductive MessageId : Type :=
| NumberId (n : Z)
| StringId (s : string).

(** A parsed inbound message.  [msgError] is [error.message] when the
    message has an [error] object; [msgResult] is [result], absent when
    the property is. *)
Record Message : Type := mkMessage {
  msgId : option MessageId;
  msgResult : option JSON;
  msgError : option string;
  msgMethod : option string
}.

(** A call of the [resolve] or [reject] callback of a pending request. *)
Inductive Delivery : Type :=
| Resolve (id : Z) (value : option JSON)
| Reject (id : Z) (e : Error).

Definition deliveryId (d : Delivery) : Z :=
  match d with
  | Resolve id _ => id
  | Reject id _ => id
  end.

(** [Map.prototype.has] and [Map.prototype.set] on the pending table. *)
Definition tableHas (id : Z) (table : list Z) : bool := existsb (Z.eqb id) table.

Definition tableSet (id : Z) (table : list Z) : list Z :=
  if tableHas id table then table else table ++ [id].

Definition withPending (c : Client) (table : list Z) : Client :=
  {| name := name c; processAlive := processAlive c; requestId := requestId c;
     pendingRequests := table; initialized := initialized c |}.

(** [handleMessage]: a message with a numeric [id] settles the pending
    request of that id, if there is one; everything else is at most
    logged. *)
Definition handleMessage (m : Message) (c : Client) : Client * list Delivery :=
  match msgId m with
  | Some (NumberId id) =>
      if tableHas id (pendingRequests c) then
        (withPending c (tableDelete id (pendingRequests c)),
         [ match msgError m with
           | Some msg => Reject id (mkError msg)
           | None => Resolve id (msgResult m)
           end ])
      else (c, [])
  | _ => (c, [])
  end.

Definition timeoutError (n : ServerName) (id : Z) : Error :=
  mkError ("Request " ++ showZ id ++ " to " ++ serverNameString n ++ " timed out").

Definition notRunningError (n : ServerName) : Error :=
  mkError (serverNameString n ++ " process not running").

Definition notInitializedError (n : ServerName) : Error :=
  mkError (serverNameString n ++ " client not initialized").

(** The callback of the thirty-second timer of request [id]. *)
Definition timeoutFires (id : Z) (c : Client) : Client * list Delivery :=
  if tableHas id (pendingRequests c) then
    (withPending c (tableDelete id (pendingRequests c)),
     [ Reject id (timeoutError (name c) id) ])
  else (c, []).

(** The outcome of starting a request: an exception, or a pending
    promise for request [id] after [frame] was written to the child. *)
Inductive Sent : Type :=
| SendThrows (e : Error)
| SendPending (id : Z) (frame : string) (c : Client).

Definition newline : string := String (ascii_of_nat 10) EmptyString.

Definition requestJSON (id : Z) (method : string) (params : JSON) : JSON :=
  JObject [ ("jsonrpc", JString "2.0"); ("id", JNumber id);
            ("method", JString method); ("params", params) ].

Definition sendRequest (method : string) (params : JSON) (c : Client) : Sent :=
  if negb (processAlive c) then SendThrows (notRunningError (name c))
  else
    let id := requestId c + 1 in
    SendPending id
      (stringify (requestJSON id method params) ++ newline)%string
      {| name := name c; processAlive := processAlive c; requestId := id;
         pendingRequests := tableSet id (pendingRequests c);
         initialized := initialized c |}.

Definition callTool (toolName : string) (args : list (string * JSON))
    (c : Client) : Sent :=
  if negb (initialized c) then SendThrows (notInitializedError (name c))
  else sendRequest "tools/call"
         (JObject [ ("name", JString toolName); ("arguments", JObject args) ]) c.

Definition listTools (c : Client) : Sent :=
  if negb (initialized c) then SendThrows (notInitializedError (name c))
  else sendRequest "tools/list" (JObject []) c.

Definition disconnect (c : Client) : Client :=
  if processAlive c then
    {| name := name c; processAlive := false; requestId := requestId c;
       pendingRequests := pendingRequests c; initialized := false |}
  else c.

Definition isConnected (c : Client) : bool :=
  andb (initialized c) (processAlive c).

(** A client as its constructor leaves it. *)
Definition newClient (n : ServerName) : Client :=
  {| name := n; processAlive := false; requestId := 0; pendingRequests := [];
     initialized := false |}.

(** What can happen to a client: the child is spawned, the handshake
    completes, a request is started, a message arrives, a request timer
    fires, the child reports an error or exits, the owner disconnects. *)
Inductive Event : Type :=
| Spawned
| Initialized
| Request (method : string) (params : JSON)
| Arrives (m : Message)
| TimerFires (id : Z)
| ProcessError (e : Error)
| ProcessExit (code : option Z)
| Disconnect.

Definition react (c : Client) (ev : Event) : Client :=
  match ev with
  | Spawned =>
      {| name := name c; processAlive := true; requestId := requestId c;
         pendingRequests := pendingRequests c; initialized := initialized c |}
  | Initialized =>
      {| name := name c; processAlive := processAlive c; requestId := requestId c;
         pendingRequests := pendingRequests c; initialized := true |}
  | Request method params =>
      match sendRequest method params c with
      | SendPending _ _ c' => c'
      | SendThrows _ => c
      end
  | Arrives m => fst (handleMessage m c)
  | TimerFires id => fst (timeoutFires id c)
  | ProcessError e => fst (handleProcessError e c)
  | ProcessExit code => fst (handleProcessExit code c)
  | Disconnect => disconnect c
  end.

Definition history (n : ServerName) (events : list Event) : Client :=
  fold_left react events (newClient n).

(** *** The reader of the child's standard output *)

Definition isNewline (c : ascii) : bool := Ascii.eqb c (ascii_of_nat 10).

(** The [while] loop of [handleStdout] on the text of the buffer: each
    round takes the text before the first newline as a line and keeps
    the text after it; what follows the last newline stays in the
    buffer.  [cur] is the part of the current line already scanned. *)
Fixpoint frames (cur s : string) : list string * string :=
  match s with
  | EmptyString => ([], cur)
  | String c s' =>
      if isNewline c then
        let '(lines, rest) := frames EmptyString s' in (cur :: lines, rest)
      else frames (cur ++ String c EmptyString)%string s'
  end.

Record Reader : Type := mkReader {
  client : Client;
  buffer : string
}.

Section WithParser.
(** [data.toString()]: the text the runtime decodes from the bytes of
    one chunk, each chunk on its own. *)
Variable toString : list ascii -> string.

(** [JSON.parse] followed by the cast to a message; [None] when it
    throws. *)
Variable parse : string -> option Message.

(** The body of the loop for one line: it is trimmed, skipped when
    empty, parsed, and handled; a line that does not parse is logged
    and dropped. *)
Definition handleLine (acc : Client * list Delivery) (line : string)
  : Client * list Delivery :=
  let trimmed := ResponseFormatter.trim line in
  if String.eqb trimmed "" then acc
  else
    match parse trimmed with
    | Some m =>
        let '(c', ds) := handleMessage m (fst acc) in (c', snd acc ++ ds)
    | None => acc
    end.

Definition handleStdout (data : list ascii) (r : Reader)
  : Reader * list Delivery :=
  let '(lines, rest) :=
    frames EmptyString (buffer r ++ toString data)%string in
  let '(c', ds) := fold_left handleLine lines (client r, []) in
  ({| client := c'; buffer := rest |}, ds).

End WithParser.

(** No character of the text is a newline. *)
Definition singleLine (s : string) : bool :=
  forallb (fun c => negb (isNewline c)) (chars s).

(** The pending table of a client: ids handed out so far, each at most
    once. *)
Definition pendingWellFormed (c : Client) : Prop :=
  0 <= requestId c /\
  NoDup (pendingRequests c) /\
  (forall id, In id (pendingRequests c) -> 1 <= id <= requestId c).

End MCPTransport.

(** ** Shapes of parameter objects *)

Module JsonShape.
Import Json.

(** A value in which no object occurs: a primitive, or an array of
    such values. *)
Fixpoint objectFree (v : JSON) : bool :=
  match v with
  | JArray items => forallb objectFree items
  | JObject _ => false
  | _ => true
  end.

(** A parameter object whose property names are distinct and whose
    values hold no object. *)
Definition flatObject (fields : list (string * JSON)) : Prop :=
  NoDup (map fst fields) /\
  Forall (fun kv => objectFree (snd kv) = true) fields.

End JsonShape.


(** ** Shapes of compacted text *)

Module TextShape.

(** Every character of [s] is in the class. *)
Fixpoint allIn (cls : ascii -> bool) (s : string) : bool :=
  match s with
  | EmptyString => true
  | String c s' => andb (cls c) (allIn cls s')
  end.

(** No two neighbouring characters of [s] are both in the class. *)
Fixpoint isolated (cls : ascii -> bool) (s : string) : bool :=
  match s with
  | EmptyString => true
  | String c s' =>
      andb (match s' with
            | String d _ => negb (andb (cls c) (cls d))
            | EmptyString => true
            end)
           (isolated cls s')
  end.

End TextShape.


(** ** Where the calls of an executor are *)

Module ExecutorShape.
Import ParallelExecutor.

(** The tickets of the calls waiting, running, resuming and settled. *)
Definition tickets (s : State) : list nat :=
  map ticket (queue s) ++ map ticket (inFlight s)
  ++ map fst (resuming s) ++ map fst (settled s).

(** The tickets that have left the queue. *)
Definition started (s : State) : list nat :=
  map ticket (inFlight s) ++ map fst (resuming s) ++ map fst (settled s).

End ExecutorShape.


(** ** registry/operation-registry.ts, queries over the whole table *)

Module RegistryQueries.
Import Protocol Registry.

(** [Object.values(OPERATION_REGISTRY)] walks the categories in the
    order of the literal. *)
Definition categories : list OperationCategory :=
  [ code_operations; documentation_lookup; browser_testing;
    web_research; ui_components ].

Definition getCacheableOperations (server : MCPClient.ServerName) : list string :=
  flat_map
    (fun c =>
       map fst
           (filter (fun kv =>
                      andb (MCPClient.ServerName_eqb (Registry.server (snd kv)) server)
                           (cacheable (snd kv)))
                   (OPERATION_REGISTRY c)))
    categories.

(** The upstream that the operations of a category are written for. *)
Definition categoryServer (c : OperationCategory) : MCPClient.ServerName :=
  match c with
  | code_operations => MCPClient.serena
  | documentation_lookup => MCPClient.context7
  | browser_testing => MCPClient.playwright
  | web_research => MCPClient.tavily
  | ui_components => MCPClient.shadcn
  end.

End RegistryQueries.


(** ** monitoring/metrics.ts *)

Module MetricsCollector.
Import BridgeServer.

(** [[...new Set(items)]]: the distinct items, each at its first
    occurrence. *)
Fixpoint distinct {A : Type} (eqb : A -> A -> bool) (seen items : list A)
  : list A :=
  match items with
  | [] => []
  | x :: rest =>
      if existsb (eqb x) seen then distinct eqb seen rest
      else x :: distinct eqb (x :: seen) rest
  end.

(** [metrics.reduce((sum, m) => sum + f(m), start)]. *)
Definition sumFrom (f : OperationMetric -> Z) (start : Z)
    (ms : list OperationMetric) : Z :=
  fold_left (fun sum m => sum + f m) ms start.

Definition count (ms : list OperationMetric) : Z := Z.of_nat (List.length ms).

(** [d > 0 ? n / d : 0], as an exact quotient. *)
Definition ratio (n d : Z) : Q :=
  if 0 <? d then Qmake n (Z.to_pos d) else 0%Q.

Record Aggregate : Type := mkAggregate {
  operations : Z;
  tokens : Z;
  averageDuration : Q;
  successRate : Q
}.

(** The body of the loops of [aggregateByServer] and
    [aggregateByOperation]. *)
Definition aggregate (ms : list OperationMetric) : Aggregate :=
  {| operations := count ms;
     tokens := sumFrom metricTokensEstimate 0 ms;
     averageDuration := ratio (sumFrom metricDurationMs 0 ms) (count ms);
     successRate := ratio (count (filter metricSuccess ms)) (count ms) |}.

Definition aggregateByServer (ms : list OperationMetric)
  : list (MCPClient.ServerName * Aggregate) :=
  map (fun sv =>
         (sv, aggregate
                (filter (fun m => MCPClient.ServerName_eqb (metricServer m) sv) ms)))
      (distinct MCPClient.ServerName_eqb [] (map metricServer ms)).

(** The rows are properties of a plain object: the assignment
    [result[operation] = ...] makes no row for the name [__proto__],
    which sets the prototype of [result] instead. *)
Definition aggregateByOperation (ms : list OperationMetric)
  : list (string * Aggregate) :=
  map (fun op =>
         (op, aggregate (filter (fun m => String.eqb (metricOperation m) op) ms)))
      (filter (fun op => negb (String.eqb op "__proto__"))
              (distinct String.eqb [] (map metricOperation ms))).

Record MetricsSummary : Type := mkMetricsSummary {
  totalOperations : Z;
  successfulOperations : Z;
  failedOperations : Z;
  totalDurationMs : Z;
  averageDurationMs : Q;
  totalTokens : Z;
  averageTokens : Q;
  cacheHitRate : Q;
  byServer : list (MCPClient.ServerName * Aggregate);
  byOperation : list (string * Aggregate)
}.

Definition getSummary (ms : list OperationMetric) : MetricsSummary :=
  let total := count ms in
  let successful := count (filter metricSuccess ms) in
  let duration := sumFrom metricDurationMs 0 ms in
  let allTokens := sumFrom metricTokensEstimate 0 ms in
  {| totalOperations := total;
     successfulOperations := successful;
     failedOperations := total - successful;
     totalDurationMs := duration;
     averageDurationMs := ratio duration total;
     totalTokens := allTokens;
     averageTokens := ratio allTokens total;
     cacheHitRate := ratio (count (filter metricCached ms)) total;
     byServer := aggregateByServer ms;
     byOperation := aggregateByOperation ms |}.

Definition toolSchemaTokensPerServer (sv : MCPClient.ServerName) : Z :=
  match sv with
  | MCPClient.serena => 23000
  | MCPClient.context7 => 2000
  | MCPClient.playwright => 21000
  | MCPClient.tavily => 4000
  | MCPClient.shadcn => 7000
  end.

Record TokenReduction : Type := mkTokenReduction {
  bridgeTokens : Z;
  estimatedDirectTokens : Z;
  reductionPercentage : Q
}.

Definition calculateTokenReduction (ms : list OperationMetric) : TokenReduction :=
  let bridge := sumFrom metricTokensEstimate 0 ms in
  let servers := distinct MCPClient.ServerName_eqb [] (map metricServer ms) in
  let direct :=
    fold_left (fun sum sv => sum + toolSchemaTokensPerServer sv) servers bridge in
  {| bridgeTokens := bridge;
     estimatedDirectTokens := direct;
     reductionPercentage :=
       if 0 <? direct
       then Qmult (Qmake (direct - bridge) (Z.to_pos direct)) (inject_Z 100)
       else 0%Q |}.

(** The sum of a column of a table of aggregates. *)
Definition column {K : Type} (f : Aggregate -> Z) (table : list (K * Aggregate)) : Z :=
  fold_right Z.add 0 (map (fun e => f (snd e)) table).

End MetricsCollector.


(** ** protocol/mcp-protocol.ts *)

Module MCPProtocolHandler.
Import JS Json.

(** The handlers in the tables are closures.  Three are methods of the
    class, bound by [setupDefaultHandlers]; the others are whatever the
    application registers, named here by a number. *)
Inductive Closure : Type :=
| HandleInitialize
| HandleInitialized
| HandleCancelled
| Registered (name : nat).

Record Handler : Type := mkHandler {
  initialized : bool;
  requestHandlers : list (string * Closure);
  notificationHandlers : list (string * Closure)
}.

(** [Map.prototype.set] on the handler tables. *)
Fixpoint tableSet {A : Type} (k : string) (x : A) (m : list (string * A))
  : list (string * A) :=
  match m with
  | [] => [(k, x)]
  | (k', y) :: rest =>
      if String.eqb k' k then (k, x) :: rest else (k', y) :: tableSet k x rest
  end.

Definition registerRequestHandler (method : string) (handler : Closure)
    (h : Handler) : Handler :=
  {| initialized := initialized h;
     requestHandlers := tableSet method handler (requestHandlers h);
     notificationHandlers := notificationHandlers h |}.

Definition registerNotificationHandler (method : string) (handler : Closure)
    (h : Handler) : Handler :=
  {| initialized := initialized h;
     requestHandlers := requestHandlers h;
     notificationHandlers := tableSet method handler (notificationHandlers h) |}.

(** What a closure can do to the handler object while it runs. *)
Inductive Effect : Type :=
| SetInitialized (flag : bool)
| RegisterRequest (method : string) (handler : Closure)
| RegisterNotification (method : string) (handler : Closure).

Definition applyEffect (h : Handler) (e : Effect) : Handler :=
  match e with
  | SetInitialized flag =>
      {| initialized := flag;
         requestHandlers := requestHandlers h;
         notificationHandlers := notificationHandlers h |}
  | RegisterRequest method handler => registerRequestHandler method handler h
  | RegisterNotification method handler =>
      registerNotificationHandler method handler h
  end.

Definition applyEffects (h : Handler) (effects : list Effect) : Handler :=
  fold_left applyEffect effects h.

(** How a call of a closure ends: its promise is fulfilled ([None] for
    [undefined]), or it rejects or throws; the reason is [None] when
    the value thrown is not an [Error].  A fulfilled value is given as
    [JSON.stringify] writes it; one that [JSON.stringify] refuses ends
    in the same [catch] of [handleRequest] as a rejection and is given
    as the rejection with that [TypeError].  A notification handler is
    called and not awaited: for it [Rejected] is a synchronous
    throw. *)
Definition Outcome : Type := Settled (option JSON) (option Error).

(** The closures of the application: what a call of closure [name] with
    [params] on the handler object does to that object, and how it
    ends. *)
Definition Application : Type :=
  nat -> option JSON -> Handler -> list Effect * Outcome.

(** The message of the [TypeError] for a property read on [undefined] or
    [null], as Node words it. *)
Definition cannotRead (what property : string) : string :=
  ("Cannot read properties of " ++ what ++ " (reading '" ++ property ++ "')")%string.

Definition initializeResult : JSON :=
  JObject
    [ ("protocolVersion", JString "2024-11-05");
      ("capabilities", JObject [("tools", JObject [])]);
      ("serverInfo", JObject [ ("name", JString "mcp-bridge");
                               ("version", JString "1.0.0") ]) ].

(** [handleInitialize] reads [request.clientInfo] for its log line
    before it answers, which throws when [params] is [undefined] or
    [null]. *)
Definition handleInitialize (params : option JSON) : list Effect * Outcome :=
  match params with
  | None => ([], Rejected (Some (mkError (cannotRead "undefined" "clientInfo"))))
  | Some JNull => ([], Rejected (Some (mkError (cannotRead "null" "clientInfo"))))
  | Some _ => ([], Fulfilled (Some initializeResult))
  end.

Definition handleInitialized : list Effect * Outcome :=
  ([SetInitialized true], Fulfilled None).

Definition handleCancelled : list Effect * Outcome := ([], Fulfilled None).

Definition call (app : Application) (c : Closure) (params : option JSON)
    (h : Handler) : list Effect * Outcome :=
  match c with
  | HandleInitialize => handleInitialize params
  | HandleInitialized => handleInitialized
  | HandleCancelled => handleCancelled
  | Registered name => app name params h
  end.

(** The constructor: [setupDefaultHandlers]. *)
Definition newHandler : Handler :=
  registerNotificationHandler "notifications/cancelled" HandleCancelled
    (registerNotificationHandler "initialized" HandleInitialized
       (registerRequestHandler "initialize" HandleInitialize
          {| initialized := false; requestHandlers := [];
             notificationHandlers := [] |})).

Definition PARSE_ERROR : Z := -32700.
Definition METHOD_NOT_FOUND : Z := -32601.
Definition INTERNAL_ERROR : Z := -32603.

(** [typeof x === 'string'] and [typeof x === 'string' || typeof x ===
    'number'] on a property that may be absent. *)
Definition isString (x : option JSON) : bool :=
  match x with
  | Some (JString _) => true
  | _ => false
  end.

Definition isStringOrNumber (x : option JSON) : bool :=
  match x with
  | Some (JString _) | Some (JNumber _) => true
  | _ => false
  end.

Definition isVersion2 (x : option JSON) : bool :=
  match x with
  | Some (JString v) => String.eqb v "2.0"
  | _ => false
  end.

Definition isRequest (fields : list (string * JSON)) : bool :=
  andb (isVersion2 (assoc "jsonrpc" fields))
       (andb (isStringOrNumber (assoc "id" fields))
             (isString (assoc "method" fields))).

Definition isNotification (fields : list (string * JSON)) : bool :=
  andb (isVersion2 (assoc "jsonrpc" fields))
       (andb (isString (assoc "method" fields))
             (match assoc "id" fields with
              | Some _ => false
              | None => true
              end)).

Definition optionalField (k : string) (x : option JSON) : list (string * JSON) :=
  match x with
  | Some v => [(k, v)]
  | None => []
  end.

Definition createSuccessResponse (id : JSON) (result : option JSON) : JSON :=
  JObject ([("jsonrpc", JString "2.0"); ("id", id)] ++ optionalField "result" result).

(** [id ?? 0]: a missing id becomes the number zero. *)
Definition createErrorResponse (id : option JSON) (code : Z) (msg : string) : JSON :=
  JObject [ ("jsonrpc", JString "2.0");
            ("id", match id with
                   | Some v => v
                   | None => JNumber 0
                   end);
            ("error", JObject [("code", JNumber code); ("message", JString msg)]) ].

Definition methodOf (fields : list (string * JSON)) : string :=
  match assoc "method" fields with
  | Some (JString m) => m
  | _ => ""
  end.

Definition idOf (fields : list (string * JSON)) : JSON :=
  match assoc "id" fields with
  | Some v => v
  | None => JNull
  end.

(** [error instanceof Error ? error.message : 'Internal error']. *)
Definition reasonMessage (reason : option Error) : string :=
  match reason with
  | Some e => message e
  | None => "Internal error"
  end.

Section WithApplication.
Variable app : Application.

Definition handleRequest (fields : list (string * JSON)) (h : Handler)
  : Handler * string :=
  let id := idOf fields in
  let method := methodOf fields in
  match assoc method (requestHandlers h) with
  | None =>
      (h, stringify (createErrorResponse (Some id) METHOD_NOT_FOUND
                       ("Method not found: " ++ method)%string))
  | Some handler =>
      let '(effects, outcome) := call app handler (assoc "params" fields) h in
      (applyEffects h effects,
       match outcome with
       | Fulfilled result => stringify (createSuccessResponse id result)
       | Rejected reason =>
           stringify (createErrorResponse (Some id) INTERNAL_ERROR
                        (reasonMessage reason))
       end)
  end.

(** [handleNotification]; [true] when the handler threw, which escapes
    to [handleMessage]. *)
Definition handleNotification (fields : list (string * JSON)) (h : Handler)
  : Handler * bool :=
  match assoc (methodOf fields) (notificationHandlers h) with
  | None => (h, false)
  | Some handler =>
      let '(effects, outcome) := call app handler (assoc "params" fields) h in
      (applyEffects h effects,
       match outcome with
       | Fulfilled _ => false
       | Rejected _ => true
       end)
  end.

Definition parseErrorResponse : string :=
  stringify (createErrorResponse None PARSE_ERROR "Parse error").

(** [handleMessage]; [parsed] is what [JSON.parse(message)] returned,
    [None] when it threw.  The answer is the string to send back, or
    [None] for [null]. *)
Definition handleMessage (parsed : option JSON) (h : Handler)
  : Handler * option string :=
  match parsed with
  | Some (JObject fields) =>
      if isRequest fields then
        let '(h', answer) := handleRequest fields h in (h', Some answer)
      else if isNotification fields then
        let '(h', threw) := handleNotification fields h in
        (h', if threw then Some parseErrorResponse else None)
      else (h, Some parseErrorResponse)
  | _ => (h, Some parseErrorResponse)
  end.

End WithApplication.

Definition isInitialized (h : Handler) : bool := initialized h.

End MCPProtocolHandler.


(** ** Concrete inputs used by the examples below *)

Module Fixtures.
Import JS.

(** The configuration of the unit tests of the retry wrapper. *)
Definition retry3 : ErrorHandler.RetryConfig :=
  {| ErrorHandler.maxAttempts := 3; ErrorHandler.initialDelayMs := 10;
     ErrorHandler.maxDelayMs := 100; ErrorHandler.backoffMultiplier := 2 |}.

(** [jest.fn().mockRejectedValue(new Error('timeout'))]. *)
Definition alwaysTimeout : nat -> Settled unit Error :=
  fun _ => Rejected (mkError "timeout").

(** [jest.fn().mockRejectedValue(new Error('invalid request'))]. *)
Definition alwaysInvalid : nat -> Settled unit Error :=
  fun _ => Rejected (mkError "invalid request").

(** A connected client with three requests in flight. *)
Definition busySerena : MCPClient.Client :=
  {| MCPClient.name := MCPClient.serena; MCPClient.processAlive := true;
     MCPClient.requestId := 7; MCPClient.pendingRequests := [5; 6; 7];
     MCPClient.initialized := true |}.

(** The retry wrapper around a call whose every attempt meets the error
    of an exited [serena] process. *)
Definition alwaysExited : nat -> Settled unit Error :=
  fun _ => Rejected (MCPClient.exitError MCPClient.serena (Some 1)).

(** Two parameter objects that differ in a nested property only. *)
Definition depthOne : list (string * Json.JSON) :=
  [ ("name_path", Json.JString "User");
    ("options", Json.JObject [("depth", Json.JNumber 1)]) ].

Definition depthTwo : list (string * Json.JSON) :=
  [ ("name_path", Json.JString "User");
    ("options", Json.JObject [("depth", Json.JNumber 2)]) ].

(** The same flat parameter object with its keys in two orders. *)
Definition abOrder : list (string * Json.JSON) :=
  [ ("a", Json.JNumber 1); ("b", Json.JNumber 2) ].

Definition baOrder : list (string * Json.JSON) :=
  [ ("b", Json.JNumber 2); ("a", Json.JNumber 1) ].

Definition textResult (t : string) : Protocol.CallToolResult :=
  {| Protocol.content :=
       [ {| Protocol.type := "text"; Protocol.text := Some t;
            Protocol.data := None |} ];
     Protocol.isError := None |}.

(** The small cache of the eviction unit test, and one that is
    configured to hold nothing. *)
Definition smallCache : ResponseCache.CacheConfig :=
  {| ResponseCache.enabled := true; ResponseCache.ttlSeconds := 60;
     ResponseCache.maxSize := 3 |}.

Definition zeroCache : ResponseCache.CacheConfig :=
  {| ResponseCache.enabled := true; ResponseCache.ttlSeconds := 60;
     ResponseCache.maxSize := 0 |}.

Definition fourSets : list ResponseCache.Op :=
  [ ResponseCache.OpSet 1000 "serena" "tool1" [] (textResult "data1");
    ResponseCache.OpSet 1001 "serena" "tool2" [] (textResult "data2");
    ResponseCache.OpSet 1002 "serena" "tool3" [] (textResult "data3");
    ResponseCache.OpSet 1003 "serena" "tool4" [] (textResult "data4") ].

(** A dispatcher with four upstreams connected (no [tavily]), default
    cache and retry settings, and metrics collection on. *)
Definition readyServer : BridgeServer.Server :=
  {| BridgeServer.initialized := true;
     BridgeServer.clients :=
       [ MCPClient.serena; MCPClient.context7; MCPClient.playwright;
         MCPClient.shadcn ];
     BridgeServer.cacheConfig :=
       {| ResponseCache.enabled := true; ResponseCache.ttlSeconds := 300;
          ResponseCache.maxSize := 1000 |};
     BridgeServer.cache := [];
     BridgeServer.retryConfig := retry3;
     BridgeServer.metricsEnabled := true;
     BridgeServer.metrics := [] |}.

(** An environment whose upstream answers every call with [r]. *)
Definition answering (r : Protocol.CallToolResult) : BridgeServer.Env :=
  {| BridgeServer.now := 1700000000000;
     BridgeServer.elapsed := 12;
     BridgeServer.callTool := fun _ _ _ _ => Fulfilled r |}.

Definition userQuery : list (string * Json.JSON) :=
  [ ("name_path", Json.JString "User") ].

(** An upstream answer that reports a tool error. *)
Definition toolError : Protocol.CallToolResult :=
  {| Protocol.content :=
       [ {| Protocol.type := "text"; Protocol.text := Some "symbol lookup failed";
            Protocol.data := None |} ];
     Protocol.isError := Some true |}.

(** A text of sixty thousand characters. *)
Fixpoint repeatChar (n : nat) (c : ascii) : string :=
  match n with
  | O => EmptyString
  | S n' => String c (repeatChar n' c)
  end.

Definition bigResult : Protocol.CallToolResult :=
  textResult (repeatChar (Z.to_nat 60000) "x"%char).

(** The response a completed dispatch returned. *)
Definition responseOf (c : BridgeServer.Completion) : Protocol.BridgeResponse :=
  match c with
  | BridgeServer.Returns r => r
  | BridgeServer.Throws e =>
      BridgeServer.failureResponse (message e) "INTERNAL_ERROR"
  end.

(** Three dispatches on [readyServer]: a tool error from the upstream,
    an operation the registry does not have, and an operation of an
    upstream that is not connected. *)
Definition toolErrorDispatch : BridgeServer.Server * BridgeServer.Completion :=
  BridgeServer.executeOperation (answering toolError)
    Protocol.code_operations "findSymbol" userQuery readyServer.

Definition unknownDispatch : BridgeServer.Server * BridgeServer.Completion :=
  BridgeServer.executeOperation (answering toolError)
    Protocol.code_operations "noSuchOperation" userQuery readyServer.

Definition unavailableDispatch : BridgeServer.Server * BridgeServer.Completion :=
  BridgeServer.executeOperation (answering toolError)
    Protocol.web_research "search" userQuery readyServer.

Definition bigDispatch : BridgeServer.Server * BridgeServer.Completion :=
  BridgeServer.executeOperation (answering bigResult)
    Protocol.code_operations "findSymbol" userQuery readyServer.

(** A text result a little over a hundred characters long, and the
    mapping of [findSymbol]. *)
Definition mediumResult : Protocol.CallToolResult :=
  textResult (repeatChar 150 "y"%char).

Definition findSymbolMapping : Registry.OperationMapping :=
  {| Registry.server := MCPClient.serena; Registry.tool := "find_symbol";
     Registry.cacheable := true |}.

(** The executor of the unit tests, capped at two, and one that admits
    nothing. *)
Definition capTwo : ParallelExecutor.ExecutorConfig :=
  {| ParallelExecutor.maxConcurrent := 2 |}.

Definition capZero : ParallelExecutor.ExecutorConfig :=
  {| ParallelExecutor.maxConcurrent := 0 |}.

Definition mockOperation (n : string) : Protocol.BridgeOperation :=
  {| Protocol.category := Protocol.code_operations;
     Protocol.operation := n; Protocol.params := [] |}.

Definition mockResponse (n : string) (ok : bool) : Protocol.BridgeResponse :=
  {| Protocol.success := ok;
     Protocol.responseData := Some [];
     Protocol.error := None;
     Protocol.metadata :=
       Some {| Protocol.serverName := "serena"; Protocol.operationName := n;
               Protocol.durationMs := 100; Protocol.cached := false;
               Protocol.tokensEstimate := Some 500 |} |}.

Definition threeOperations : list Protocol.BridgeOperation :=
  [ mockOperation "success1"; mockOperation "fail1"; mockOperation "success2" ].

(** An executor that rejects the operations whose name starts with
    [fail] and fulfils the others. *)
Definition mockExecutor (i : nat) (op : Protocol.BridgeOperation)
  : ParallelExecutor.Outcome :=
  if startsWith (Protocol.operation op) "fail"
  then Rejected (mkError "timeout")
  else Fulfilled (mockResponse (Protocol.operation op) true).


(** The executor after three calls under a cap of two. *)
Definition threePresented : ParallelExecutor.State :=
  fold_left (fun s op => ParallelExecutor.executeWithConcurrencyControl capTwo op s)
            threeOperations ParallelExecutor.idle.

(** Six deliveries, each of the last settlement the event loop can
    deliver. *)
Definition sixDeliveries : list ParallelExecutor.Event :=
  repeat (ParallelExecutor.Delivers 5) 6.

(** A batch that arrives at a busy executor, and what happens while it
    waits: a settlement is delivered, another batch arrives, and the
    event loop delivers the rest. *)
Definition twoMoreOperations : list Protocol.BridgeOperation :=
  [ mockOperation "fail2"; mockOperation "success3" ].

Definition busyEvents : list ParallelExecutor.Event :=
  ParallelExecutor.Delivers 1
  :: ParallelExecutor.Arrives [ mockOperation "late" ]
  :: repeat (ParallelExecutor.Delivers 5) 11.

(** [jest.fn().mockRejectedValueOnce(timeout).mockRejectedValueOnce(network
    error).mockResolvedValue(result)]. *)
Definition failsTwice : nat -> Settled unit Error :=
  fun k => match k with
           | O => Rejected (mkError "timeout")
           | S O => Rejected (mkError "network error")
           | _ => Fulfilled tt
           end.

(** A reader that understands one line, [pong], as the response to
    request 5. *)
Definition pongParser (line : string) : option MCPTransport.Message :=
  if String.eqb line "pong"
  then Some {| MCPTransport.msgId := Some (MCPTransport.NumberId 5);
               MCPTransport.msgResult := Some Json.JNull;
               MCPTransport.msgError := None;
               MCPTransport.msgMethod := None |}
  else None.

(** The decoding of chunks that hold seven-bit characters only. *)
Definition sevenBit (data : list ascii) : string := string_of_list_ascii data.

Definition busyReader : MCPTransport.Reader :=
  {| MCPTransport.client := busySerena; MCPTransport.buffer := "po" |}.

(** The small cache after the two sets of the invalidation unit test. *)
Definition twoServers : ResponseCache.Cache :=
  ResponseCache.run smallCache
    [ ResponseCache.OpSet 1000 "serena" "findSymbol"
        [("name", Json.JString "test")] (textResult "data");
      ResponseCache.OpSet 1001 "context7" "getLibraryDocs"
        [("lib", Json.JString "react")] (textResult "docs") ].


(** The metrics of three dispatches: two on [serena], one of them
    answered from the cache, and a failure on [context7]. *)
Definition threeMetrics : list BridgeServer.OperationMetric :=
  [ {| BridgeServer.metricServer := MCPClient.serena;
       BridgeServer.metricOperation := "findSymbol";
       BridgeServer.metricDurationMs := 12;
       BridgeServer.metricTokensEstimate := 19;
       BridgeServer.metricCached := false;
       BridgeServer.metricSuccess := true;
       BridgeServer.metricTimestamp := 1700000000012 |};
    {| BridgeServer.metricServer := MCPClient.context7;
       BridgeServer.metricOperation := "getLibraryDocs";
       BridgeServer.metricDurationMs := 30000;
       BridgeServer.metricTokensEstimate := 0;
       BridgeServer.metricCached := false;
       BridgeServer.metricSuccess := false;
       BridgeServer.metricTimestamp := 1700000030000 |};
    {| BridgeServer.metricServer := MCPClient.serena;
       BridgeServer.metricOperation := "findSymbol";
       BridgeServer.metricDurationMs := 0;
       BridgeServer.metricTokensEstimate := 19;
       BridgeServer.metricCached := true;
       BridgeServer.metricSuccess := true;
       BridgeServer.metricTimestamp := 1700000060000 |} ].

(** Two entries whose exact quotients differ and whose scores are the
    same double, 284376045.50016725; the one with the higher exact
    quotient comes first. *)
Definition closeScores : ResponseCache.Cache :=
  [ ("context7:getLibraryDocs:{}",
     {| ResponseCache.value := textResult "docs";
        ResponseCache.timestamp := 1700568752091; ResponseCache.hits := 5979 |});
    ("serena:findSymbol:{}",
     {| ResponseCache.value := textResult "data";
        ResponseCache.timestamp := 1700000000000; ResponseCache.hits := 5977 |}) ].

(** An application that registers nothing: no closure of its own is
    ever called. *)
Definition noApplication : MCPProtocolHandler.Application :=
  fun _ _ _ => ([], Fulfilled None).

End Fixtures.

(* ================================================================== *)
(** * Part II: properties                                             *)
(* ================================================================== *)

(** ** The retry wrapper *)

Section ErrorHandlerFacts.
Import JS ErrorHandler.
Context {T : Type}.
Variable cfg : RetryConfig.
Variable operation : nat -> Settled T Error.

(** On every path that reports failure the [attempts] field is the
    configured maximum. *)
Lemma attemptLoop_failure_attempts :
  forall budget attempt ncalls nsleeps lastError,
    success (returned (attemptLoop cfg operation budget attempt ncalls nsleeps lastError)) = false ->
    attempts (returned (attemptLoop cfg operation budget attempt ncalls nsleeps lastError))
    = maxAttempts cfg.
Proof.
  induction budget as [|budget IH]; intros attempt ncalls nsleeps lastError; simpl.
  - reflexivity.
  - destruct (attempt <=? maxAttempts cfg); [|reflexivity].
    destruct (operation ncalls) as [v|e]; simpl.
    + discriminate.
    + destruct (attempt <? maxAttempts cfg).
      * destruct (isRetriable e); [apply IH | reflexivity].
      * apply IH.
Qed.

(** While every invocation is rejected with a retriable error, the loop
    keeps going until [attempt] passes [maxAttempts]. *)
Lemma attemptLoop_all_retriable :
  (forall k, exists e, operation k = Rejected e /\ isRetriable e = true) ->
  forall budget attempt ncalls nsleeps lastError,
    1 <= attempt ->
    attempt + Z.of_nat budget = maxAttempts cfg + 1 ->
    let r := attemptLoop cfg operation budget attempt ncalls nsleeps lastError in
    calls r = (ncalls + budget)%nat /\
    success (returned r) = false /\
    result (returned r) = None /\
    attempts (returned r) = maxAttempts cfg /\
    (budget = O -> error (returned r) = lastError) /\
    (budget <> O ->
     exists e, operation (ncalls + budget - 1)%nat = Rejected e /\
               error (returned r) = Some e).
Proof.
  intros Hop.
  induction budget as [|budget IH]; intros attempt ncalls nsleeps lastError Hat Hsum; simpl.
  - rewrite Nat.add_0_r. repeat split; try reflexivity. intros H; congruence.
  - assert (Hle : (attempt <=? maxAttempts cfg) = true) by (apply Z.leb_le; lia).
    rewrite Hle.
    destruct (Hop ncalls) as [e [He Hr]]. rewrite He.
    assert (Hnext : attempt + 1 + Z.of_nat budget = maxAttempts cfg + 1) by lia.
    assert (Hgo : forall ns,
      let r := attemptLoop cfg operation budget (attempt + 1) (S ncalls) ns (Some e) in
      calls r = (ncalls + S budget)%nat /\
      success (returned r) = false /\
      result (returned r) = None /\
      attempts (returned r) = maxAttempts cfg /\
      (S budget = O -> error (returned r) = lastError) /\
      (S budget <> O ->
       exists e', operation (ncalls + S budget - 1)%nat = Rejected e' /\
                  error (returned r) = Some e')).
    { intros ns.
      destruct (IH (attempt + 1) (S ncalls) ns (Some e) ltac:(lia) Hnext)
        as (Hc & Hs & Hres & Hatt & Hnone & Herr).
      cbv zeta. repeat split; auto.
      - rewrite Hc. lia.
      - discriminate.
      - intros _. destruct budget as [|b].
        + exists e. split; [|now apply Hnone].
          replace (ncalls + 1 - 1)%nat with ncalls by lia. exact He.
        + destruct (Herr ltac:(discriminate)) as [e' [He' Hlast]].
          exists e'. split; [|exact Hlast].
          replace (ncalls + S (S b) - 1)%nat with (S ncalls + S b - 1)%nat by lia.
          exact He'. }
    destruct (attempt <? maxAttempts cfg).
    + rewrite Hr. apply Hgo.
    + apply Hgo.
Qed.

(** A first rejection that the classifier refuses ends the loop after
    one invocation when more than one attempt is configured. *)
Lemma attemptLoop_first_non_retriable :
  forall e,
    operation 0%nat = Rejected e ->
    isRetriable e = false ->
    1 < maxAttempts cfg ->
    executeWithRetry cfg operation = mkRun (failure cfg (Some e)) 1 0.
Proof.
  intros e He Hr Hmax. unfold executeWithRetry.
  destruct (Z.to_nat (maxAttempts cfg)) as [|b] eqn:Hb; [lia|].
  simpl. rewrite He, Hr.
  assert (H1 : (1 <=? maxAttempts cfg) = true) by (apply Z.leb_le; lia).
  assert (H2 : (1 <? maxAttempts cfg) = true) by (apply Z.ltb_lt; lia).
  rewrite H1, H2. reflexivity.
Qed.

End ErrorHandlerFacts.

(** C3.  When every invocation of the operation is rejected with an
    error that [isRetriable] accepts, [executeWithRetry] invokes the
    operation exactly [maxAttempts] times and returns [success = false]
    with no result and with the error of the last invocation made. *)
Theorem executeWithRetry_retry_bound :
  forall (T : Type) (cfg : ErrorHandler.RetryConfig)
         (operation : nat -> JS.Settled T JS.Error),
    0 <= ErrorHandler.maxAttempts cfg ->
    (forall k, exists e, operation k = JS.Rejected e /\
                         ErrorHandler.isRetriable e = true) ->
    Z.of_nat (ErrorHandler.calls (ErrorHandler.executeWithRetry cfg operation))
      = ErrorHandler.maxAttempts cfg /\
    ErrorHandler.success
      (ErrorHandler.returned (ErrorHandler.executeWithRetry cfg operation)) = false /\
    ErrorHandler.result
      (ErrorHandler.returned (ErrorHandler.executeWithRetry cfg operation)) = None /\
    ErrorHandler.error
      (ErrorHandler.returned (ErrorHandler.executeWithRetry cfg operation))
    = match ErrorHandler.calls (ErrorHandler.executeWithRetry cfg operation) with
      | O => None
      | S last =>
          match operation last with
          | JS.Rejected e => Some e
          | JS.Fulfilled _ => None
          end
      end.
Proof.
  intros T cfg operation Hmax Hop.
  unfold ErrorHandler.executeWithRetry.
  destruct (attemptLoop_all_retriable cfg operation Hop
              (Z.to_nat (ErrorHandler.maxAttempts cfg)) 1 0%nat 0%nat None
              ltac:(lia) ltac:(lia))
    as (Hc & Hs & Hres & _ & Hnone & Herr).
  rewrite Hc. simpl Nat.add in *.
  split; [lia|]. split; [exact Hs|]. split; [exact Hres|].
  destruct (Z.to_nat (ErrorHandler.maxAttempts cfg)) as [|last] eqn:Hn.
  - now apply Hnone.
  - destruct (Herr ltac:(discriminate)) as (e & He & Hlast).
    replace (S last - 1)%nat with last in He by lia.
    now rewrite He, Hlast.
Qed.

Lemma executeWithRetry_retry_bound_witness :
  0 <= ErrorHandler.maxAttempts Fixtures.retry3 /\
  Z.of_nat (ErrorHandler.calls
              (ErrorHandler.executeWithRetry Fixtures.retry3 Fixtures.alwaysTimeout)) = 3 /\
  ErrorHandler.success
    (ErrorHandler.returned
       (ErrorHandler.executeWithRetry Fixtures.retry3 Fixtures.alwaysTimeout)) = false.
Proof.
  assert (H1 : 0 <= ErrorHandler.maxAttempts Fixtures.retry3) by (simpl; lia).
  assert (H2 : forall k, exists e,
             Fixtures.alwaysTimeout k = JS.Rejected e /\
             ErrorHandler.isRetriable e = true).
  { intros k. exists (JS.mkError "timeout"). split; reflexivity. }
  destruct (executeWithRetry_retry_bound unit Fixtures.retry3
              Fixtures.alwaysTimeout H1 H2) as (Hc & Hs & _).
  split; [exact H1|]. split; [exact Hc | exact Hs].
Defined.

(** C10.  Whenever [executeWithRetry] returns [success = false] its
    [attempts] field is the configured [maxAttempts]; this is so even
    when the first rejection is non-retriable and the loop stops after
    a single invocation although more attempts were configured. *)
Theorem executeWithRetry_failure_reports_maxAttempts :
  forall (T : Type) (cfg : ErrorHandler.RetryConfig)
         (operation : nat -> JS.Settled T JS.Error),
    (ErrorHandler.success
       (ErrorHandler.returned (ErrorHandler.executeWithRetry cfg operation)) = false ->
     ErrorHandler.attempts
       (ErrorHandler.returned (ErrorHandler.executeWithRetry cfg operation))
     = ErrorHandler.maxAttempts cfg) /\
    (forall e,
       operation 0%nat = JS.Rejected e ->
       ErrorHandler.isRetriable e = false ->
       1 < ErrorHandler.maxAttempts cfg ->
       ErrorHandler.calls (ErrorHandler.executeWithRetry cfg operation) = 1%nat /\
       ErrorHandler.success
         (ErrorHandler.returned (ErrorHandler.executeWithRetry cfg operation)) = false /\
       ErrorHandler.attempts
         (ErrorHandler.returned (ErrorHandler.executeWithRetry cfg operation))
       = ErrorHandler.maxAttempts cfg).
Proof.
  intros T cfg operation. split.
  - apply attemptLoop_failure_attempts.
  - intros e He Hr Hmax.
    rewrite (attemptLoop_first_non_retriable cfg operation e He Hr Hmax).
    repeat split.
Qed.

Lemma executeWithRetry_failure_reports_maxAttempts_witness :
  ErrorHandler.calls
    (ErrorHandler.executeWithRetry Fixtures.retry3 Fixtures.alwaysInvalid) = 1%nat /\
  ErrorHandler.attempts
    (ErrorHandler.returned
       (ErrorHandler.executeWithRetry Fixtures.retry3 Fixtures.alwaysInvalid)) = 3.
Proof.
  destruct (executeWithRetry_failure_reports_maxAttempts unit Fixtures.retry3
              Fixtures.alwaysInvalid) as [Hfail Hstop].
  split.
  - apply (Hstop (JS.mkError "invalid request")); [reflexivity | reflexivity | simpl; lia].
  - apply Hfail. reflexivity.
Defined.

(** ** Substring search and numerals *)

Section StringFacts.
Import JS.

Lemma toLowerCase_append :
  forall a b, toLowerCase (a ++ b) = (toLowerCase a ++ toLowerCase b)%string.
Proof.
  induction a as [|c a IH]; intros b; simpl; [reflexivity | now rewrite IH].
Qed.

Lemma lowerAscii_numeral : forall c, numeralChar c = true -> lowerAscii c = c.
Proof.
  intros c H. unfold lowerAscii, numeralChar in *.
  destruct (Nat.leb 65 (nat_of_ascii c)) eqn:H65; [|reflexivity].
  apply Nat.leb_le in H65.
  apply orb_true_iff in H. destruct H as [H|H].
  - apply Nat.eqb_eq in H. lia.
  - apply andb_true_iff in H. destruct H as [_ H]. apply Nat.leb_le in H. lia.
Qed.

Lemma toLowerCase_numeral : forall s, numeral s = true -> toLowerCase s = s.
Proof.
  unfold numeral, chars.
  induction s as [|c s IH]; simpl; intros H; [reflexivity|].
  apply andb_true_iff in H. destruct H as [Hc Hs].
  now rewrite (lowerAscii_numeral c Hc), (IH Hs).
Qed.

Lemma string_of_uint_numeral :
  forall d, numeral (NilEmpty.string_of_uint d) = true.
Proof.
  unfold numeral, chars.
  induction d; simpl; auto.
Qed.

Lemma string_of_uint_nonempty_numeral :
  forall d, numeral (NilZero.string_of_uint d) = true.
Proof.
  intros d. unfold NilZero.string_of_uint.
  destruct d; try reflexivity; exact (string_of_uint_numeral _).
Qed.

Lemma showZ_numeral : forall z, numeral (showZ z) = true.
Proof.
  intros z. unfold showZ, NilZero.string_of_int.
  destruct (Z.to_int z) as [d|d].
  - apply string_of_uint_nonempty_numeral.
  - change (numeral (String "-" (NilZero.string_of_uint d)))
      with (andb (numeralChar "-") (numeral (NilZero.string_of_uint d))).
    now rewrite string_of_uint_nonempty_numeral.
Qed.

(** A pattern without numeral characters cannot start inside, or run
    into, a numeral suffix. *)
Lemma startsWith_numeral_suffix :
  forall p a b,
    numeralFree p = true -> numeral b = true ->
    startsWith (a ++ b) p = startsWith a p.
Proof.
  unfold numeralFree, numeral, chars.
  intros p a. revert p.
  induction a as [|y a IH]; intros p b Hp Hb.
  - destruct p as [|x p]; [destruct b; reflexivity|].
    destruct b as [|y b]; [reflexivity|].
    simpl in *. apply andb_true_iff in Hp. destruct Hp as [Hx _].
    apply andb_true_iff in Hb. destruct Hb as [Hy _].
    destruct (Ascii.eqb_spec x y) as [->|Hne]; [|reflexivity].
    rewrite Hy in Hx. discriminate.
  - destruct p as [|x p]; [reflexivity|].
    simpl in *. apply andb_true_iff in Hp. destruct Hp as [_ Hp].
    now rewrite (IH p b Hp Hb).
Qed.

Lemma includes_numeral :
  forall p b,
    numeralFree p = true -> numeral b = true ->
    includes b p = startsWith EmptyString p.
Proof.
  intros p b Hp. induction b as [|y b IH]; intros Hb; [reflexivity|].
  cbn [includes].
  pose proof (startsWith_numeral_suffix p EmptyString (String y b) Hp Hb) as Hs.
  cbn [String.append] in Hs. rewrite Hs.
  rewrite IH.
  - apply orb_diag.
  - unfold numeral, chars in *. simpl in Hb.
    apply andb_true_iff in Hb. tauto.
Qed.

Lemma includes_numeral_suffix :
  forall p a b,
    numeralFree p = true -> numeral b = true ->
    includes (a ++ b) p = includes a p.
Proof.
  intros p a b Hp Hb. induction a as [|y a IH].
  - simpl. now apply includes_numeral.
  - change (String y a ++ b)%string with (String y (a ++ b)).
    cbn [includes]. rewrite IH.
    change (String y (a ++ b)) with (String y a ++ b)%string.
    now rewrite (startsWith_numeral_suffix p (String y a) b Hp Hb).
Qed.

Lemma existsb_includes_numeral_suffix :
  forall ps a b,
    forallb numeralFree ps = true -> numeral b = true ->
    existsb (includes (a ++ b)) ps = existsb (includes a) ps.
Proof.
  induction ps as [|p ps IH]; intros a b Hps Hb; simpl; [reflexivity|].
  simpl in Hps. apply andb_true_iff in Hps. destruct Hps as [Hp Hps].
  now rewrite (includes_numeral_suffix p a b Hp Hb), (IH a b Hps Hb).
Qed.

End StringFacts.

(** ** The upstream client *)

Section MCPClientFacts.
Import JS MCPClient.

Lemma tableDelete_absent :
  forall id table, ~ In id table -> tableDelete id table = table.
Proof.
  intros id table. unfold tableDelete.
  induction table as [|k table IH]; intros Hin; simpl; [reflexivity|].
  destruct (Z.eqb_spec k id) as [->|Hne]; simpl.
  - exfalso. apply Hin. now left.
  - f_equal. apply IH. intros H. apply Hin. now right.
Qed.

Lemma tableDelete_In :
  forall id k table, In k (tableDelete id table) <-> In k table /\ k <> id.
Proof.
  intros id k table. unfold tableDelete. rewrite filter_In.
  rewrite negb_true_iff, Z.eqb_neq. tauto.
Qed.

(** The loop rejects the entries in order with the one error, and what
    is left of the table holds none of them. *)
Lemma rejectLoop_spec :
  forall error entries table log,
    snd (rejectLoop error entries table log)
      = log ++ map (fun id => (id, error)) entries /\
    (forall k, In k (fst (rejectLoop error entries table log)) <->
               In k table /\ ~ In k entries).
Proof.
  intros error. induction entries as [|id rest IH]; intros table log; simpl.
  - rewrite app_nil_r. split; [reflexivity | tauto].
  - destruct (IH (tableDelete id table) (log ++ [(id, error)])) as [Hlog Htab].
    split.
    + rewrite Hlog, <- app_assoc. reflexivity.
    + intros k. rewrite Htab, tableDelete_In. split.
      * intros [[H1 H2] H3]. split; [exact H1|]. intros [H|H]; [congruence | tauto].
      * intros [H1 H2]. repeat split; auto.
Qed.

Lemma rejectLoop_clears :
  forall error table,
    fst (rejectLoop error table table []) = [].
Proof.
  intros error table.
  destruct (rejectLoop_spec error table table []) as [_ H].
  destruct (fst (rejectLoop error table table [])) as [|k l]; [reflexivity|].
  exfalso. destruct (H k) as [H1 _]. destruct H1; [now left | contradiction].
Qed.

(** The message of an exit error is outside the non-retriable list,
    whatever the upstream and the exit code. *)
Lemma exitError_retriable :
  forall n code, ErrorHandler.isRetriable (exitError n code) = true.
Proof.
  intros n code. unfold ErrorHandler.isRetriable.
  assert (Hnon : existsb (includes (toLowerCase (message (exitError n code))))
                   ErrorHandler.nonRetriablePatterns = false).
  { unfold exitError. cbn [message].
    destruct code as [z|]; cbn [showCode].
    - replace (serverNameString n ++ " process exited with code " ++ showZ z)%string
        with ((serverNameString n ++ " process exited with code ") ++ showZ z)%string
        by (destruct n; reflexivity).
      rewrite toLowerCase_append.
      rewrite (toLowerCase_numeral _ (showZ_numeral z)).
      rewrite existsb_includes_numeral_suffix;
        [ destruct n; reflexivity | reflexivity | apply showZ_numeral ].
    - destruct n; reflexivity. }
  rewrite Hnon.
  destruct (existsb _ ErrorHandler.retriablePatterns); reflexivity.
Qed.

End MCPClientFacts.

(** C4, as the code has it.  When the child process exits,
    [handleProcessExit] rejects every pending request, in table order,
    with the one error whose message is
    [<name> process exited with code <code>], leaves the pending table
    empty and marks the client uninitialised.  The classifier
    [isRetriable] returns [true] on that error (its message matches no
    non-retriable pattern), so a retry wrapper whose every attempt meets
    it spends all of its [maxAttempts] attempts. *)
Theorem handleProcessExit_rejects_all_with_retriable_error :
  forall (c : MCPClient.Client) (code : option Z),
    snd (MCPClient.handleProcessExit code c)
      = map (fun id => (id, MCPClient.exitError (MCPClient.name c) code))
            (MCPClient.pendingRequests c) /\
    MCPClient.pendingRequests (fst (MCPClient.handleProcessExit code c)) = [] /\
    MCPClient.initialized (fst (MCPClient.handleProcessExit code c)) = false /\
    JS.message (MCPClient.exitError (MCPClient.name c) code)
      = (MCPClient.serverNameString (MCPClient.name c)
         ++ " process exited with code " ++ MCPClient.showCode code)%string /\
    ErrorHandler.isRetriable (MCPClient.exitError (MCPClient.name c) code) = true /\
    (forall (T : Type) (cfg : ErrorHandler.RetryConfig)
            (operation : nat -> JS.Settled T JS.Error),
       1 <= ErrorHandler.maxAttempts cfg ->
       (forall k, operation k
                  = JS.Rejected (MCPClient.exitError (MCPClient.name c) code)) ->
       Z.of_nat (ErrorHandler.calls (ErrorHandler.executeWithRetry cfg operation))
       = ErrorHandler.maxAttempts cfg).
Proof.
  intros c code. unfold MCPClient.handleProcessExit.
  pose proof (rejectLoop_spec (MCPClient.exitError (MCPClient.name c) code)
                (MCPClient.pendingRequests c) (MCPClient.pendingRequests c) [])
    as [Hlog _].
  pose proof (rejectLoop_clears (MCPClient.exitError (MCPClient.name c) code)
                (MCPClient.pendingRequests c)) as Hclear.
  destruct (MCPClient.rejectLoop _ _ _ _) as [table log]. simpl in *.
  repeat split; auto.
  - apply exitError_retriable.
  - intros T cfg operation Hmax Hop.
    unfold ErrorHandler.executeWithRetry.
    assert (Hall : forall k, exists e,
               operation k = JS.Rejected e /\ ErrorHandler.isRetriable e = true).
    { intros k. eexists. split; [apply Hop | apply exitError_retriable]. }
    destruct (attemptLoop_all_retriable cfg operation Hall
                (Z.to_nat (ErrorHandler.maxAttempts cfg)) 1 0%nat 0%nat None
                ltac:(lia) ltac:(lia)) as (Hc & _).
    rewrite Hc. simpl. lia.
Qed.

Lemma handleProcessExit_rejects_all_with_retriable_error_witness :
  1 <= ErrorHandler.maxAttempts Fixtures.retry3 /\
  Z.of_nat (ErrorHandler.calls
              (ErrorHandler.executeWithRetry Fixtures.retry3 Fixtures.alwaysExited)) = 3.
Proof.
  assert (H1 : 1 <= ErrorHandler.maxAttempts Fixtures.retry3) by (simpl; lia).
  split; [exact H1|].
  destruct (handleProcessExit_rejects_all_with_retriable_error
              Fixtures.busySerena (Some 1)) as (_ & _ & _ & _ & _ & Hretry).
  apply (Hretry unit Fixtures.retry3 Fixtures.alwaysExited H1).
  intros k. reflexivity.
Defined.

(** C4 as stated fails: the error handed to the pending requests of an
    exited [serena] process is classified as retriable, and a retry
    wrapper with three attempts that keeps meeting it makes all three
    invocations. *)
Lemma process_exit_error_is_classified_retriable :
  snd (MCPClient.handleProcessExit (Some 1) Fixtures.busySerena)
    = [ (5, JS.mkError "serena process exited with code 1");
        (6, JS.mkError "serena process exited with code 1");
        (7, JS.mkError "serena process exited with code 1") ] /\
  ErrorHandler.isRetriable (JS.mkError "serena process exited with code 1") = true /\
  ErrorHandler.isRetriable (JS.mkError "serena process exited with code 1") <> false /\
  ErrorHandler.calls
    (ErrorHandler.executeWithRetry Fixtures.retry3 Fixtures.alwaysExited) = 3%nat.
Proof.
  repeat split; try reflexivity. vm_compute. discriminate.
Qed.

(** ** The response cache *)

(** C5, at an input where the code departs from it.  Two parameter
    objects that differ in a nested property get the same cache key,
    because the sorted top-level keys act as an allow-list at every
    depth and the nested property is dropped; that key is not the
    canonical JSON of the parameters.  Two orders of the same flat
    object do share their key. *)
Theorem generateKey_drops_nested_properties :
  ResponseCache.generateKey "serena" "find_symbol" Fixtures.abOrder
    = ResponseCache.generateKey "serena" "find_symbol" Fixtures.baOrder /\
  Fixtures.depthOne <> Fixtures.depthTwo /\
  Json.canonicalJSON (Json.JObject Fixtures.depthOne)
    <> Json.canonicalJSON (Json.JObject Fixtures.depthTwo) /\
  ResponseCache.generateKey "serena" "find_symbol" Fixtures.depthOne
    = ResponseCache.generateKey "serena" "find_symbol" Fixtures.depthTwo /\
  ResponseCache.generateKey "serena" "find_symbol" Fixtures.depthOne
    = ("serena:find_symbol:{" ++ Json.quote "name_path" ++ ":" ++ Json.quote "User"
       ++ "," ++ Json.quote "options" ++ ":{}}")%string /\
  ResponseCache.generateKey "serena" "find_symbol" Fixtures.depthOne
    <> ("serena" ++ ":" ++ "find_symbol" ++ ":"
        ++ Json.canonicalJSON (Json.JObject Fixtures.depthOne))%string.
Proof.
  repeat split; try reflexivity.
  - unfold Fixtures.depthOne, Fixtures.depthTwo. congruence.
  - apply String.eqb_neq. vm_compute. reflexivity.
  - apply String.eqb_neq. vm_compute. reflexivity.
Qed.

Section CacheFacts.
Import JS Json Protocol ResponseCache.
Variable cfg : CacheConfig.

Lemma generateKey_nonempty :
  forall server tool args, generateKey server tool args <> "".
Proof.
  intros server tool args. unfold generateKey.
  destruct server; simpl; discriminate.
Qed.

Lemma mapSet_length_le :
  forall k e m, (List.length (mapSet k e m) <= S (List.length m))%nat.
Proof.
  intros k e m. induction m as [|[k' e'] m IH]; simpl; [lia|].
  destruct (String.eqb k' k); simpl; lia.
Qed.

Lemma mapSet_length_fresh :
  forall k e m, ~ In k (map fst m) ->
    List.length (mapSet k e m) = S (List.length m).
Proof.
  intros k e m. induction m as [|[k' e'] m IH]; simpl; intros Hin; [reflexivity|].
  destruct (String.eqb_spec k' k) as [->|Hne]; [tauto|].
  simpl. f_equal. apply IH. tauto.
Qed.

Lemma mapSet_fresh_keys :
  forall k e m, ~ In k (map fst m) ->
    map fst (mapSet k e m) = map fst m ++ [k].
Proof.
  intros k e m. induction m as [|[k' e'] m IH]; simpl; intros Hin; [reflexivity|].
  destruct (String.eqb_spec k' k) as [->|Hne]; [tauto|].
  simpl. f_equal. apply IH. tauto.
Qed.

Lemma mapSet_keyed :
  forall k e m, k <> "" -> keyed m -> keyed (mapSet k e m).
Proof.
  intros k e m Hk. unfold keyed.
  induction m as [|[k' e'] m IH]; simpl; intros Hm.
  - constructor; [exact Hk | constructor].
  - inversion Hm as [|x l Hx Hl]; subst.
    destruct (String.eqb k' k); constructor; auto.
Qed.

Lemma filter_keyed :
  forall f m, keyed m -> keyed (filter f m).
Proof.
  intros f m. unfold keyed. induction m as [|kv m IH]; simpl; intros Hm; [constructor|].
  inversion Hm; subst. destruct (f kv); [constructor|]; auto.
Qed.

Lemma filter_length_bound :
  forall (f : string * CacheEntry -> bool) m,
    (List.length (filter f m) <= List.length m)%nat.
Proof.
  intros f m. induction m as [|kv m IH]; simpl; [lia|].
  destruct (f kv); simpl; lia.
Qed.

Lemma mapDelete_length_lt :
  forall k m, In k (map fst m) ->
    (List.length (mapDelete k m) < List.length m)%nat.
Proof.
  intros k m. unfold mapDelete.
  induction m as [|[k' e'] m IH]; simpl; intros Hin; [contradiction|].
  destruct (String.eqb_spec k' k) as [->|Hne]; simpl.
  - pose proof (filter_length_bound
                  (fun kv => negb (String.eqb (fst kv) k)) m). lia.
  - destruct Hin as [Heq|Hin]; [congruence|]. specialize (IH Hin). lia.
Qed.

Lemma mapDelete_absent :
  forall k m, ~ In k (map fst m) -> mapDelete k m = m.
Proof.
  intros k m. unfold mapDelete.
  induction m as [|[k' e'] m IH]; simpl; intros Hin; [reflexivity|].
  destruct (String.eqb_spec k' k) as [->|Hne]; simpl; [tauto|].
  f_equal. apply IH. tauto.
Qed.

Lemma mapDelete_length_NoDup :
  forall k m, NoDup (map fst m) -> In k (map fst m) ->
    S (List.length (mapDelete k m)) = List.length m.
Proof.
  intros k m. induction m as [|[k' e'] m IH]; simpl; intros Hnd Hin; [contradiction|].
  inversion Hnd as [|x l Hx Hl]; subst.
  unfold mapDelete. simpl.
  destruct (String.eqb_spec k' k) as [->|Hne]; simpl.
  - f_equal. fold (mapDelete k m). now rewrite mapDelete_absent.
  - f_equal. destruct Hin as [Heq|Hin]; [congruence|]. now apply IH.
Qed.

Lemma mapDelete_keys :
  forall k k' m, In k' (map fst (mapDelete k m)) -> In k' (map fst m) /\ k' <> k.
Proof.
  intros k k' m. unfold mapDelete. rewrite !in_map_iff.
  intros [kv [Heq Hin]]. apply filter_In in Hin. destruct Hin as [Hin Hne].
  split; [exists kv; auto|].
  apply negb_true_iff, String.eqb_neq in Hne. congruence.
Qed.

(** The scan keeps a key of the cache once it has seen one. *)
Lemma scan_result :
  forall entries oldestKey oldestScore k,
    scan entries oldestKey oldestScore = Some k ->
    oldestKey = Some k \/ In k (map fst entries).
Proof.
  induction entries as [|[k' e'] entries IH]; simpl; intros oldestKey oldestScore k H.
  - now left.
  - destruct (below (score e') oldestScore).
    + destruct (IH _ _ _ H) as [Heq|Hin]; [inversion Heq; auto | auto].
    + destruct (IH _ _ _ H) as [Heq|Hin]; auto.
Qed.

Lemma scan_keeps :
  forall entries k0 oldestScore, scan entries (Some k0) oldestScore <> None.
Proof.
  induction entries as [|[k' e'] entries IH]; simpl; intros k0 oldestScore.
  - discriminate.
  - destruct (below (score e') oldestScore); apply IH.
Qed.

Lemma scan_finds :
  forall m, m <> [] -> exists k, scan m None None = Some k /\ In k (map fst m).
Proof.
  intros [|[k0 e0] m] Hne; [congruence|]. simpl.
  destruct (scan m (Some k0) (Some (score e0))) as [k|] eqn:Hscan.
  - exists k. split; [reflexivity|].
    destruct (scan_result _ _ _ _ Hscan) as [Heq|Hin]; [inversion Heq; auto | auto].
  - exfalso. exact (scan_keeps _ _ _ Hscan).
Qed.

Lemma evictOldest_shrinks :
  forall m, m <> [] -> keyed m ->
    (List.length (evictOldest m) < List.length m)%nat.
Proof.
  intros m Hne Hkeyed. unfold evictOldest.
  destruct (scan_finds m Hne) as [k [Hscan Hin]]. rewrite Hscan.
  assert (Hk : k <> "").
  { apply in_map_iff in Hin. destruct Hin as [kv [Heq Hkv]].
    unfold keyed in Hkeyed. rewrite Forall_forall in Hkeyed.
    rewrite <- Heq. now apply Hkeyed. }
  apply String.eqb_neq in Hk. rewrite Hk.
  now apply mapDelete_length_lt.
Qed.

Lemma evictOldest_exact :
  forall m, m <> [] -> keyed m -> NoDup (map fst m) ->
    S (List.length (evictOldest m)) = List.length m /\
    (forall k, In k (map fst (evictOldest m)) -> In k (map fst m)).
Proof.
  intros m Hne Hkeyed Hnd. unfold evictOldest.
  destruct (scan_finds m Hne) as [k [Hscan Hin]]. rewrite Hscan.
  assert (Hk : k <> "").
  { apply in_map_iff in Hin. destruct Hin as [kv [Heq Hkv]].
    unfold keyed in Hkeyed. rewrite Forall_forall in Hkeyed.
    rewrite <- Heq. now apply Hkeyed. }
  apply String.eqb_neq in Hk. rewrite Hk. split.
  - now apply mapDelete_length_NoDup.
  - intros k' Hk'. now apply mapDelete_keys in Hk'.
Qed.

Lemma evictOldest_keyed : forall m, keyed m -> keyed (evictOldest m).
Proof.
  intros m Hm. unfold evictOldest.
  destruct (scan m None None) as [k|]; [|exact Hm].
  destruct (String.eqb k ""); [exact Hm|]. now apply filter_keyed.
Qed.

Lemma apply_bounded :
  1 <= maxSize cfg ->
  forall m op, bounded cfg m -> bounded cfg (apply cfg m op).
Proof.
  intros Hmax m op [Hlen Hkeyed]. unfold bounded.
  destruct op as [now server tool args | now server tool args v | pattern | now];
    cbn [apply].
  - (* get *)
    unfold get. destruct (negb (enabled cfg)); [now split|].
    destruct (assoc _ m) as [entry|] eqn:Hfind; [|now split].
    destruct (_ <? _); cbn [fst].
    + split; [|now apply filter_keyed].
      pose proof (filter_length_bound
        (fun kv => negb (String.eqb (fst kv) (generateKey server tool args))) m).
      unfold mapDelete. lia.
    + split; [|apply mapSet_keyed; [apply generateKey_nonempty | exact Hkeyed]].
      assert (Hsame : forall k e (c : Cache) x, assoc k c = Some x ->
                List.length (mapSet k e c) = List.length c).
      { intros k e c. induction c as [|[k' e'] c IH]; simpl; intros x Hx;
          [discriminate|].
        destruct (String.eqb k' k); simpl; [reflexivity|].
        f_equal. now apply (IH x). }
      rewrite (Hsame _ _ _ _ Hfind). exact Hlen.
  - (* set *)
    unfold set. destruct (negb (enabled cfg)); [now split|].
    split; [|apply mapSet_keyed; [apply generateKey_nonempty|];
             destruct (_ <=? _); [now apply evictOldest_keyed | exact Hkeyed]].
    pose proof (mapSet_length_le (generateKey server tool args)
                  {| value := v; timestamp := now; hits := 0 |}) as Hset.
    destruct (Z.leb_spec (maxSize cfg) (Z.of_nat (List.length m))) as [Hfull|Hroom].
    + assert (Hne : m <> []) by (intros ->; simpl in Hfull; lia).
      pose proof (evictOldest_shrinks m Hne Hkeyed).
      specialize (Hset (evictOldest m)). lia.
    + specialize (Hset m). lia.
  - (* invalidate *)
    unfold invalidate. destruct pattern as [p|]; cbn [fst].
    + split; [|now apply filter_keyed].
      pose proof (filter_length_bound (fun kv => negb (keyMatches p (fst kv))) m).
      lia.
    + split; [simpl; lia | constructor].
  - (* sweep *)
    unfold sweep. split; [|now apply filter_keyed].
    pose proof (filter_length_bound
      (fun kv => negb (ttlSeconds cfg * 1000 <? now - timestamp (snd kv))) m).
    lia.
Qed.

Lemma fold_apply_bounded :
  1 <= maxSize cfg ->
  forall ops m, bounded cfg m -> bounded cfg (fold_left (apply cfg) ops m).
Proof.
  intros Hmax. induction ops as [|op ops IH]; intros m Hm; simpl; [exact Hm|].
  apply IH. now apply apply_bounded.
Qed.

(** A set under a key the cache does not hold: one entry is evicted
    first if the cache is full. *)
Lemma set_fresh_size :
  enabled cfg = true ->
  forall now server tool args v m,
    keyed m -> NoDup (map fst m) ->
    ~ In (generateKey server tool args) (map fst m) ->
    let m' := set cfg now server tool args v m in
    map fst m' = map fst
                   (if maxSize cfg <=? Z.of_nat (List.length m)
                    then evictOldest m else m)
                 ++ [generateKey server tool args].
Proof.
  intros Hen now server tool args v m Hkeyed Hnd Hfresh. cbv zeta.
  unfold set. rewrite Hen. cbn [negb]. cbv zeta.
  assert (Hfresh' : ~ In (generateKey server tool args)
                      (map fst (if maxSize cfg <=? Z.of_nat (List.length m)
                                then evictOldest m else m))).
  { destruct (_ <=? _); [|exact Hfresh].
    intros Hin. apply Hfresh. unfold evictOldest in Hin.
    destruct (scan m None None) as [k|]; [|exact Hin].
    destruct (String.eqb k ""); [exact Hin|].
    now apply mapDelete_keys in Hin. }
  now apply mapSet_fresh_keys.
Qed.

Lemma set_keyed :
  forall now server tool args v m,
    keyed m -> keyed (set cfg now server tool args v m).
Proof.
  intros now server tool args v m Hm. unfold set.
  destruct (negb (enabled cfg)); [exact Hm|].
  apply mapSet_keyed; [apply generateKey_nonempty|].
  destruct (_ <=? _); [now apply evictOldest_keyed | exact Hm].
Qed.

Lemma set_fresh_room :
  enabled cfg = true ->
  forall now server tool args v m,
    keyed m -> NoDup (map fst m) ->
    ~ In (generateKey server tool args) (map fst m) ->
    Z.of_nat (List.length m) < maxSize cfg ->
    map fst (set cfg now server tool args v m)
    = map fst m ++ [generateKey server tool args].
Proof.
  intros Hen now server tool args v m Hkeyed Hnd Hfresh Hroom.
  rewrite (set_fresh_size Hen now server tool args v m Hkeyed Hnd Hfresh).
  destruct (Z.leb_spec (maxSize cfg) (Z.of_nat (List.length m))); [lia | reflexivity].
Qed.

Lemma set_fresh_full :
  enabled cfg = true ->
  forall now server tool args v m,
    keyed m -> NoDup (map fst m) ->
    ~ In (generateKey server tool args) (map fst m) ->
    m <> [] ->
    maxSize cfg <= Z.of_nat (List.length m) ->
    List.length (set cfg now server tool args v m) = List.length m.
Proof.
  intros Hen now server tool args v m Hkeyed Hnd Hfresh Hne Hfull.
  rewrite <- (length_map fst (set cfg now server tool args v m)).
  rewrite (set_fresh_size Hen now server tool args v m Hkeyed Hnd Hfresh).
  destruct (Z.leb_spec (maxSize cfg) (Z.of_nat (List.length m))); [|lia].
  rewrite length_app, length_map. simpl.
  destruct (evictOldest_exact m Hne Hkeyed Hnd) as [Hlen _]. lia.
Qed.

End CacheFacts.

(** C9, as the code has it.  For a cache configured with [maxSize] of
    at least one, after every sequence of get, set, invalidate and
    sweep operations on a new cache the number of entries is at most
    [maxSize]; and an enabled cache with [maxSize = 3] holds exactly
    three entries after four sets under pairwise distinct keys. *)
Theorem cache_size_never_exceeds_maxSize :
  forall cfg : ResponseCache.CacheConfig,
    1 <= ResponseCache.maxSize cfg ->
    (forall ops : list (ResponseCache.Op),
       ResponseCache.size (ResponseCache.run cfg ops) <= ResponseCache.maxSize cfg) /\
    (ResponseCache.enabled cfg = true ->
     ResponseCache.maxSize cfg = 3 ->
     forall t1 s1 l1 a1 v1 t2 s2 l2 a2 v2 t3 s3 l3 a3 v3 t4 s4 l4 a4 v4,
       NoDup [ ResponseCache.generateKey s1 l1 a1;
               ResponseCache.generateKey s2 l2 a2;
               ResponseCache.generateKey s3 l3 a3;
               ResponseCache.generateKey s4 l4 a4 ] ->
       ResponseCache.size
         (ResponseCache.run cfg
            [ ResponseCache.OpSet t1 s1 l1 a1 v1;
              ResponseCache.OpSet t2 s2 l2 a2 v2;
              ResponseCache.OpSet t3 s3 l3 a3 v3;
              ResponseCache.OpSet t4 s4 l4 a4 v4 ]) = 3).
Proof.
  intros cfg Hmax. split.
  - intros ops. unfold ResponseCache.size, ResponseCache.run.
    apply (fold_apply_bounded cfg Hmax ops []).
    split; [simpl; lia | constructor].
  - intros Hen Hthree t1 s1 l1 a1 v1 t2 s2 l2 a2 v2 t3 s3 l3 a3 v3 t4 s4 l4 a4 v4 Hnd.
    unfold ResponseCache.size, ResponseCache.run.
    cbn [fold_left ResponseCache.apply].
    inversion Hnd as [|k1 r1 Hk1 Hnd1]; subst.
    inversion Hnd1 as [|k2 r2 Hk2 Hnd2]; subst.
    inversion Hnd2 as [|k3 r3 Hk3 Hnd3]; subst.
    inversion Hnd3 as [|k4 r4 Hk4 Hnd4]; subst.
    simpl in Hk1, Hk2, Hk3.
    set (m1 := ResponseCache.set cfg t1 s1 l1 a1 v1 []).
    assert (K1 : map fst m1 = [ResponseCache.generateKey s1 l1 a1]).
    { apply (set_fresh_room cfg Hen t1 s1 l1 a1 v1 []);
        [constructor | constructor | simpl; tauto | simpl; lia]. }
    assert (Y1 : ResponseCache.keyed m1) by (apply set_keyed; constructor).
    set (m2 := ResponseCache.set cfg t2 s2 l2 a2 v2 m1).
    assert (K2 : map fst m2 = [ResponseCache.generateKey s1 l1 a1;
                               ResponseCache.generateKey s2 l2 a2]).
    { unfold m2. rewrite (set_fresh_room cfg Hen t2 s2 l2 a2 v2 m1 Y1).
      - now rewrite K1.
      - rewrite K1. repeat constructor. simpl. tauto.
      - rewrite K1. simpl. intuition congruence.
      - rewrite <- (length_map fst m1), K1. simpl. lia. }
    assert (Y2 : ResponseCache.keyed m2) by (now apply set_keyed).
    set (m3 := ResponseCache.set cfg t3 s3 l3 a3 v3 m2).
    assert (K3 : map fst m3 = [ResponseCache.generateKey s1 l1 a1;
                               ResponseCache.generateKey s2 l2 a2;
                               ResponseCache.generateKey s3 l3 a3]).
    { unfold m3. rewrite (set_fresh_room cfg Hen t3 s3 l3 a3 v3 m2 Y2).
      - now rewrite K2.
      - rewrite K2. repeat constructor; simpl; intuition congruence.
      - rewrite K2. simpl. intuition congruence.
      - rewrite <- (length_map fst m2), K2. simpl. lia. }
    assert (Y3 : ResponseCache.keyed m3) by (now apply set_keyed).
    assert (L3 : List.length m3 = 3%nat)
      by (now rewrite <- (length_map fst m3), K3).
    rewrite (set_fresh_full cfg Hen t4 s4 l4 a4 v4 m3 Y3).
    + rewrite L3. reflexivity.
    + rewrite K3. repeat constructor; simpl; intuition congruence.
    + rewrite K3. simpl. intuition congruence.
    + intros Hm. rewrite Hm in L3. discriminate.
    + rewrite L3, Hthree. simpl. lia.
Qed.

Lemma cache_size_never_exceeds_maxSize_witness :
  1 <= ResponseCache.maxSize Fixtures.smallCache /\
  ResponseCache.size (ResponseCache.run Fixtures.smallCache Fixtures.fourSets)
    <= ResponseCache.maxSize Fixtures.smallCache /\
  ResponseCache.size (ResponseCache.run Fixtures.smallCache Fixtures.fourSets) = 3.
Proof.
  assert (H1 : 1 <= ResponseCache.maxSize Fixtures.smallCache) by (simpl; lia).
  destruct (cache_size_never_exceeds_maxSize Fixtures.smallCache H1)
    as [Hbound Hfour].
  split; [exact H1|]. split; [apply Hbound|].
  apply (Hfour eq_refl eq_refl).
  vm_compute.
  repeat (constructor; [simpl; intuition discriminate|]). constructor.
Defined.

(** C9 as stated fails for a cache configured with [maxSize = 0]: the
    eviction before a set finds nothing to remove, and the set still
    inserts, leaving one entry. *)
Lemma zero_sized_cache_holds_an_entry :
  ResponseCache.size
    (ResponseCache.run Fixtures.zeroCache
       [ ResponseCache.OpSet 1000 "serena" "tool1" [] (Fixtures.textResult "data1") ])
    = 1 /\
  ~ (ResponseCache.size
       (ResponseCache.run Fixtures.zeroCache
          [ ResponseCache.OpSet 1000 "serena" "tool1" []
              (Fixtures.textResult "data1") ])
     <= ResponseCache.maxSize Fixtures.zeroCache).
Proof.
  split; [reflexivity|]. vm_compute. intros H. apply H. reflexivity.
Qed.

(** ** The dispatcher *)

Section BridgeServerFacts.
Import JS Json Protocol Registry BridgeServer.

Lemma recordOperation_metrics :
  forall m s,
    metrics (recordOperation m s)
    = if metricsEnabled s then metrics s ++ [m] else metrics s.
Proof.
  intros m s. unfold recordOperation. destruct (metricsEnabled s); reflexivity.
Qed.

Lemma recordOperation_cache :
  forall m s, cache (recordOperation m s) = cache s.
Proof.
  intros m s. unfold recordOperation. destruct (metricsEnabled s); reflexivity.
Qed.

(** A valid operation has a mapping: the [MAPPING_ERROR] branch cannot
    be taken. *)
Lemma valid_operation_has_mapping :
  forall category operation,
    isValidOperation category operation = true ->
    getOperationMapping category operation <> None.
Proof.
  intros category operation. unfold isValidOperation.
  destruct (getOperationMapping category operation); discriminate.
Qed.

(** The branches of [executeOperation], one by one. *)
Ltac dispatch_branches H :=
  unfold executeOperation in H;
  repeat match type of H with
         | context [if negb ?b then _ else _] => destruct b eqn:?; cbn [negb] in H
         | context [match getOperationMapping ?c ?o with _ => _ end] =>
             destruct (getOperationMapping c o) as [[?|]|] eqn:?
         | context [if cacheable ?m then _ else _] => destruct (cacheable m) eqn:?
         | context [ResponseCache.get ?a ?b ?c ?d ?e ?f] =>
             destruct (ResponseCache.get a b c d e f) as [? [?|]] eqn:?
         | context [ErrorHandler.success ?x] =>
             destruct (ErrorHandler.success x) eqn:?
         | context [ErrorHandler.result ?x] =>
             destruct (ErrorHandler.result x) eqn:?
         end;
  inversion H; subst; clear H.

Lemma executeOperation_shape :
  forall env category operation params s s' r,
    executeOperation env category operation params s = (s', Returns r) ->
    (exists e,
       responseData r = None /\ error r = Some e /\ success r = false /\
       ((code e = "INVALID_OPERATION" \/ code e = "SERVER_UNAVAILABLE") /\
        metadata r = None /\ metrics s' = metrics s
        \/
        code e = "EXECUTION_ERROR" /\
        (exists m, metadata r = Some m /\ tokensEstimate m = None /\
                   cached m = false /\ operationName m = operation) /\
        (exists record,
           metrics s' = (if metricsEnabled s then metrics s ++ [record]
                         else metrics s) /\
           metricOperation record = operation /\
           metricSuccess record = false /\ metricCached record = false /\
           metricTokensEstimate record = 0)))
    \/
    (exists upstream m n record,
       responseData r = Some (content upstream) /\ error r = None /\
       success r = ResponseFormatter.notError upstream /\
       metadata r = Some m /\ tokensEstimate m = Some n /\
       n = ResponseFormatter.estimateTokens upstream /\
       operationName m = operation /\
       metrics s' = (if metricsEnabled s then metrics s ++ [record]
                     else metrics s) /\
       metricOperation record = operation /\
       metricSuccess record = true /\ metricCached record = cached m /\
       metricTokensEstimate record = n).
Proof.
  intros env category operation params s s' r H.
  dispatch_branches H;
    try (exfalso; eapply valid_operation_has_mapping; eassumption);
    try (left; eexists; repeat split; try reflexivity;
         solve [ left; repeat split; auto
               | right; split; [reflexivity|]; split;
                 [ eexists; repeat split; reflexivity
                 | eexists; rewrite recordOperation_metrics;
                   repeat split; reflexivity ] ]);
    try (right; do 4 eexists; rewrite recordOperation_metrics;
         cbn [metricsEnabled metrics withCache];
         repeat split; try reflexivity;
         match goal with
         | |- context [if cacheable ?m then _ else _] =>
             destruct (cacheable m); reflexivity
         | _ => idtac
         end).
Qed.

Lemma executeOperation_throws :
  forall env category operation params s s' e,
    executeOperation env category operation params s = (s', Throws e) ->
    s' = s.
Proof.
  intros env category operation params s s' e H.
  dispatch_branches H; reflexivity.
Qed.

(** Where the data of a response without [error] comes from: a cache
    hit, or the compacted result of the upstream call. *)
Lemma executeOperation_data_source :
  forall env category operation params s s' r,
    executeOperation env category operation params s = (s', Returns r) ->
    error r = None ->
    exists mapping upstream,
      getOperationMapping category operation = Some (Mapping mapping) /\
      ((cacheable mapping = true /\
        snd (ResponseCache.get (cacheConfig s) (now env)
               (MCPClient.serverNameString (server mapping)) (tool mapping)
               params (cache s)) = Some upstream /\
        r = ResponseFormatter.formatBridgeResponse upstream
              {| serverName := MCPClient.serverNameString (server mapping);
                 operationName := operation; durationMs := 0; cached := true;
                 tokensEstimate :=
                   Some (ResponseFormatter.estimateTokens upstream) |})
       \/
       (exists result,
          ErrorHandler.success
            (ErrorHandler.returned
               (ErrorHandler.executeWithRetry (retryConfig s)
                  (callTool env (server mapping) (tool mapping) params))) = true /\
          ErrorHandler.result
            (ErrorHandler.returned
               (ErrorHandler.executeWithRetry (retryConfig s)
                  (callTool env (server mapping) (tool mapping) params)))
            = Some result /\
          upstream = ResponseFormatter.compressResponse result /\
          r = ResponseFormatter.formatBridgeResponse upstream
                {| serverName := MCPClient.serverNameString (server mapping);
                   operationName := operation; durationMs := elapsed env;
                   cached := false;
                   tokensEstimate :=
                     Some (ResponseFormatter.estimateTokens upstream) |})).
Proof.
  intros env category operation params s s' r H Hnone.
  dispatch_branches H; try discriminate Hnone;
    match goal with
    | Hm : getOperationMapping _ _ = Some (Mapping ?m) |- _ =>
        exists m; eexists; (split; [reflexivity|])
    end.
  - left. split; [assumption|]. split; [|reflexivity].
    match goal with
    | Hg : ResponseCache.get _ _ _ _ _ _ = _ |- _ => now rewrite Hg
    end.
  - right. eexists. cbn [retryConfig withCache] in *.
    split; [eassumption|]. split; [eassumption|]. split; reflexivity.
  - right. eexists. cbn [retryConfig withCache] in *.
    split; [eassumption|]. split; [eassumption|]. split; reflexivity.
Qed.

(** The path of a fresh upstream success. *)
Lemma executeOperation_success_path :
  forall env category operation params s mapping result,
    initialized s = true ->
    getOperationMapping category operation = Some (Mapping mapping) ->
    hasClient s (server mapping) = true ->
    snd (if cacheable mapping
         then ResponseCache.get (cacheConfig s) (now env)
                (MCPClient.serverNameString (server mapping)) (tool mapping)
                params (cache s)
         else (cache s, None)) = None ->
    ErrorHandler.success
      (ErrorHandler.returned
         (ErrorHandler.executeWithRetry (retryConfig s)
            (callTool env (server mapping) (tool mapping) params))) = true ->
    ErrorHandler.result
      (ErrorHandler.returned
         (ErrorHandler.executeWithRetry (retryConfig s)
            (callTool env (server mapping) (tool mapping) params))) = Some result ->
    exists s' r,
      executeOperation env category operation params s = (s', Returns r) /\
      responseData r = Some (content (ResponseFormatter.compressResponse result)) /\
      success r = ResponseFormatter.notError result /\
      error r = None /\
      cache s'
      = (if cacheable mapping
         then ResponseCache.set (cacheConfig s) (now env + elapsed env)
                (MCPClient.serverNameString (server mapping)) (tool mapping) params
                (ResponseFormatter.compressResponse result)
                (fst (ResponseCache.get (cacheConfig s) (now env)
                        (MCPClient.serverNameString (server mapping))
                        (tool mapping) params (cache s)))
         else cache s).
Proof.
  intros env category operation params s mapping result
         Hinit Hmap Hclient Hmiss Hsucc Hres.
  unfold executeOperation. rewrite Hinit. cbn [negb].
  assert (Hvalid : isValidOperation category operation = true).
  { unfold isValidOperation. now rewrite Hmap. }
  rewrite Hvalid, Hmap, Hclient. cbn [negb].
  destruct (cacheable mapping) eqn:Hc.
  - destruct (ResponseCache.get _ _ _ _ _ _) as [c1 hit]. cbn [snd fst] in *.
    subst hit. cbn [retryConfig withCache] in *. rewrite Hsucc, Hres.
    do 2 eexists. split; [reflexivity|].
    rewrite recordOperation_cache. repeat split.
  - cbn [retryConfig withCache] in *. rewrite Hsucc, Hres.
    do 2 eexists. split; [reflexivity|].
    rewrite recordOperation_cache. repeat split.
Qed.

Lemma string_append_assoc :
  forall x y z : string, ((x ++ y) ++ z = x ++ (y ++ z))%string.
Proof.
  induction x as [|c x IH]; intros y z; simpl; [reflexivity | now rewrite IH].
Qed.

Lemma substring_prefix_length :
  forall n s, (n <= String.length s)%nat ->
    String.length (String.substring 0 n s) = n.
Proof.
  induction n as [|n IH]; intros s Hn.
  - destruct s; reflexivity.
  - destruct s as [|c s]; simpl in *; [lia|].
    f_equal. apply IH. lia.
Qed.

(** Texts without white space or characters to escape pass through
    compaction and quoting unchanged. *)
Lemma length_repeatChar :
  forall n c, String.length (Fixtures.repeatChar n c) = n.
Proof.
  induction n as [|n IH]; intros c; simpl; [reflexivity | now rewrite IH].
Qed.

Lemma repeatChar_head :
  forall n ch c s, Fixtures.repeatChar n ch = String c s -> c = ch.
Proof.
  intros [|n] ch c s H; simpl in H; [discriminate | now inversion H].
Qed.

Lemma replaceRuns_plain :
  forall cls min replacement n c,
    cls c = false -> Nat.leb min 0 = false ->
    ResponseFormatter.replaceRuns cls min replacement "" (Fixtures.repeatChar n c)
    = Fixtures.repeatChar n c.
Proof.
  intros cls min replacement n c Hc Hmin.
  induction n as [|n IH]; simpl.
  - unfold ResponseFormatter.flushRun. simpl. now rewrite Hmin.
  - rewrite Hc, IH. unfold ResponseFormatter.flushRun. simpl. now rewrite Hmin.
Qed.

Lemma trimEnd_plain :
  forall n c, ResponseFormatter.isSpace c = false ->
    ResponseFormatter.trimEnd (Fixtures.repeatChar n c) = Fixtures.repeatChar n c.
Proof.
  intros n c Hc. induction n as [|n IH]; simpl; [reflexivity|].
  rewrite IH. destruct n; simpl; [now rewrite Hc | reflexivity].
Qed.

Lemma compressText_plain :
  forall n c, ResponseFormatter.isSpace c = false ->
    ResponseFormatter.compressText (Fixtures.repeatChar n c)
    = Fixtures.repeatChar n c.
Proof.
  intros n c Hc. unfold ResponseFormatter.compressText.
  assert (Hnl : ResponseFormatter.isNewline c = false).
  { unfold ResponseFormatter.isNewline.
    destruct (Ascii.eqb_spec c ResponseFormatter.newline) as [->|]; [|reflexivity].
    discriminate Hc. }
  rewrite (replaceRuns_plain _ 3 _ n c Hnl eq_refl).
  rewrite (replaceRuns_plain _ 2 _ n c Hc eq_refl).
  unfold ResponseFormatter.trim.
  destruct n as [|n]; [reflexivity|].
  simpl ResponseFormatter.trimStart. rewrite Hc.
  apply (trimEnd_plain (S n) c Hc).
Qed.

Lemma compressResponse_plain_text :
  forall n c, ResponseFormatter.isSpace c = false ->
    ResponseFormatter.compressResponse (Fixtures.textResult (Fixtures.repeatChar n c))
    = Fixtures.textResult (Fixtures.repeatChar n c).
Proof.
  intros n c Hc. unfold ResponseFormatter.compressResponse, Fixtures.textResult.
  cbn [content isError map ResponseFormatter.compressItem text type].
  unfold ResponseFormatter.compressItem. cbn [text type].
  destruct n as [|n]; [reflexivity|].
  replace (String.eqb (Fixtures.repeatChar (S n) c) "") with false by reflexivity.
  change (String.eqb "text" "text") with true. cbn [andb negb].
  rewrite (compressText_plain (S n) c Hc). reflexivity.
Qed.

Lemma escape_plain :
  forall n c, escapeChar c = String c "" ->
    escape (Fixtures.repeatChar n c) = Fixtures.repeatChar n c.
Proof.
  intros n c Hc. induction n as [|n IH]; simpl; [reflexivity|].
  now rewrite Hc, IH.
Qed.

Lemma string_length_append :
  forall a b : string,
    String.length (a ++ b)%string = (String.length a + String.length b)%nat.
Proof.
  induction a as [|c a IH]; intros b; simpl; [reflexivity | now rewrite IH].
Qed.

(** The serialization of a one-item text result is the quoted text
    inside thirty-nine characters of structure. *)
Lemma serializedLength_textResult :
  forall t,
    ResponseFormatter.serializedLength (Fixtures.textResult t)
    = Z.of_nat (String.length (escape t)) + 39.
Proof.
  intros t. unfold ResponseFormatter.serializedLength, stringify.
  unfold resultJSON, Fixtures.textResult, itemJSON, optionalField.
  cbn [serialize map List.app flat_map assoc String.eqb Ascii.eqb Bool.eqb
       fst snd String.concat content isError type text data].
  unfold quote. repeat rewrite string_length_append.
  change (String.length (escape "content")) with 7%nat.
  change (String.length (escape "type")) with 4%nat.
  change (String.length (escape "text")) with 4%nat.
  change (String.length dquote) with 1%nat.
  cbn [String.length]. lia.
Qed.

End BridgeServerFacts.

(** C6, as the code has it.  Every response returned by a dispatch has
    exactly one of [data] and [error] populated.  A response with
    [success = true] has [data] and the full [metadata] block.  An
    [error] comes with [success = false] and no [data]: under the codes
    [INVALID_OPERATION] and [SERVER_UNAVAILABLE] the response has no
    [metadata] at all, under [EXECUTION_ERROR] it has [metadata] without
    [tokensEstimate] (no other code is produced).  A response without
    [error] is built from the result found in the cache for this call
    or from the result with which the upstream call succeeded: it
    carries the content of the cached result, or the compacted content
    of the upstream result, as [data], the full [metadata] block naming
    the upstream and the operation with the tokens estimate of that
    content, and its [success] is [false] exactly when that result has
    [isError] set. *)
Theorem executeOperation_response_shape :
  forall env category operation params s s' r,
    BridgeServer.executeOperation env category operation params s
      = (s', BridgeServer.Returns r) ->
    ((Protocol.responseData r = None /\ Protocol.error r <> None) \/
     (Protocol.responseData r <> None /\ Protocol.error r = None)) /\
    (Protocol.success r = true ->
     Protocol.responseData r <> None /\ Protocol.error r = None /\
     exists m n, Protocol.metadata r = Some m /\
                 Protocol.tokensEstimate m = Some n) /\
    (forall e, Protocol.error r = Some e ->
       Protocol.success r = false /\ Protocol.responseData r = None /\
       (((Protocol.code e = "INVALID_OPERATION" \/
          Protocol.code e = "SERVER_UNAVAILABLE") /\
         Protocol.metadata r = None)
        \/
        (Protocol.code e = "EXECUTION_ERROR" /\
         exists m, Protocol.metadata r = Some m /\
                   Protocol.tokensEstimate m = None))) /\
    (Protocol.error r = None ->
     exists mapping source upstream m,
       Registry.getOperationMapping category operation
         = Some (Registry.Mapping mapping) /\
       ((Registry.cacheable mapping = true /\
         snd (ResponseCache.get (BridgeServer.cacheConfig s) (BridgeServer.now env)
                (MCPClient.serverNameString (Registry.server mapping))
                (Registry.tool mapping) params (BridgeServer.cache s))
           = Some source /\
         upstream = source /\
         Protocol.cached m = true /\ Protocol.durationMs m = 0)
        \/
        (ErrorHandler.result
           (ErrorHandler.returned
              (ErrorHandler.executeWithRetry (BridgeServer.retryConfig s)
                 (BridgeServer.callTool env (Registry.server mapping)
                    (Registry.tool mapping) params))) = Some source /\
         upstream = ResponseFormatter.compressResponse source /\
         Protocol.cached m = false /\
         Protocol.durationMs m = BridgeServer.elapsed env)) /\
       Protocol.responseData r = Some (Protocol.content upstream) /\
       (Protocol.success r = false <-> Protocol.isError source = Some true) /\
       Protocol.metadata r = Some m /\
       Protocol.serverName m
         = MCPClient.serverNameString (Registry.server mapping) /\
       Protocol.operationName m = operation /\
       Protocol.tokensEstimate m
         = Some (ResponseFormatter.estimateTokens upstream)).
Proof.
  assert (Hflag : forall x : Protocol.CallToolResult,
             ResponseFormatter.notError x = false <-> Protocol.isError x = Some true).
  { intros x. unfold ResponseFormatter.notError.
    destruct (Protocol.isError x) as [[|]|]; split; congruence. }
  intros env category operation params s s' r H.
  pose proof (executeOperation_data_source _ _ _ _ _ _ _ H) as Hsource.
  destruct (executeOperation_shape _ _ _ _ _ _ _ H)
    as [(e & Hd & He & Hs & Hcases)
       | (upstream & m & n & record & Hd & He & Hs & Hm & Hn & _)].
  - split; [|split; [|split]].
    + left. rewrite Hd, He. split; [reflexivity | discriminate].
    + rewrite Hs. discriminate.
    + intros e' He'. rewrite He in He'. inversion He'; subst e'.
      split; [exact Hs|]. split; [exact Hd|].
      destruct Hcases as [(Hc & Hmeta & _) | (Hc & (m & Hmeta & Htok & _) & _)].
      * left. split; assumption.
      * right. split; [assumption|]. exists m. split; assumption.
    + rewrite He. discriminate.
  - split; [|split; [|split]].
    + right. rewrite Hd, He. split; [discriminate | reflexivity].
    + intros _. split; [rewrite Hd; discriminate|]. split; [exact He|].
      exists m, n. split; assumption.
    + intros e' He'. rewrite He in He'. discriminate.
    + intros _. clear Hd Hs Hm Hn.
      destruct (Hsource He) as (mapping & up & Hmap & [(Hc & Hhit & Hr)
                                                      | (result & _ & Hres & Hup & Hr)]).
      * subst r.
        exists mapping, up, up,
          {| Protocol.serverName :=
               MCPClient.serverNameString (Registry.server mapping);
             Protocol.operationName := operation;
             Protocol.durationMs := 0; Protocol.cached := true;
             Protocol.tokensEstimate :=
               Some (ResponseFormatter.estimateTokens up) |}.
        cbn [ResponseFormatter.formatBridgeResponse Protocol.responseData
             Protocol.success Protocol.metadata Protocol.serverName
             Protocol.operationName Protocol.tokensEstimate Protocol.cached
             Protocol.durationMs].
        split; [exact Hmap|].
        split; [left; repeat split; assumption|].
        split; [reflexivity|]. split; [apply Hflag|]. repeat split.
      * subst r.
        exists mapping, result, up,
          {| Protocol.serverName :=
               MCPClient.serverNameString (Registry.server mapping);
             Protocol.operationName := operation;
             Protocol.durationMs := BridgeServer.elapsed env;
             Protocol.cached := false;
             Protocol.tokensEstimate :=
               Some (ResponseFormatter.estimateTokens up) |}.
        cbn [ResponseFormatter.formatBridgeResponse Protocol.responseData
             Protocol.success Protocol.metadata Protocol.serverName
             Protocol.operationName Protocol.tokensEstimate Protocol.cached
             Protocol.durationMs].
        split; [exact Hmap|].
        split; [right; repeat split; assumption|].
        split; [reflexivity|]. split; [|repeat split].
        rewrite Hflag, Hup. reflexivity.
Qed.

Lemma executeOperation_response_shape_witness :
  Protocol.error (Fixtures.responseOf (snd Fixtures.toolErrorDispatch)) = None /\
  exists source,
    Protocol.responseData (Fixtures.responseOf (snd Fixtures.toolErrorDispatch))
      = Some (Protocol.content (ResponseFormatter.compressResponse source)) /\
    (Protocol.success (Fixtures.responseOf (snd Fixtures.toolErrorDispatch)) = false
     <-> Protocol.isError source = Some true).
Proof.
  assert (E : BridgeServer.executeOperation (Fixtures.answering Fixtures.toolError)
                Protocol.code_operations "findSymbol" Fixtures.userQuery
                Fixtures.readyServer
              = (fst Fixtures.toolErrorDispatch,
                 BridgeServer.Returns
                   (Fixtures.responseOf (snd Fixtures.toolErrorDispatch))))
    by (vm_compute; reflexivity).
  assert (N : Protocol.error (Fixtures.responseOf (snd Fixtures.toolErrorDispatch))
              = None) by (vm_compute; reflexivity).
  split; [exact N|].
  destruct (executeOperation_response_shape _ _ _ _ _ _ _ E) as (_ & _ & _ & Hup).
  destruct (Hup N) as (mapping & source & upstream & m & Hmap & Hfrom & Hdata & Hflag & _).
  destruct Hfrom as [(_ & Hhit & _) | (_ & Hupstream & _)].
  - vm_compute in Hmap. inversion Hmap; subst mapping.
    vm_compute in Hhit. discriminate.
  - exists source. rewrite <- Hupstream. split; assumption.
Defined.

(** C6 as stated fails twice: the response to an operation that is not
    in the registry has no [metadata] block, and the response built
    from an upstream result with [isError] set has [success = false]
    together with [data] and without [error]. *)
Lemma response_without_metadata_and_failure_with_data :
  (exists e,
     Protocol.error (Fixtures.responseOf (snd Fixtures.unknownDispatch)) = Some e /\
     Protocol.code e = "INVALID_OPERATION") /\
  Protocol.metadata (Fixtures.responseOf (snd Fixtures.unknownDispatch)) = None /\
  Protocol.success (Fixtures.responseOf (snd Fixtures.toolErrorDispatch)) = false /\
  Protocol.responseData (Fixtures.responseOf (snd Fixtures.toolErrorDispatch))
    = Some (Protocol.content Fixtures.toolError) /\
  Protocol.error (Fixtures.responseOf (snd Fixtures.toolErrorDispatch)) = None.
Proof.
  split; [eexists; split; vm_compute; reflexivity|].
  repeat split; vm_compute; reflexivity.
Qed.

(** C7, as the code has it.  A dispatch that throws, or that returns
    without a [metadata] block (these are exactly the
    [INVALID_OPERATION] and [SERVER_UNAVAILABLE] outcomes), leaves the
    metrics log as it was.  Every other outcome (cache hit, upstream
    success, upstream failure) appends exactly one record when metrics
    collection is enabled, and none when it is disabled; the record
    names the operation, repeats [cached], and has [success = true]
    exactly when the response has no [error]. *)
Theorem executeOperation_metrics_records :
  forall env category operation params s s' c,
    BridgeServer.executeOperation env category operation params s = (s', c) ->
    match c with
    | BridgeServer.Throws _ => BridgeServer.metrics s' = BridgeServer.metrics s
    | BridgeServer.Returns r =>
        (BridgeServer.metricsEnabled s = false ->
         BridgeServer.metrics s' = BridgeServer.metrics s) /\
        (Protocol.metadata r = None <->
         exists e, Protocol.error r = Some e /\
                   (Protocol.code e = "INVALID_OPERATION" \/
                    Protocol.code e = "SERVER_UNAVAILABLE")) /\
        (Protocol.metadata r = None ->
         BridgeServer.metrics s' = BridgeServer.metrics s) /\
        (forall m, Protocol.metadata r = Some m ->
           BridgeServer.metricsEnabled s = true ->
           exists record,
             BridgeServer.metrics s' = BridgeServer.metrics s ++ [record] /\
             BridgeServer.metricOperation record = operation /\
             BridgeServer.metricCached record = Protocol.cached m /\
             BridgeServer.metricSuccess record
             = match Protocol.error r with
               | None => true
               | Some _ => false
               end)
    end.
Proof.
  intros env category operation params s s' c H.
  destruct c as [e|r].
  - now rewrite (executeOperation_throws _ _ _ _ _ _ _ H).
  - destruct (executeOperation_shape _ _ _ _ _ _ _ H)
      as [(e & Hd & He & Hs & [(Hc & Hmeta & Hlog)
                              | (Hc & (m & Hmeta & Htok & Hcached & _) &
                                 (record & Hlog & Hop & Hsucc & Hrc & _))])
         | (upstream & m & n & record & Hd & He & Hs & Hm & Hn & _ & _ &
            Hlog & Hop & Hsucc & Hrc & _)].
    + repeat split; auto.
      * intros _. exists e. split; assumption.
      * intros m Hm. rewrite Hmeta in Hm. discriminate.
    + repeat split.
      * intros Hoff. now rewrite Hoff in Hlog.
      * rewrite Hmeta. discriminate.
      * intros (e' & He' & Hcode). rewrite He in He'. inversion He'; subst.
        rewrite Hc in Hcode. destruct Hcode; discriminate.
      * rewrite Hmeta. discriminate.
      * intros m' Hm' Hon. rewrite Hon in Hlog. exists record.
        rewrite Hmeta in Hm'. inversion Hm'; subst.
        rewrite He, Hcached. repeat split; assumption.
    + repeat split.
      * intros Hoff. now rewrite Hoff in Hlog.
      * rewrite Hm. discriminate.
      * intros (e' & He' & _). rewrite He in He'. discriminate.
      * rewrite Hm. discriminate.
      * intros m' Hm' Hon. rewrite Hon in Hlog. exists record.
        rewrite Hm in Hm'. inversion Hm'; subst.
        rewrite He. repeat split; assumption.
Qed.

Lemma executeOperation_metrics_records_witness :
  exists record,
    BridgeServer.metrics (fst Fixtures.toolErrorDispatch)
      = BridgeServer.metrics Fixtures.readyServer ++ [record] /\
    BridgeServer.metricOperation record = "findSymbol".
Proof.
  assert (E : BridgeServer.executeOperation (Fixtures.answering Fixtures.toolError)
                Protocol.code_operations "findSymbol" Fixtures.userQuery
                Fixtures.readyServer
              = (fst Fixtures.toolErrorDispatch,
                 BridgeServer.Returns
                   (Fixtures.responseOf (snd Fixtures.toolErrorDispatch))))
    by (vm_compute; reflexivity).
  pose proof (executeOperation_metrics_records _ _ _ _ _ _ _ E) as (_ & _ & _ & Hrec).
  destruct (Hrec {| Protocol.serverName := "serena";
                    Protocol.operationName := "findSymbol";
                    Protocol.durationMs := 12; Protocol.cached := false;
                    Protocol.tokensEstimate := Some 19 |}
                 ltac:(vm_compute; reflexivity) eq_refl)
    as (record & Hlog & Hop & _).
  exists record. split; assumption.
Defined.

(** C7 as stated fails: with metrics collection enabled, a dispatch
    that ends in [INVALID_OPERATION] and one that ends in
    [SERVER_UNAVAILABLE] both leave the metrics log empty. *)
Lemma validation_and_routing_failures_are_not_recorded :
  BridgeServer.metricsEnabled Fixtures.readyServer = true /\
  BridgeServer.metrics Fixtures.readyServer = [] /\
  (exists e,
     Protocol.error (Fixtures.responseOf (snd Fixtures.unknownDispatch)) = Some e /\
     Protocol.code e = "INVALID_OPERATION") /\
  BridgeServer.metrics (fst Fixtures.unknownDispatch) = [] /\
  (exists e,
     Protocol.error (Fixtures.responseOf (snd Fixtures.unavailableDispatch)) = Some e /\
     Protocol.code e = "SERVER_UNAVAILABLE") /\
  BridgeServer.metrics (fst Fixtures.unavailableDispatch) = [].
Proof.
  repeat split; try (vm_compute; reflexivity);
    eexists; split; vm_compute; reflexivity.
Qed.

(** C8, at an input where the code departs from it.  The dispatcher
    compacts a fresh upstream answer but never calls
    [truncateIfNeeded]: an answer whose compacted serialization is
    60,039 characters long is returned, and cached, as it is, while
    [truncateIfNeeded] with the limit of 50,000 would have replaced its
    content. *)
Lemma oversized_body_is_returned_untruncated :
  50000 < ResponseFormatter.serializedLength
            (ResponseFormatter.compressResponse Fixtures.bigResult) /\
  Protocol.responseData (Fixtures.responseOf (snd Fixtures.bigDispatch))
    = Some (Protocol.content Fixtures.bigResult) /\
  Protocol.success (Fixtures.responseOf (snd Fixtures.bigDispatch)) = true /\
  map (fun kv => ResponseCache.value (snd kv))
      (BridgeServer.cache (fst Fixtures.bigDispatch)) = [Fixtures.bigResult] /\
  Protocol.content (ResponseFormatter.truncateIfNeeded Fixtures.bigResult 50000)
    <> Protocol.content Fixtures.bigResult.
Proof.
  assert (Hplain : ResponseFormatter.isSpace "x"%char = false) by reflexivity.
  assert (Hsame : ResponseFormatter.compressResponse Fixtures.bigResult
                  = Fixtures.bigResult).
  { unfold Fixtures.bigResult. now apply compressResponse_plain_text. }
  assert (Hlen : ResponseFormatter.serializedLength Fixtures.bigResult = 60039).
  { unfold Fixtures.bigResult. rewrite serializedLength_textResult.
    rewrite (escape_plain _ "x"%char eq_refl), length_repeatChar.
    rewrite Z2Nat.id; lia. }
  destruct (executeOperation_success_path
              (Fixtures.answering Fixtures.bigResult)
              Protocol.code_operations "findSymbol" Fixtures.userQuery
              Fixtures.readyServer Fixtures.findSymbolMapping Fixtures.bigResult
              eq_refl eq_refl eq_refl eq_refl eq_refl eq_refl)
    as (s' & r & Hexec & Hdata & Hsucc & _ & Hcache).
  unfold Fixtures.bigDispatch. rewrite Hexec. cbn [fst snd Fixtures.responseOf].
  rewrite Hsame in *.
  split; [rewrite Hlen; lia|].
  split; [exact Hdata|].
  split; [rewrite Hsucc; reflexivity|].
  split; [rewrite Hcache; reflexivity|].
  unfold ResponseFormatter.truncateIfNeeded. rewrite Hlen.
  cbn [Z.leb Z.compare Pos.compare Pos.compare_cont Protocol.content].
  unfold Fixtures.bigResult, Fixtures.textResult. cbn [Protocol.content].
  pose proof (repeatChar_head (Z.to_nat 60000) "x"%char) as Hhead.
  revert Hhead.
  generalize (Fixtures.repeatChar (Z.to_nat 60000) "x"%char) as big.
  generalize (Z.to_nat (50000 - 100)) as cut.
  intros cut big Hhead H. injection H as H.
  unfold ResponseFormatter.truncationHeader in H. cbn [String.append] in H.
  symmetry in H. apply Hhead in H. discriminate H.
Qed.

(** ** The batch executor *)

Section ExtractFacts.
Import ParallelExecutor.
Context {A : Type}.
Variable key : A -> nat.

Lemma extract_Some :
  forall i l x rest,
    extract key i l = Some (x, rest) ->
    key x = i /\ Permutation l (x :: rest).
Proof.
  intros i. induction l as [|y l IH]; simpl; intros x rest H; [discriminate|].
  destruct (Nat.eqb_spec (key y) i) as [Heq|Hne].
  - inversion H; subst. split; [reflexivity | apply Permutation_refl].
  - destruct (extract key i l) as [[z rest']|] eqn:Hex; [|discriminate].
    destruct (IH z rest' eq_refl) as [Hk Hp].
    injection H as Hx Hrest. subst x rest.
    split; [exact Hk|].
    apply perm_trans with (y :: z :: rest'); [now apply perm_skip | apply perm_swap].
Qed.

Lemma extract_In :
  forall x l, In x l -> exists y rest, extract key (key x) l = Some (y, rest).
Proof.
  intros x. induction l as [|y l IH]; simpl; intros Hin; [contradiction|].
  destruct (Nat.eqb_spec (key y) (key x)) as [Heq|Hne].
  - now exists y, l.
  - destruct Hin as [->|Hin]; [congruence|].
    destruct (IH Hin) as (z & rest & Hex). rewrite Hex. now exists z, (y :: rest).
Qed.

End ExtractFacts.

Section ParallelExecutorFacts.
Import JS Protocol ParallelExecutor.
Variable cfg : ExecutorConfig.

(** What [processQueue] does: it starts a prefix of the queue, in
    order, and stops when the queue is empty or the cap is reached. *)
Lemma processLoop_spec :
  forall pending s,
    queue s = pending ->
    activeOperations s <= maxConcurrent cfg ->
    exists released,
      pending = released ++ queue (processLoop cfg pending s) /\
      inFlight (processLoop cfg pending s) = inFlight s ++ released /\
      resuming (processLoop cfg pending s) = resuming s /\
      settled (processLoop cfg pending s) = settled s /\
      nextTicket (processLoop cfg pending s) = nextTicket s /\
      activeOperations (processLoop cfg pending s)
        = activeOperations s + Z.of_nat (List.length released) /\
      activeOperations (processLoop cfg pending s) <= maxConcurrent cfg /\
      (queue (processLoop cfg pending s) <> [] ->
       maxConcurrent cfg <= activeOperations (processLoop cfg pending s)).
Proof.
  induction pending as [|t rest IH]; intros s Hq Hle.
  - exists []. simpl. rewrite Hq, app_nil_r.
    repeat split; try reflexivity; try lia. intros H; congruence.
  - cbn [processLoop].
    destruct (Z.ltb_spec (activeOperations s) (maxConcurrent cfg)) as [Hlt|Hge].
    + match goal with
      | |- context [processLoop cfg rest ?s1] =>
          destruct (IH s1 eq_refl) as (released & Hsplit & Hin & Hres & Hset & Hnext
                                       & Hact & Hcap & Hfull);
            [cbn [activeOperations startOperation]; lia|]
      end.
      exists (t :: released). cbn [startOperation activeOperations inFlight resuming
                                   settled nextTicket queue] in *.
      repeat split; try assumption.
      * simpl. now f_equal.
      * rewrite Hin, <- app_assoc. reflexivity.
      * rewrite Hact. simpl List.length. lia.
    + exists []. rewrite Hq, app_nil_r. simpl.
      repeat split; try reflexivity; try lia.
Qed.

Lemma present_coherent :
  forall operation s,
    coherent cfg s -> coherent cfg (executeWithConcurrencyControl cfg operation s).
Proof.
  intros operation s (Hcount & Hcap & Hfull).
  unfold executeWithConcurrencyControl, coherent.
  cbn [activeOperations queue inFlight resuming].
  destruct (Z.leb_spec (maxConcurrent cfg) (activeOperations s)) as [Hge|Hlt];
    cbn [startOperation activeOperations queue inFlight resuming].
  - repeat split; auto.
  - rewrite length_app. simpl List.length. repeat split; try lia.
    intros Hq. specialize (Hfull Hq). lia.
Qed.

Lemma step_coherent :
  forall s l s', coherent cfg s -> step cfg s l s' -> coherent cfg s'.
Proof.
  intros s l s' Hs Hstep. unfold step in Hstep.
  destruct l as [operation | i o | i]; cbn [applyLabel] in Hstep.
  - inversion Hstep; subst. now apply present_coherent.
  - unfold executorSettles in Hstep.
    destruct (extract ticket i (inFlight s)) as [[t rest]|] eqn:Hex; [|discriminate].
    inversion Hstep; subst. clear Hstep.
    destruct (extract_Some _ _ _ _ _ Hex) as [_ Hperm].
    apply Permutation_length in Hperm. simpl in Hperm.
    destruct Hs as (Hcount & Hcap & Hfull). unfold coherent.
    cbn [activeOperations queue inFlight resuming].
    rewrite length_app. simpl List.length. repeat split; auto. lia.
  - unfold resume in Hstep.
    destruct (extract fst i (resuming s)) as [[[i' o] rest]|] eqn:Hex; [|discriminate].
    inversion Hstep; subst. clear Hstep.
    destruct (extract_Some _ _ _ _ _ Hex) as [_ Hperm].
    apply Permutation_length in Hperm. simpl in Hperm.
    destruct Hs as (Hcount & Hcap & Hfull). unfold processQueue.
    match goal with
    | |- coherent cfg (processLoop cfg ?q ?s1) =>
        destruct (processLoop_spec q s1 eq_refl)
          as (released & Hsplit & Hin & Hres & Hset & Hnext & Hact & Hcap' & Hfull');
          [cbn [activeOperations]; lia|]
    end.
    unfold coherent. cbn [activeOperations queue inFlight resuming] in *.
    repeat split; auto.
    rewrite Hact, Hin, Hres, length_app. lia.
Qed.

Lemma idle_coherent : 0 <= maxConcurrent cfg -> coherent cfg idle.
Proof.
  intros H. unfold coherent, idle. simpl. repeat split; try lia.
  intros Hq. congruence.
Qed.

Lemma reachable_coherent :
  0 <= maxConcurrent cfg -> forall s, reachable cfg s -> coherent cfg s.
Proof.
  intros Hcap s Hreach. induction Hreach as [|s l s' _ IH Hstep].
  - now apply idle_coherent.
  - now apply (step_coherent s l s').
Qed.

(** How each step moves calls between the queue and the running set. *)
Lemma step_queue_discipline :
  forall s l s',
    step cfg s l s' ->
    match l with
    | Present operation =>
        let t := {| ticket := nextTicket s; taskOperation := operation |} in
        if maxConcurrent cfg <=? activeOperations s
        then queue s' = queue s ++ [t] /\ inFlight s' = inFlight s
        else queue s' = queue s /\ inFlight s' = inFlight s ++ [t]
    | ExecutorSettles i o =>
        queue s' = queue s /\ activeOperations s' = activeOperations s /\
        exists t, ticket t = i /\ Permutation (inFlight s) (t :: inFlight s')
    | Resume i =>
        activeOperations s <= maxConcurrent cfg ->
        exists released,
          queue s = released ++ queue s' /\
          inFlight s' = inFlight s ++ released
    end.
Proof.
  intros s l s' Hstep. unfold step in Hstep.
  destruct l as [operation | i o | i]; cbn [applyLabel] in Hstep.
  - inversion Hstep; subst. unfold executeWithConcurrencyControl.
    cbn [activeOperations]. cbv zeta.
    destruct (maxConcurrent cfg <=? activeOperations s);
      cbn [startOperation queue inFlight]; split; reflexivity.
  - unfold executorSettles in Hstep.
    destruct (extract ticket i (inFlight s)) as [[t rest]|] eqn:Hex; [|discriminate].
    inversion Hstep; subst. cbn [queue activeOperations inFlight].
    destruct (extract_Some _ _ _ _ _ Hex) as [Hk Hperm].
    repeat split. now exists t.
  - unfold resume in Hstep.
    destruct (extract fst i (resuming s)) as [[[i' o] rest]|] eqn:Hex; [|discriminate].
    inversion Hstep; subst. intros Hcap. unfold processQueue.
    match goal with
    | |- context [processLoop cfg ?q ?s1] =>
        destruct (processLoop_spec q s1 eq_refl)
          as (released & Hsplit & Hin & _);
          [cbn [activeOperations]; lia|]
    end.
    exists released. cbn [queue inFlight] in *. split; assumption.
Qed.

End ParallelExecutorFacts.

(** C2.  Under a concurrency cap [k] (a non-negative number), in every
    state the executor can reach the number of executor invocations in
    flight is at most [k], and so is the counter, which counts them
    together with the settled invocations whose [finally] block is
    about to run.  A call presented while [k] invocations are in flight
    starts nothing and joins the end of the queue; an invocation
    settling leaves the queue alone; and the queue only loses calls, a
    prefix of it in order, when the continuation of a finished
    invocation runs its [finally] block. *)
Theorem inflight_never_exceeds_cap :
  forall cfg : ParallelExecutor.ExecutorConfig,
    0 <= ParallelExecutor.maxConcurrent cfg ->
    forall s, ParallelExecutor.reachable cfg s ->
      Z.of_nat (List.length (ParallelExecutor.inFlight s))
        <= ParallelExecutor.maxConcurrent cfg /\
      ParallelExecutor.activeOperations s
        = Z.of_nat (List.length (ParallelExecutor.inFlight s)
                    + List.length (ParallelExecutor.resuming s)) /\
      ParallelExecutor.activeOperations s <= ParallelExecutor.maxConcurrent cfg /\
      (forall operation,
         Z.of_nat (List.length (ParallelExecutor.inFlight s))
           = ParallelExecutor.maxConcurrent cfg ->
         ParallelExecutor.queue
           (ParallelExecutor.executeWithConcurrencyControl cfg operation s)
         = ParallelExecutor.queue s
           ++ [ {| ParallelExecutor.ticket := ParallelExecutor.nextTicket s;
                   ParallelExecutor.taskOperation := operation |} ] /\
         ParallelExecutor.inFlight
           (ParallelExecutor.executeWithConcurrencyControl cfg operation s)
         = ParallelExecutor.inFlight s) /\
      (forall l s',
         ParallelExecutor.step cfg s l s' ->
         match l with
         | ParallelExecutor.Present operation =>
             exists added,
               ParallelExecutor.queue s' = ParallelExecutor.queue s ++ added
         | ParallelExecutor.ExecutorSettles i o =>
             ParallelExecutor.queue s' = ParallelExecutor.queue s /\
             (List.length (ParallelExecutor.inFlight s')
              < List.length (ParallelExecutor.inFlight s))%nat
         | ParallelExecutor.Resume i =>
             exists released,
               ParallelExecutor.queue s = released ++ ParallelExecutor.queue s' /\
               ParallelExecutor.inFlight s'
               = ParallelExecutor.inFlight s ++ released
         end).
Proof.
  intros cfg Hcap s Hreach.
  pose proof (reachable_coherent cfg Hcap s Hreach) as (Hcount & Hle & Hfull).
  split; [lia|]. split; [exact Hcount|]. split; [exact Hle|]. split.
  - intros operation Hat.
    pose proof (step_queue_discipline cfg s (ParallelExecutor.Present operation)
                  _ eq_refl) as Hd.
    cbv zeta in Hd.
    destruct (Z.leb_spec (ParallelExecutor.maxConcurrent cfg)
                (ParallelExecutor.activeOperations s)) as [_|Hlt]; [exact Hd | lia].
  - intros l s' Hstep.
    pose proof (step_queue_discipline cfg s l s' Hstep) as Hd.
    destruct l as [operation | i o | i].
    + cbv zeta in Hd.
      destruct (ParallelExecutor.maxConcurrent cfg
                <=? ParallelExecutor.activeOperations s).
      * eexists. apply Hd.
      * exists []. rewrite app_nil_r. apply Hd.
    + destruct Hd as (Hq & _ & t & _ & Hperm).
      split; [exact Hq|]. apply Permutation_length in Hperm. simpl in Hperm. lia.
    + exact (Hd Hle).
Qed.

Lemma inflight_never_exceeds_cap_witness :
  0 <= ParallelExecutor.maxConcurrent Fixtures.capTwo /\
  ParallelExecutor.reachable Fixtures.capTwo Fixtures.threePresented /\
  Z.of_nat (List.length (ParallelExecutor.inFlight Fixtures.threePresented)) <= 2.
Proof.
  assert (H0 : 0 <= ParallelExecutor.maxConcurrent Fixtures.capTwo) by (simpl; lia).
  assert (Hr : ParallelExecutor.reachable Fixtures.capTwo Fixtures.threePresented).
  { unfold Fixtures.threePresented, Fixtures.threeOperations. cbn [fold_left].
    eapply (ParallelExecutor.reachable_step Fixtures.capTwo _
             (ParallelExecutor.Present (Fixtures.mockOperation "success2")) _);
      [|reflexivity].
    eapply (ParallelExecutor.reachable_step Fixtures.capTwo _
             (ParallelExecutor.Present (Fixtures.mockOperation "fail1")) _);
      [|reflexivity].
    eapply (ParallelExecutor.reachable_step Fixtures.capTwo _
             (ParallelExecutor.Present (Fixtures.mockOperation "success1")) _);
      [|reflexivity].
    apply ParallelExecutor.reachable_idle. }
  split; [exact H0|]. split; [exact Hr|].
  exact (proj1 (inflight_never_exceeds_cap Fixtures.capTwo H0
                  Fixtures.threePresented Hr)).
Defined.

Section BatchFacts.
Import JS Protocol ParallelExecutor.
Variable cfg : ExecutorConfig.
Variable executor : nat -> BridgeOperation -> Outcome.

(** [processQueue] moves a prefix of the queue to the running calls and
    touches nothing else. *)
Lemma processLoop_moves :
  forall pending s,
    queue s = pending ->
    exists released,
      pending = released ++ queue (processLoop cfg pending s) /\
      inFlight (processLoop cfg pending s) = inFlight s ++ released /\
      resuming (processLoop cfg pending s) = resuming s /\
      settled (processLoop cfg pending s) = settled s /\
      nextTicket (processLoop cfg pending s) = nextTicket s.
Proof.
  induction pending as [|t rest IH]; intros s Hq.
  - exists []. simpl. rewrite Hq, app_nil_r. repeat split; reflexivity.
  - cbn [processLoop].
    destruct (activeOperations s <? maxConcurrent cfg).
    + match goal with
      | |- context [processLoop cfg rest ?s1] =>
          destruct (IH s1 eq_refl) as (released & Hsplit & Hin & Hres & Hset & Hnext)
      end.
      exists (t :: released). cbn [startOperation activeOperations inFlight resuming
                                   settled nextTicket queue] in *.
      repeat split; try assumption.
      * simpl. now f_equal.
      * rewrite Hin, <- app_assoc. reflexivity.
    + exists []. rewrite Hq, app_nil_r. simpl. repeat split; reflexivity.
Qed.

(** What each step does to the places where calls are. *)
Lemma applyLabel_moves :
  forall l s s',
    applyLabel cfg l s = Some s' ->
    match l with
    | Present operation =>
        let t := {| ticket := nextTicket s; taskOperation := operation |} in
        nextTicket s' = S (nextTicket s) /\
        resuming s' = resuming s /\ settled s' = settled s /\
        ((queue s' = queue s ++ [t] /\ inFlight s' = inFlight s) \/
         (queue s' = queue s /\ inFlight s' = inFlight s ++ [t]))
    | ExecutorSettles i o =>
        nextTicket s' = nextTicket s /\
        queue s' = queue s /\ settled s' = settled s /\
        resuming s' = resuming s ++ [(i, o)] /\
        exists t, ticket t = i /\ Permutation (inFlight s) (t :: inFlight s')
    | Resume i =>
        nextTicket s' = nextTicket s /\
        exists o released,
          Permutation (resuming s) ((i, o) :: resuming s') /\
          settled s' = settled s ++ [(i, o)] /\
          queue s = released ++ queue s' /\
          inFlight s' = inFlight s ++ released
    end.
Proof.
  intros l s s' Hstep.
  destruct l as [operation | i o | i]; cbn [applyLabel] in Hstep.
  - inversion Hstep; subst s'. unfold executeWithConcurrencyControl.
    cbn [activeOperations]. cbv zeta.
    destruct (maxConcurrent cfg <=? activeOperations s);
      cbn [startOperation queue inFlight resuming settled nextTicket];
      repeat split; auto.
  - unfold executorSettles in Hstep.
    destruct (extract ticket i (inFlight s)) as [[t rest]|] eqn:Hex; [|discriminate].
    destruct (extract_Some _ _ _ _ _ Hex) as [Hk Hperm].
    inversion Hstep; subst s'. cbn [queue inFlight resuming settled nextTicket].
    repeat split. now exists t.
  - unfold resume in Hstep.
    destruct (extract fst i (resuming s)) as [[[j o] rest]|] eqn:Hex; [|discriminate].
    destruct (extract_Some _ _ _ _ _ Hex) as [Hk Hperm]. cbn [fst] in Hk. subst j.
    inversion Hstep; subst s'. unfold processQueue. cbn [queue].
    match goal with
    | |- context [processLoop cfg (queue s) ?s1] =>
        destruct (processLoop_moves (queue s) s1 eq_refl)
          as (released & Hq & Hin & Hres & Hset & Hnext);
        cbn [queue inFlight resuming settled nextTicket] in Hin, Hres, Hset, Hnext
    end.
    split; [exact Hnext|]. exists o, released.
    rewrite Hres, Hset. repeat split; assumption.
Qed.

(** No step invents a ticket. *)
Lemma step_fresh :
  forall s l s', fresh s -> step cfg s l s' -> fresh s'.
Proof.
  intros s l s' [Hrun Hdone] Hstep. apply applyLabel_moves in Hstep.
  unfold fresh. destruct l as [operation | i o | i].
  - cbv zeta in Hstep. destruct Hstep as (Hnext & Hres & Hset & Hwhere).
    rewrite Hnext, Hres, Hset. split.
    + intros t Ht.
      assert (Hcases : In t (queue s ++ inFlight s)
                       \/ t = {| ticket := nextTicket s; taskOperation := operation |}).
      { destruct Hwhere as [[Hq Hi]|[Hq Hi]]; rewrite Hq, Hi in Ht;
          rewrite !in_app_iff in *; cbn [In] in Ht; intuition auto. }
      destruct Hcases as [Hold| ->]; [specialize (Hrun t Hold); lia | simpl; lia].
    + intros r Hr. specialize (Hdone r Hr). lia.
  - destruct Hstep as (Hnext & Hq & Hset & Hres & t & Hk & Hperm).
    rewrite Hnext, Hq, Hset, Hres. split.
    + intros x Hx. apply Hrun. rewrite in_app_iff in *.
      destruct Hx as [Hx|Hx]; [now left | right].
      apply (Permutation_in x (Permutation_sym Hperm)). now right.
    + intros r Hr. rewrite <- app_assoc in Hr. rewrite !in_app_iff in Hr.
      destruct Hr as [Hr|[[<-|[]]|Hr]].
      * apply Hdone. apply in_or_app. now left.
      * cbn [fst]. rewrite <- Hk. apply Hrun. apply in_or_app. right.
        apply (Permutation_in t (Permutation_sym Hperm)). now left.
      * apply Hdone. apply in_or_app. now right.
  - destruct Hstep as (Hnext & o & released & Hperm & Hset & Hq & Hin).
    rewrite Hnext, Hset, Hin. split.
    + intros x Hx. apply Hrun. rewrite Hq. rewrite !in_app_iff in *. tauto.
    + intros r Hr. apply Hdone. rewrite !in_app_iff in *.
      destruct Hr as [Hr|[Hr|[<-|[]]]].
      * left. apply (Permutation_in r (Permutation_sym Hperm)). now right.
      * now right.
      * left. apply (Permutation_in _ (Permutation_sym Hperm)). now left.
Qed.

Lemma reachable_fresh : forall s, reachable cfg s -> fresh s.
Proof.
  intros s Hreach. induction Hreach as [|s l s' _ IH Hstep].
  - split; intros x [].
  - exact (step_fresh s l s' IH Hstep).
Qed.

(** A batch that arrives starts to be tracked from the next ticket. *)
Lemma fresh_tracks : forall s, fresh s -> tracks (nextTicket s) [] executor s.
Proof.
  intros s [Hrun Hdone]. unfold tracks. repeat split.
  - intros t Ht Hle. specialize (Hrun t Ht). lia.
  - intros i o Hio Hle. specialize (Hdone (i, o) Hio). simpl in Hdone. lia.
  - simpl. lia.
  - intros i Hi. lia.
Qed.

Lemma nth_error_prefix :
  forall (A : Type) (l extra : list A) (i : nat) (x : A),
    nth_error l i = Some x -> nth_error (l ++ extra) i = Some x.
Proof.
  intros A l extra i x H. rewrite nth_error_app1; [exact H|].
  apply nth_error_Some. congruence.
Qed.

Lemma present_tracks :
  forall first history operation s,
    tracks first history executor s ->
    tracks first (history ++ [operation]) executor
      (executeWithConcurrencyControl cfg operation s).
Proof.
  intros first history operation s (Hlab & Hout & Hnext & Hall).
  pose proof (applyLabel_moves (Present operation) s _ eq_refl) as Hm.
  cbv zeta in Hm. destruct Hm as (Hn' & Hres & Hset & Hwhere).
  set (t := {| ticket := nextTicket s; taskOperation := operation |}) in *.
  assert (Hnew : nth_error (history ++ [operation]) (ticket t - first)
                 = Some (taskOperation t)).
  { cbn [ticket taskOperation t]. rewrite Hnext.
    replace (first + List.length history - first)%nat
      with (List.length history) by lia.
    rewrite nth_error_app2, Nat.sub_diag by lia. reflexivity. }
  unfold tracks. rewrite Hn', Hres, Hset. repeat split.
  - intros x Hx Hle.
    assert (Hcases : In x (queue s ++ inFlight s) \/ x = t).
    { destruct Hwhere as [[Hq Hi]|[Hq Hi]]; rewrite Hq, Hi in Hx;
        rewrite !in_app_iff in *; cbn [In] in Hx; intuition auto. }
    destruct Hcases as [Hold| ->]; [|exact Hnew].
    apply nth_error_prefix. now apply Hlab.
  - intros i o Hio Hle. destruct (Hout i o Hio Hle) as (op & Hop & Ho).
    exists op. split; [now apply nth_error_prefix | exact Ho].
  - rewrite Hnext, length_app. simpl. lia.
  - intros i Hi.
    destruct (Nat.eq_dec i (nextTicket s)) as [->|Hne].
    + destruct Hwhere as [[Hq Hin]|[Hq Hin]]; [left; rewrite Hq | right; left; rewrite Hin];
        rewrite map_app, in_app_iff; right; now left.
    + destruct (Hall i ltac:(lia)) as [H|[H|[H|H]]]; auto;
        destruct Hwhere as [[Hq Hin]|[Hq Hin]]; rewrite ?Hq, ?Hin;
          rewrite ?map_app, ?in_app_iff; auto.
Qed.

(** After the synchronous [operations.map(...)]: every call of the
    batch that arrives has been made. *)
Lemma presentAll_tracks :
  forall first operations history s,
    tracks first history executor s ->
    tracks first (history ++ operations) executor (presentAll cfg operations s).
Proof.
  intros first. induction operations as [|operation rest IH]; intros history s Htr.
  - rewrite app_nil_r. exact Htr.
  - unfold presentAll. cbn [fold_left].
    replace (history ++ operation :: rest) with ((history ++ [operation]) ++ rest)
      by (rewrite <- app_assoc; reflexivity).
    apply IH. now apply present_tracks.
Qed.

Lemma presentAll_coherent :
  forall operations s, coherent cfg s -> coherent cfg (presentAll cfg operations s).
Proof.
  induction operations as [|operation rest IH]; intros s Hco; [exact Hco|].
  unfold presentAll. cbn [fold_left]. apply IH. now apply present_coherent.
Qed.

Lemma presentAll_load :
  forall operations s,
    load (presentAll cfg operations s) = (load s + 2 * List.length operations)%nat.
Proof.
  induction operations as [|operation rest IH]; intros s.
  - unfold presentAll. simpl. lia.
  - unfold presentAll in *. cbn [fold_left]. rewrite IH.
    pose proof (applyLabel_moves (Present operation) s _ eq_refl) as Hm.
    cbv zeta in Hm. destruct Hm as (_ & Hres & _ & Hwhere).
    unfold load. rewrite Hres.
    destruct Hwhere as [[Hq Hi]|[Hq Hi]]; rewrite Hq, Hi, length_app; simpl; lia.
Qed.

(** A deliverable settlement can be delivered. *)
Lemma deliver_applies :
  forall s l,
    In l (deliverable executor s) -> exists s', applyLabel cfg l s = Some s'.
Proof.
  intros s l Hin. unfold deliverable in Hin. apply in_app_or in Hin.
  destruct Hin as [Hin|Hin]; apply in_map_iff in Hin.
  - destruct Hin as (t & <- & Ht). cbn [applyLabel]. unfold executorSettles.
    destruct (extract_In ticket t (inFlight s) Ht) as (t' & rest & Hex).
    rewrite Hex. eexists. reflexivity.
  - destruct Hin as (r & <- & Hr). cbn [applyLabel]. unfold resume.
    destruct (extract_In fst r (resuming s) Hr) as ([i' o] & rest & Hex).
    rewrite Hex. eexists. reflexivity.
Qed.

(** Delivering it keeps track of the calls and takes one unit of work
    off. *)
Lemma deliver_tracks :
  forall first history s l s',
    tracks first history executor s ->
    In l (deliverable executor s) ->
    applyLabel cfg l s = Some s' ->
    tracks first history executor s' /\ S (load s') = load s.
Proof.
  intros first history s l s' (Hlab & Hout & Hnext & Hall) Hin Hstep.
  apply applyLabel_moves in Hstep.
  unfold deliverable in Hin. apply in_app_or in Hin.
  destruct Hin as [Hin|Hin]; apply in_map_iff in Hin.
  - destruct Hin as (t0 & <- & Ht0).
    destruct Hstep as (Hn' & Hq & Hset & Hres & t & Hk & Hperm).
    unfold tracks, load. rewrite Hn', Hq, Hset, Hres. split.
    + repeat split.
      * intros x Hx. apply Hlab. rewrite in_app_iff in *.
        destruct Hx as [Hx|Hx]; [now left | right].
        apply (Permutation_in x (Permutation_sym Hperm)). now right.
      * intros i o Hio Hle. rewrite <- app_assoc in Hio. rewrite !in_app_iff in Hio.
        destruct Hio as [Hio|[[Heq|[]]|Hio]].
        -- apply Hout; [apply in_or_app; now left | exact Hle].
        -- inversion Heq; subst i o. exists (taskOperation t0). split; [|reflexivity].
           apply Hlab; [apply in_or_app; now right | exact Hle].
        -- apply Hout; [apply in_or_app; now right | exact Hle].
      * exact Hnext.
      * intros i Hi. destruct (Hall i Hi) as [H|[H|[H|H]]]; auto.
        -- apply (Permutation_in i (Permutation_map ticket Hperm)) in H.
           simpl in H. destruct H as [H|H]; [|auto].
           right; right; left. rewrite map_app, in_app_iff. right. simpl.
           left. congruence.
        -- right; right; left. rewrite map_app, in_app_iff. now left.
    + apply Permutation_length in Hperm. simpl in Hperm.
      rewrite length_app. simpl. lia.
  - destruct Hin as (r & <- & Hr).
    destruct Hstep as (Hn' & o & released & Hperm & Hset & Hq & Hin').
    unfold tracks, load. rewrite Hn', Hset, Hin'. split.
    + repeat split.
      * intros x Hx. apply Hlab. rewrite Hq. rewrite !in_app_iff in *. tauto.
      * intros i o' Hio Hle. apply Hout; [|exact Hle]. rewrite !in_app_iff in *.
        destruct Hio as [Hio|[Hio|[<-|[]]]].
        -- left. apply (Permutation_in _ (Permutation_sym Hperm)). now right.
        -- now right.
        -- left. apply (Permutation_in _ (Permutation_sym Hperm)). now left.
      * exact Hnext.
      * intros i Hi. destruct (Hall i Hi) as [H|[H|[H|H]]].
        -- rewrite Hq, map_app, in_app_iff in H.
           destruct H as [H|H]; [|now left].
           right; left. rewrite map_app, in_app_iff. now right.
        -- right; left. rewrite map_app, in_app_iff. now left.
        -- apply (Permutation_in i (Permutation_map fst Hperm)) in H.
           simpl in H. destruct H as [H|H]; [|auto].
           right; right; right. rewrite map_app, in_app_iff. right. simpl.
           left. congruence.
        -- right; right; right. rewrite map_app, in_app_iff. now left.
    + apply Permutation_length in Hperm. simpl in Hperm.
      apply (f_equal (@List.length Task)) in Hq.
      rewrite length_app in *. lia.
Qed.

(** Whatever happens on the executor, the calls stay tracked; calls
    that arrive lengthen the history. *)
Lemma handle_tracks :
  forall first history e s,
    tracks first history executor s ->
    exists extra, tracks first (history ++ extra) executor (handle cfg executor e s).
Proof.
  intros first history e s Htr. destruct e as [operations | k]; cbn [handle].
  - exists operations. now apply presentAll_tracks.
  - exists []. rewrite app_nil_r. cbv zeta.
    destruct (nth_error (deliverable executor s) _) as [l|] eqn:Hpick; [|exact Htr].
    apply nth_error_In in Hpick.
    destruct (applyLabel cfg l s) as [s'|] eqn:Hstep; [|exact Htr].
    exact (proj1 (deliver_tracks first history s l s' Htr Hpick Hstep)).
Qed.

Lemma assoc_nat_In :
  forall (i : nat) (l : list (nat * Outcome)),
    In i (map fst l) -> exists o, Json.assoc_nat i l = Some o /\ In (i, o) l.
Proof.
  intros i. induction l as [|[k o] l IH]; simpl; intros Hin; [contradiction|].
  destruct (Nat.eqb_spec k i) as [->|Hne].
  - exists o. split; [reflexivity | now left].
  - destruct Hin as [Heq|Hin]; [congruence|].
    destruct (IH Hin) as (o' & Hfind & Hin'). exists o'. split; [exact Hfind | now right].
Qed.

Lemma assoc_nat_Some_In :
  forall (i : nat) (l : list (nat * Outcome)) (o : Outcome),
    Json.assoc_nat i l = Some o -> In (i, o) l.
Proof.
  intros i. induction l as [|[k o'] l IH]; simpl; intros o H; [discriminate|].
  destruct (Nat.eqb_spec k i) as [->|Hne].
  - inversion H. now left.
  - right. now apply IH.
Qed.

(** Collecting the settled promises in input order. *)
Lemma collect_sound :
  forall done suffix index rs,
    (forall j operation o,
       nth_error suffix j = Some operation ->
       In ((index + j)%nat, o) done -> o = executor (index + j) operation) ->
    collect index suffix done = Some rs ->
    List.length rs = List.length suffix /\
    (forall j operation,
       nth_error suffix j = Some operation ->
       nth_error rs j
       = Some (bridgeResult operation (executor (index + j) operation))).
Proof.
  intros done. induction suffix as [|operation suffix IH]; intros index rs Hdone Hrs.
  - inversion Hrs. split; [reflexivity|]. intros [|j] op H; discriminate.
  - cbn [collect] in Hrs.
    destruct (Json.assoc_nat index done) as [o|] eqn:Hfind; [|discriminate].
    destruct (collect (S index) suffix done) as [rest|] eqn:Hrest; [|discriminate].
    inversion Hrs; subst rs. clear Hrs.
    destruct (IH (S index) rest) as (Hlen & Hnth); [|exact Hrest|].
    { intros j op o' Hj Hin. rewrite Nat.add_succ_l, <- Nat.add_succ_r in *.
      exact (Hdone (S j) op o' Hj Hin). }
    split; [simpl; now rewrite Hlen|].
    intros [|j] op Hj; simpl in Hj |- *.
    + inversion Hj; subst op.
      pose proof (Hdone 0%nat operation o eq_refl) as Ho.
      rewrite Nat.add_0_r in Ho |- *. do 2 f_equal.
      apply Ho. now apply assoc_nat_Some_In.
    + rewrite (Hnth j op Hj). now rewrite Nat.add_succ_r.
Qed.

Lemma collect_defined :
  forall done suffix index,
    (forall j, (j < List.length suffix)%nat -> In (index + j)%nat (map fst done)) ->
    exists rs, collect index suffix done = Some rs.
Proof.
  intros done. induction suffix as [|operation suffix IH]; intros index Hdone.
  - now exists [].
  - cbn [collect].
    destruct (assoc_nat_In index done) as (o & Hfind & _).
    { specialize (Hdone 0%nat ltac:(simpl; lia)). now rewrite Nat.add_0_r in Hdone. }
    rewrite Hfind.
    destruct (IH (S index)) as (rs & Hrs).
    { intros j Hj. specialize (Hdone (S j) ltac:(simpl; lia)).
      now rewrite Nat.add_succ_r in Hdone. }
    rewrite Hrs. eexists. reflexivity.
Qed.

Lemma filter_split_length :
  forall (f : BridgeResponse -> bool) l,
    (List.length (filter f l) + List.length (filter (fun r => negb (f r)) l)
     = List.length l)%nat.
Proof.
  intros f. induction l as [|r l IH]; simpl; [reflexivity|].
  destruct (f r); simpl; lia.
Qed.

Variable first : nat.
Variable operations : list BridgeOperation.

(** What [Promise.allSettled] hands over, whenever it does. *)
Lemma awaitAll_sound :
  forall events s extra rs,
    tracks first (operations ++ extra) executor s ->
    awaitAll cfg executor first operations events s = Some rs ->
    List.length rs = List.length operations /\
    (forall j operation,
       nth_error operations j = Some operation ->
       nth_error rs j
       = Some (bridgeResult operation (executor (first + j) operation))).
Proof.
  induction events as [|e rest IH]; intros s extra rs Htr Hrun;
    cbn [awaitAll] in Hrun;
    destruct (collect first operations (settled s)) as [rs'|] eqn:Hcollect;
    try discriminate.
  1, 2: inversion Hrun; subst rs';
    apply (collect_sound (settled s) operations first rs); [|exact Hcollect];
    intros j op o Hj Hin;
    destruct Htr as (_ & Hout & _);
    destruct (Hout (first + j)%nat o) as (op' & Hop' & Ho);
      [apply in_or_app; now right | lia |];
    replace (first + j - first)%nat with j in Hop' by lia;
    rewrite (nth_error_prefix _ operations extra j op Hj) in Hop';
    congruence.
  destruct (handle_tracks first (operations ++ extra) e s Htr) as (extra' & Htr').
  rewrite <- app_assoc in Htr'.
  exact (IH _ _ rs Htr' Hrun).
Qed.

(** Once nothing is waiting, running or resuming, every call of the
    batch has settled. *)
Lemma quiet_collects :
  forall s extra,
    tracks first (operations ++ extra) executor s ->
    queue s = [] -> inFlight s = [] -> resuming s = [] ->
    exists rs, collect first operations (settled s) = Some rs.
Proof.
  intros s extra (_ & _ & Hnext & Hall) Hq Hi Hr.
  apply collect_defined. intros j Hj.
  assert (Hin : (first <= first + j < nextTicket s)%nat)
    by (rewrite Hnext, length_app; lia).
  destruct (Hall (first + j)%nat Hin) as [H|[H|[H|H]]];
    rewrite ?Hq, ?Hi, ?Hr in H; try contradiction. exact H.
Qed.

(** With room for at least one invocation the event loop has something
    to deliver as long as a call of the batch is pending, so the batch
    goes on once the work at hand and the work that arrives have been
    delivered. *)
Lemma awaitAll_total :
  0 < maxConcurrent cfg ->
  forall events s extra,
    coherent cfg s ->
    tracks first (operations ++ extra) executor s ->
    (load s + 2 * arrivals events <= deliveries events)%nat ->
    exists rs, awaitAll cfg executor first operations events s = Some rs.
Proof.
  intros Hcap. induction events as [|e rest IH]; intros s extra Hco Htr Hload;
    cbn [awaitAll];
    destruct (collect first operations (settled s)) as [rs'|] eqn:Hcollect;
    try (now exists rs').
  - exfalso. cbn [arrivals deliveries] in Hload. unfold load in Hload.
    destruct (queue s) eqn:Hq, (inFlight s) eqn:Hi, (resuming s) eqn:Hr;
      simpl in Hload; try lia.
    destruct (quiet_collects s extra Htr Hq Hi Hr) as (rs & Hrs). congruence.
  - destruct e as [arriving | k]; cbn [handle arrivals deliveries] in *.
    + apply (IH _ (extra ++ arriving)).
      * now apply presentAll_coherent.
      * rewrite app_assoc. now apply presentAll_tracks.
      * rewrite presentAll_load. lia.
    + cbv zeta. set (labels := deliverable executor s).
      assert (Hlen : List.length labels
                     = (List.length (inFlight s) + List.length (resuming s))%nat).
      { unfold labels, deliverable. now rewrite length_app, !length_map. }
      assert (Hpos : (0 < List.length labels)%nat).
      { destruct Hco as (Hcount & _ & Hfull). rewrite Hlen.
        destruct (inFlight s) eqn:Hi; [|simpl; lia].
        destruct (resuming s) eqn:Hr; [|simpl; lia].
        exfalso. destruct (queue s) eqn:Hq.
        - destruct (quiet_collects s extra Htr Hq Hi Hr) as (rs & Hrs). congruence.
        - specialize (Hfull ltac:(discriminate)). simpl in Hcount. lia. }
      destruct (nth_error labels (Nat.modulo k (List.length labels)))
        as [l|] eqn:Hpick.
      2:{ exfalso. apply nth_error_None in Hpick.
          pose proof (Nat.mod_upper_bound k (List.length labels) ltac:(lia)). lia. }
      apply nth_error_In in Hpick.
      destruct (deliver_applies s l Hpick) as (s' & Hstep). rewrite Hstep.
      destruct (deliver_tracks first _ s l s' Htr Hpick Hstep) as (Htr' & Hless).
      apply (IH s' extra).
      * exact (step_coherent cfg s l s' Hco Hstep).
      * exact Htr'.
      * lia.
Qed.

End BatchFacts.

(** C1.  The executor object is shared: a batch can arrive in any state
    the executor can reach, while calls of earlier batches are waiting
    or running, and other batches can arrive while it waits.  For every
    batch of [n] operations and everything that happens on the executor
    afterwards, in any order: whenever [executeBatch] returns, the
    [results] array has length [n]; its [i]-th entry is made from the
    way the executor invocation for [operations[i]] settled, and from
    no other: the response the invocation was fulfilled with, or, when
    it was rejected, a failure with code [EXECUTION_ERROR], the message
    of the reason (or [Operation failed] when that is empty) and the
    category and the name of [operations[i]]; and
    [summary.succeeded + summary.failed = n].  And it does return when
    the executor has room for at least one invocation and the event
    loop delivers the settlements of the calls at hand and of those
    that arrive. *)
Theorem executeBatch_results_follow_input_order :
  forall (cfg : ParallelExecutor.ExecutorConfig) (s : ParallelExecutor.State)
         (operations : list Protocol.BridgeOperation)
         (executor : nat -> Protocol.BridgeOperation -> ParallelExecutor.Outcome)
         (events : list ParallelExecutor.Event) (totalDurationMs : Z),
    ParallelExecutor.reachable cfg s ->
    (forall response,
       ParallelExecutor.executeBatch cfg s operations executor events totalDurationMs
         = Some response ->
       List.length (Protocol.results response) = List.length operations /\
       (forall i operation,
          nth_error operations i = Some operation ->
          nth_error (Protocol.results response) i
          = Some match executor (ParallelExecutor.nextTicket s + i)%nat operation with
                 | JS.Fulfilled value => value
                 | JS.Rejected reason =>
                     {| Protocol.success := false;
                        Protocol.responseData := None;
                        Protocol.error :=
                          Some {| Protocol.errorMessage :=
                                    if String.eqb (JS.message reason) ""
                                    then "Operation failed" else JS.message reason;
                                  Protocol.code := "EXECUTION_ERROR";
                                  Protocol.details := Some reason |};
                        Protocol.metadata :=
                          Some {| Protocol.serverName :=
                                    Protocol.categoryString
                                      (Protocol.category operation);
                                  Protocol.operationName :=
                                    Protocol.operation operation;
                                  Protocol.durationMs := 0;
                                  Protocol.cached := false;
                                  Protocol.tokensEstimate := None |} |}
                 end) /\
       Protocol.succeeded (Protocol.summary response)
         + Protocol.failed (Protocol.summary response)
         = Z.of_nat (List.length operations) /\
       Protocol.total (Protocol.summary response)
         = Z.of_nat (List.length operations)) /\
    (0 < ParallelExecutor.maxConcurrent cfg ->
     (ParallelExecutor.load s + 2 * List.length operations
      + 2 * ParallelExecutor.arrivals events
      <= ParallelExecutor.deliveries events)%nat ->
     exists response,
       ParallelExecutor.executeBatch cfg s operations executor events totalDurationMs
         = Some response).
Proof.
  intros cfg s operations executor events totalDurationMs Hreach.
  assert (Htr : ParallelExecutor.tracks (ParallelExecutor.nextTicket s)
                  (operations ++ []) executor
                  (ParallelExecutor.presentAll cfg operations s)).
  { rewrite app_nil_r.
    apply (presentAll_tracks cfg executor _ operations []).
    apply fresh_tracks. now apply (reachable_fresh cfg). }
  unfold ParallelExecutor.executeBatch. split.
  - intros response Hrun.
    destruct (ParallelExecutor.awaitAll cfg executor _ operations events _)
      as [rs|] eqn:Hawait; [|discriminate].
    destruct (awaitAll_sound cfg executor _ operations events _ [] rs Htr Hawait)
      as (Hlen & Hnth).
    inversion Hrun; subst response. clear Hrun.
    cbn [Protocol.results Protocol.summary ParallelExecutor.summarize
         Protocol.succeeded Protocol.failed Protocol.total].
    split; [exact Hlen|]. split; [|split; [|reflexivity]].
    + intros i operation Hi. rewrite (Hnth i operation Hi).
      unfold ParallelExecutor.bridgeResult, ParallelExecutor.rejectionResponse.
      reflexivity.
    + rewrite <- Hlen, <- (filter_split_length Protocol.success rs). lia.
  - intros Hcap Hload.
    destruct (awaitAll_total cfg executor (ParallelExecutor.nextTicket s)
                operations Hcap events
                (ParallelExecutor.presentAll cfg operations s) [])
      as (rs & Hrs).
    + apply presentAll_coherent. apply reachable_coherent; [lia | exact Hreach].
    + exact Htr.
    + rewrite presentAll_load. lia.
    + rewrite Hrs. eexists. reflexivity.
Qed.

Lemma executeBatch_results_follow_input_order_witness :
  ParallelExecutor.reachable Fixtures.capTwo Fixtures.threePresented /\
  exists response,
    ParallelExecutor.executeBatch Fixtures.capTwo Fixtures.threePresented
      Fixtures.twoMoreOperations Fixtures.mockExecutor Fixtures.busyEvents 57
    = Some response /\
    List.length (Protocol.results response) = 2%nat /\
    Protocol.succeeded (Protocol.summary response)
      + Protocol.failed (Protocol.summary response) = 2.
Proof.
  assert (Hr : ParallelExecutor.reachable Fixtures.capTwo Fixtures.threePresented).
  { unfold Fixtures.threePresented, Fixtures.threeOperations. cbn [fold_left].
    eapply (ParallelExecutor.reachable_step Fixtures.capTwo _
             (ParallelExecutor.Present (Fixtures.mockOperation "success2")) _);
      [|reflexivity].
    eapply (ParallelExecutor.reachable_step Fixtures.capTwo _
             (ParallelExecutor.Present (Fixtures.mockOperation "fail1")) _);
      [|reflexivity].
    eapply (ParallelExecutor.reachable_step Fixtures.capTwo _
             (ParallelExecutor.Present (Fixtures.mockOperation "success1")) _);
      [|reflexivity].
    apply ParallelExecutor.reachable_idle. }
  split; [exact Hr|].
  destruct (executeBatch_results_follow_input_order Fixtures.capTwo
              Fixtures.threePresented Fixtures.twoMoreOperations
              Fixtures.mockExecutor Fixtures.busyEvents 57 Hr)
    as (Hpartial & Htotal).
  destruct (Htotal ltac:(simpl; lia) ltac:(vm_compute; lia)) as (response & Hrun).
  destruct (Hpartial response Hrun) as (Hlen & _ & Hsum & _).
  exists response. repeat split; assumption.
Defined.

(** An executor capped at zero queues every call and never starts one:
    the batch of the example never settles. *)
Example executeBatch_without_room_never_settles :
  ParallelExecutor.executeBatch Fixtures.capZero ParallelExecutor.idle
    Fixtures.threeOperations Fixtures.mockExecutor Fixtures.sixDeliveries 57 = None.
Proof. reflexivity. Qed.

(** The batch of the unit test with mixed outcomes, delivered last
    settlement first. *)
Example executeBatch_mixed_outcomes :
  option_map (fun response =>
                (map Protocol.success (Protocol.results response),
                 Protocol.succeeded (Protocol.summary response),
                 Protocol.failed (Protocol.summary response)))
    (ParallelExecutor.executeBatch Fixtures.capTwo ParallelExecutor.idle
       Fixtures.threeOperations Fixtures.mockExecutor Fixtures.sixDeliveries 57)
  = Some ([true; false; true], 2, 1).
Proof. reflexivity. Qed.

(** A batch that arrives while the three calls of an earlier one are
    waiting and running, and before a later one: its results are its
    own. *)
Example executeBatch_on_busy_executor :
  option_map (fun response =>
                map (fun r => (Protocol.success r,
                               option_map Protocol.operationName (Protocol.metadata r)))
                    (Protocol.results response))
    (ParallelExecutor.executeBatch Fixtures.capTwo Fixtures.threePresented
       Fixtures.twoMoreOperations Fixtures.mockExecutor Fixtures.busyEvents 57)
  = Some [(false, Some "fail2"); (true, Some "success3")].
Proof. reflexivity. Qed.

(** ** More on the retry wrapper *)

Section RetryRunFacts.
Import JS ErrorHandler.
Context {T : Type}.
Variable cfg : RetryConfig.
Variable operation : nat -> Settled T Error.

(** The loop, entered for attempt [ncalls + 1] after [ncalls] rejected
    invocations each followed by a sleep. *)
Lemma attemptLoop_accounting :
  forall budget attempt ncalls nsleeps lastError,
    attempt = Z.of_nat ncalls + 1 ->
    attempt + Z.of_nat budget = Z.max 0 (maxAttempts cfg) + 1 ->
    (attempt <= maxAttempts cfg -> nsleeps = ncalls) ->
    (maxAttempts cfg < attempt -> nsleeps = Nat.pred ncalls) ->
    let r := attemptLoop cfg operation budget attempt ncalls nsleeps lastError in
    (ncalls <= calls r <= ncalls + budget)%nat /\
    sleeps r = Nat.pred (calls r) /\
    (success (returned r) = true ->
     exists v,
       operation (Nat.pred (calls r)) = Fulfilled v /\
       returned r = {| success := true; result := Some v; error := None;
                       attempts := Z.of_nat (calls r) |}) /\
    (success (returned r) = false ->
     result (returned r) = None /\ error (returned r) <> None \/
     returned r = failure cfg lastError /\ calls r = ncalls).
Proof.
  induction budget as [|budget IH];
    intros attempt ncalls nsleeps lastError Hat Hsum Hin Hout; cbn [attemptLoop].
  - cbn [calls sleeps returned]. split; [lia|]. split; [apply Hout; lia|].
    split; [discriminate|]. intros _. right. split; reflexivity.
  - destruct (Z.leb_spec attempt (maxAttempts cfg)) as [Hle|Hgt].
    + destruct (operation ncalls) as [v|e] eqn:Hop.
      * cbn [calls sleeps returned success]. split; [lia|].
        split; [simpl; now apply Hin|]. split; [|discriminate].
        intros _. exists v. simpl Nat.pred. split; [exact Hop|].
        f_equal. lia.
      * assert (Hnext : forall ns lastE,
                  (attempt + 1 <= maxAttempts cfg -> ns = S ncalls) ->
                  (maxAttempts cfg < attempt + 1 -> ns = Nat.pred (S ncalls)) ->
                  let r := attemptLoop cfg operation budget (attempt + 1)
                             (S ncalls) ns (Some e) in
                  (ncalls <= calls r <= ncalls + S budget)%nat /\
                  sleeps r = Nat.pred (calls r) /\
                  (success (returned r) = true ->
                   exists v,
                     operation (Nat.pred (calls r)) = Fulfilled v /\
                     returned r = {| success := true; result := Some v;
                                     error := None;
                                     attempts := Z.of_nat (calls r) |}) /\
                  (success (returned r) = false ->
                   result (returned r) = None /\ error (returned r) <> None \/
                   returned r = failure cfg lastE /\ calls r = ncalls)).
        { intros ns lastE H1 H2.
          destruct (IH (attempt + 1) (S ncalls) ns (Some e)
                      ltac:(lia) ltac:(lia) H1 H2) as (Hc & Hs & Hok & Hko).
          cbv zeta. split; [lia|]. split; [exact Hs|]. split; [exact Hok|].
          intros Hf. left. destruct (Hko Hf) as [Hl|[Hr _]]; [exact Hl|].
          rewrite Hr. simpl. split; [reflexivity | discriminate]. }
        destruct (Z.ltb_spec attempt (maxAttempts cfg)) as [Hlt|Hge].
        -- destruct (isRetriable e).
           ++ apply Hnext; intros; [rewrite (Hin Hle); reflexivity | lia].
           ++ cbn [calls sleeps returned success failure result error].
              split; [lia|]. split; [simpl; now apply Hin|].
              split; [discriminate|]. intros _. left.
              split; [reflexivity | discriminate].
        -- apply Hnext; intros; [lia | simpl; now apply Hin].
    + cbn [calls sleeps returned]. split; [lia|]. split; [now apply Hout|].
      split; [discriminate|]. intros _. right. split; reflexivity.
Qed.

Lemma attemptLoop_transient :
  forall k v budget attempt ncalls nsleeps lastError,
    Z.of_nat k + attempt <= maxAttempts cfg ->
    (k < budget)%nat ->
    (forall j, (j < k)%nat ->
       exists e, operation (ncalls + j)%nat = Rejected e /\ isRetriable e = true) ->
    operation (ncalls + k)%nat = Fulfilled v ->
    attemptLoop cfg operation budget attempt ncalls nsleeps lastError
    = mkRun {| success := true; result := Some v; error := None;
               attempts := attempt + Z.of_nat k |}
            (S (ncalls + k)) (nsleeps + k).
Proof.
  induction k as [|k IH]; intros v budget attempt ncalls nsleeps lastError
                                 Hle Hb Hfail Hok;
    (destruct budget as [|budget]; [lia|]); cbn [attemptLoop].
  - rewrite Nat.add_0_r in Hok. rewrite !Nat.add_0_r, Z.add_0_r.
    assert (H : (attempt <=? maxAttempts cfg) = true) by (apply Z.leb_le; lia).
    rewrite H, Hok. reflexivity.
  - assert (H : (attempt <=? maxAttempts cfg) = true) by (apply Z.leb_le; lia).
    assert (H' : (attempt <? maxAttempts cfg) = true) by (apply Z.ltb_lt; lia).
    destruct (Hfail 0%nat ltac:(lia)) as (e & He & Hr).
    rewrite Nat.add_0_r in He. rewrite H, He, H', Hr.
    rewrite (IH v budget (attempt + 1) (S ncalls) (S nsleeps) (Some e)).
    + f_equal; [f_equal; lia | lia | lia].
    + lia.
    + lia.
    + intros j Hj. destruct (Hfail (S j) ltac:(lia)) as (e' & He' & Hr').
      exists e'. split; [|exact Hr'].
      replace (S ncalls + j)%nat with (ncalls + S j)%nat by lia. exact He'.
    + replace (S ncalls + k)%nat with (ncalls + S k)%nat by lia. exact Hok.
Qed.

End RetryRunFacts.

(** X1.  Whatever the operation does, [executeWithRetry] invokes it at
    most [maxAttempts] times (never for a non-positive [maxAttempts]),
    and it sleeps between consecutive invocations only: one sleep fewer
    than invocations, none after the last. *)
Theorem executeWithRetry_calls_and_sleeps :
  forall (T : Type) (cfg : ErrorHandler.RetryConfig)
         (operation : nat -> JS.Settled T JS.Error),
    Z.of_nat (ErrorHandler.calls (ErrorHandler.executeWithRetry cfg operation))
      <= Z.max 0 (ErrorHandler.maxAttempts cfg) /\
    ErrorHandler.sleeps (ErrorHandler.executeWithRetry cfg operation)
      = Nat.pred (ErrorHandler.calls (ErrorHandler.executeWithRetry cfg operation)).
Proof.
  intros T cfg operation. unfold ErrorHandler.executeWithRetry.
  destruct (attemptLoop_accounting cfg operation
              (Z.to_nat (ErrorHandler.maxAttempts cfg)) 1 0%nat 0%nat None
              eq_refl ltac:(lia) ltac:(reflexivity) ltac:(reflexivity))
    as (Hc & Hs & _).
  split; [lia | exact Hs].
Qed.

(** X2.  A result with [success = true] carries the value of the last
    invocation made, no error, and the number of invocations as
    [attempts]; a result with [success = false] carries no value. *)
Theorem executeWithRetry_result_shape :
  forall (T : Type) (cfg : ErrorHandler.RetryConfig)
         (operation : nat -> JS.Settled T JS.Error),
    (ErrorHandler.success
       (ErrorHandler.returned (ErrorHandler.executeWithRetry cfg operation)) = true ->
     exists v,
       operation
         (Nat.pred (ErrorHandler.calls (ErrorHandler.executeWithRetry cfg operation)))
         = JS.Fulfilled v /\
       ErrorHandler.returned (ErrorHandler.executeWithRetry cfg operation)
       = {| ErrorHandler.success := true; ErrorHandler.result := Some v;
            ErrorHandler.error := None;
            ErrorHandler.attempts :=
              Z.of_nat (ErrorHandler.calls
                          (ErrorHandler.executeWithRetry cfg operation)) |}) /\
    (ErrorHandler.success
       (ErrorHandler.returned (ErrorHandler.executeWithRetry cfg operation)) = false ->
     ErrorHandler.result
       (ErrorHandler.returned (ErrorHandler.executeWithRetry cfg operation)) = None).
Proof.
  intros T cfg operation. unfold ErrorHandler.executeWithRetry.
  destruct (attemptLoop_accounting cfg operation
              (Z.to_nat (ErrorHandler.maxAttempts cfg)) 1 0%nat 0%nat None
              eq_refl ltac:(lia) ltac:(reflexivity) ltac:(reflexivity))
    as (_ & _ & Hok & Hko).
  split; [exact Hok|].
  intros Hf. destruct (Hko Hf) as [[Hr _]|[Hr _]]; [exact Hr|].
  rewrite Hr. reflexivity.
Qed.

Lemma executeWithRetry_result_shape_witness :
  exists v,
    Fixtures.failsTwice
      (Nat.pred (ErrorHandler.calls
                   (ErrorHandler.executeWithRetry Fixtures.retry3 Fixtures.failsTwice)))
    = JS.Fulfilled v.
Proof.
  destruct (executeWithRetry_result_shape unit Fixtures.retry3 Fixtures.failsTwice)
    as [Hok _].
  destruct (Hok eq_refl) as (v & Hv & _). now exists v.
Defined.

(** X3.  When the first [k] invocations are rejected with retriable
    errors and invocation [k + 1] is fulfilled, with [k + 1] within
    [maxAttempts], the wrapper returns that value with
    [attempts = k + 1] after [k + 1] invocations and [k] sleeps. *)
Theorem executeWithRetry_succeeds_after_transient_failures :
  forall (T : Type) (cfg : ErrorHandler.RetryConfig)
         (operation : nat -> JS.Settled T JS.Error) (k : nat) (v : T),
    Z.of_nat (S k) <= ErrorHandler.maxAttempts cfg ->
    (forall j, (j < k)%nat ->
       exists e, operation j = JS.Rejected e /\ ErrorHandler.isRetriable e = true) ->
    operation k = JS.Fulfilled v ->
    ErrorHandler.executeWithRetry cfg operation
    = ErrorHandler.mkRun
        {| ErrorHandler.success := true; ErrorHandler.result := Some v;
           ErrorHandler.error := None;
           ErrorHandler.attempts := Z.of_nat (S k) |}
        (S k) k.
Proof.
  intros T cfg operation k v Hle Hfail Hok. unfold ErrorHandler.executeWithRetry.
  rewrite (attemptLoop_transient cfg operation k v); try assumption; try lia.
  f_equal. f_equal. lia.
Qed.

Lemma executeWithRetry_succeeds_after_transient_failures_witness :
  ErrorHandler.executeWithRetry Fixtures.retry3 Fixtures.failsTwice
  = ErrorHandler.mkRun
      {| ErrorHandler.success := true; ErrorHandler.result := Some tt;
         ErrorHandler.error := None; ErrorHandler.attempts := 3 |}
      3 2.
Proof.
  apply (executeWithRetry_succeeds_after_transient_failures unit Fixtures.retry3
           Fixtures.failsTwice 2 tt).
  - simpl. lia.
  - intros [|[|j]] Hj; [eexists; split; reflexivity
                       | eexists; split; reflexivity | lia].
  - reflexivity.
Defined.

(** ** More on the upstream client *)

Section InfixFacts.
Import JS.

Lemma startsWith_before_numeral :
  forall p a d r,
    numeralFree p = true -> numeralChar d = true ->
    startsWith (a ++ String d r) p = startsWith a p.
Proof.
  unfold numeralFree, chars. intros p a. revert p.
  induction a as [|y a IH]; intros p d r Hp Hd.
  - destruct p as [|x p]; [reflexivity|]. simpl in *.
    apply andb_true_iff in Hp. destruct Hp as [Hx _].
    destruct (Ascii.eqb_spec x d) as [->|Hne]; [|reflexivity].
    rewrite Hd in Hx. discriminate.
  - destruct p as [|x p]; [reflexivity|]. simpl in *.
    apply andb_true_iff in Hp. destruct Hp as [_ Hp].
    now rewrite (IH p d r Hp Hd).
Qed.

Lemma includes_around_numeral :
  forall p a d r,
    numeralFree p = true -> numeralChar d = true ->
    includes (a ++ String d r) p = orb (includes a p) (includes r p).
Proof.
  intros p a d r Hp Hd. induction a as [|y a IH].
  - cbn [String.append includes].
    pose proof (startsWith_before_numeral p EmptyString d r Hp Hd) as H.
    cbn [String.append] in H. now rewrite H.
  - change (String y a ++ String d r)%string with (String y (a ++ String d r)).
    cbn [includes]. rewrite IH.
    change (String y (a ++ String d r)) with (String y a ++ String d r)%string.
    rewrite (startsWith_before_numeral p (String y a) d r Hp Hd).
    now rewrite orb_assoc.
Qed.

Lemma includes_after_numeral :
  forall p n b,
    numeralFree p = true -> p <> EmptyString -> numeral n = true ->
    includes (n ++ b) p = includes b p.
Proof.
  intros p n b Hp Hne. induction n as [|d n IH]; intros Hn; [reflexivity|].
  unfold numeral, chars in Hn. simpl in Hn.
  apply andb_true_iff in Hn. destruct Hn as [Hd Hn].
  pose proof (includes_around_numeral p EmptyString d (n ++ b) Hp Hd) as H.
  cbn [String.append] in H. change (String d n ++ b)%string with (String d (n ++ b)).
  rewrite H, (IH Hn). destruct p; [congruence | reflexivity].
Qed.

Lemma includes_numeral_infix :
  forall p a n b,
    numeralFree p = true -> p <> EmptyString ->
    numeral n = true -> n <> EmptyString ->
    includes (a ++ n ++ b) p = orb (includes a p) (includes b p).
Proof.
  intros p a n b Hp Hne Hn Hnn. destruct n as [|d n]; [congruence|].
  unfold numeral, chars in Hn. simpl in Hn.
  apply andb_true_iff in Hn. destruct Hn as [Hd Hn].
  change (String d n ++ b)%string with (String d (n ++ b)).
  rewrite (includes_around_numeral p a d (n ++ b) Hp Hd).
  now rewrite (includes_after_numeral p n b Hp Hne Hn).
Qed.

Lemma showZ_nonempty : forall z, showZ z <> EmptyString.
Proof.
  intros z. unfold showZ, NilZero.string_of_int, NilZero.string_of_uint.
  destruct (Z.to_int z) as [d|d]; [destruct d|]; discriminate.
Qed.

Lemma existsb_includes_numeral_infix :
  forall ps a n b,
    forallb numeralFree ps = true ->
    forallb (fun p => negb (String.eqb p "")) ps = true ->
    numeral n = true -> n <> EmptyString ->
    existsb (includes (a ++ n ++ b)) ps
    = existsb (fun p => orb (includes a p) (includes b p)) ps.
Proof.
  induction ps as [|p ps IH]; intros a n b Hf He Hn Hnn; simpl; [reflexivity|].
  simpl in Hf, He.
  apply andb_true_iff in Hf. destruct Hf as [Hp Hf].
  apply andb_true_iff in He. destruct He as [Hq He].
  apply negb_true_iff, String.eqb_neq in Hq.
  now rewrite (includes_numeral_infix p a n b Hp Hq Hn Hnn), (IH a n b Hf He Hn Hnn).
Qed.

End InfixFacts.

Section TransportFacts.
Import JS Json MCPClient MCPTransport.

Lemma tableHas_In : forall id table, tableHas id table = true <-> In id table.
Proof.
  intros id table. unfold tableHas. rewrite existsb_exists. split.
  - intros (x & Hx & Heq). apply Z.eqb_eq in Heq. now subst.
  - intros H. exists id. split; [exact H | apply Z.eqb_refl].
Qed.

Lemma tableDelete_gone : forall id table, tableHas id (tableDelete id table) = false.
Proof.
  intros id table. destruct (tableHas id (tableDelete id table)) eqn:H; [|reflexivity].
  apply tableHas_In, tableDelete_In in H. destruct H as [_ H]. congruence.
Qed.

Lemma tableDelete_NoDup :
  forall id table, NoDup table -> NoDup (tableDelete id table).
Proof. intros id table. unfold tableDelete. apply NoDup_filter. Qed.

Lemma timeoutError_retriable :
  forall n id, ErrorHandler.isRetriable (timeoutError n id) = true.
Proof.
  intros n id. unfold ErrorHandler.isRetriable.
  assert (Hnon : existsb (includes (toLowerCase (message (timeoutError n id))))
                   ErrorHandler.nonRetriablePatterns = false).
  { unfold timeoutError. cbn [message].
    rewrite toLowerCase_append, toLowerCase_append.
    rewrite (toLowerCase_numeral _ (showZ_numeral id)).
    rewrite existsb_includes_numeral_infix;
      [ destruct n; reflexivity | reflexivity | reflexivity
      | apply showZ_numeral | apply showZ_nonempty ]. }
  rewrite Hnon. destruct (existsb _ ErrorHandler.retriablePatterns); reflexivity.
Qed.

Lemma react_wellFormed :
  forall c ev, pendingWellFormed c -> pendingWellFormed (react c ev).
Proof.
  intros c ev (Hid & Hnd & Hrange). unfold pendingWellFormed.
  destruct ev as [| | method params | m | id | e | code |]; cbn [react].
  - simpl; split; [assumption | split; assumption].
  - simpl; split; [assumption | split; assumption].
  - unfold sendRequest. destruct (negb (processAlive c)); [simpl; split; [assumption | split; assumption]|].
    cbn [requestId pendingRequests]. unfold tableSet.
    destruct (tableHas (requestId c + 1) (pendingRequests c)) eqn:Hhas.
    + apply tableHas_In, Hrange in Hhas. lia.
    + split; [lia|]. split.
      * apply NoDup_app; [exact Hnd | repeat constructor; intros [] |].
        intros x Hx [<-|[]]. apply Hrange in Hx. lia.
      * intros id Hin. apply in_app_or in Hin.
        destruct Hin as [Hin|[<-|[]]]; [apply Hrange in Hin|]; lia.
  - unfold handleMessage. destruct (msgId m) as [[id|s]|];
      try (simpl; split; [assumption | split; assumption]).
    destruct (tableHas id (pendingRequests c)); [|simpl; split; [assumption | split; assumption]].
    cbn [fst withPending requestId pendingRequests].
    split; [exact Hid|]. split; [now apply tableDelete_NoDup|].
    intros x Hx. apply tableDelete_In in Hx. now apply Hrange.
  - unfold timeoutFires. destruct (tableHas id (pendingRequests c)); [|simpl; split; [assumption | split; assumption]].
    cbn [fst withPending requestId pendingRequests].
    split; [exact Hid|]. split; [now apply tableDelete_NoDup|].
    intros x Hx. apply tableDelete_In in Hx. now apply Hrange.
  - unfold handleProcessError.
    pose proof (rejectLoop_clears e (pendingRequests c)) as Hclear.
    destruct (rejectLoop _ _ _ _) as [table log]. cbn [fst] in *. subst table.
    cbn [requestId pendingRequests]. split; [exact Hid|].
    split; [constructor | intros x []].
  - unfold handleProcessExit.
    pose proof (rejectLoop_clears (exitError (name c) code) (pendingRequests c))
      as Hclear.
    destruct (rejectLoop _ _ _ _) as [table log]. cbn [fst] in *. subst table.
    cbn [requestId pendingRequests]. split; [exact Hid|].
    split; [constructor | intros x []].
  - unfold disconnect.
    destruct (processAlive c); (simpl; split; [assumption | split; assumption]).
Qed.

Lemma fold_react_wellFormed :
  forall events c, pendingWellFormed c -> pendingWellFormed (fold_left react events c).
Proof.
  induction events as [|ev events IH]; intros c Hc; simpl; [exact Hc|].
  apply IH. now apply react_wellFormed.
Qed.

(** *** Lines *)

Lemma singleLine_app :
  forall a b, singleLine (a ++ b) = andb (singleLine a) (singleLine b).
Proof.
  unfold singleLine, chars. induction a as [|c a IH]; intros b; simpl; [reflexivity|].
  now rewrite IH, andb_assoc.
Qed.

Lemma frames_single :
  forall b a s, singleLine b = true -> frames a (b ++ s) = frames (a ++ b) s.
Proof.
  unfold singleLine, chars. induction b as [|c b IH]; intros a s Hb; simpl.
  - assert (Ha : forall x : string, (x ++ "")%string = x)
      by (induction x as [|y x IHx]; simpl; [reflexivity | now rewrite IHx]).
    now rewrite Ha.
  - simpl in Hb. apply andb_true_iff in Hb. destruct Hb as [Hc Hb].
    apply negb_true_iff in Hc. rewrite Hc, (IH _ s Hb).
    now rewrite string_append_assoc.
Qed.

Lemma frames_rest_single :
  forall s a, singleLine a = true -> singleLine (snd (frames a s)) = true.
Proof.
  induction s as [|c s IH]; intros a Ha; simpl; [exact Ha|].
  destruct (isNewline c) eqn:Hc.
  - specialize (IH EmptyString eq_refl).
    destruct (frames EmptyString s) as [lines rest]. exact IH.
  - apply IH. rewrite singleLine_app, Ha. unfold singleLine, chars. simpl.
    now rewrite Hc.
Qed.

Lemma frames_app :
  forall s1 s2 a,
    frames a (s1 ++ s2)
    = (fst (frames a s1) ++ fst (frames (snd (frames a s1)) s2),
       snd (frames (snd (frames a s1)) s2)).
Proof.
  induction s1 as [|c s1 IH]; intros s2 a; simpl.
  - now destruct (frames a s2).
  - destruct (isNewline c).
    + rewrite (IH s2 EmptyString).
      destruct (frames EmptyString s1) as [l1 r1]. reflexivity.
    + apply IH.
Qed.

Lemma fold_handleLine_deliveries :
  forall parse lines c ds,
    fold_left (handleLine parse) lines (c, ds)
    = (fst (fold_left (handleLine parse) lines (c, [])),
       ds ++ snd (fold_left (handleLine parse) lines (c, []))).
Proof.
  intros parse. induction lines as [|line lines IH]; intros c ds; simpl.
  - now rewrite app_nil_r.
  - unfold handleLine at 2 4 6. cbn [fst snd].
    destruct (String.eqb (ResponseFormatter.trim line) ""); [apply IH|].
    destruct (parse (ResponseFormatter.trim line)) as [m|]; [|apply IH].
    destruct (handleMessage m c) as [c' ds'].
    rewrite (IH c' (ds ++ ds')), (IH c' ([] ++ ds')). cbn [fst snd].
    now rewrite app_assoc.
Qed.

End TransportFacts.

(** X5.  Every error the client produces on its own account, for any
    upstream and any request id, is classified as retriable: the
    request timeout ([Request <id> to <name> timed out], which matches
    none of the listed patterns, not even [timeout]), the call on a
    client that is not initialised, and the request on a client whose
    process is not running. *)
Theorem client_errors_are_retriable :
  forall (n : MCPClient.ServerName) (id : Z),
    ErrorHandler.isRetriable (MCPTransport.timeoutError n id) = true /\
    existsb (JS.includes
               (JS.toLowerCase (JS.message (MCPTransport.timeoutError n id))))
            ErrorHandler.retriablePatterns = false /\
    ErrorHandler.isRetriable (MCPTransport.notInitializedError n) = true /\
    ErrorHandler.isRetriable (MCPTransport.notRunningError n) = true.
Proof.
  intros n id. split; [apply timeoutError_retriable|]. split.
  - unfold MCPTransport.timeoutError. cbn [JS.message].
    rewrite toLowerCase_append, toLowerCase_append.
    rewrite (toLowerCase_numeral _ (showZ_numeral id)).
    rewrite existsb_includes_numeral_infix;
      [ destruct n; reflexivity | reflexivity | reflexivity
      | apply showZ_numeral | apply showZ_nonempty ].
  - split; destruct n; reflexivity.
Qed.

(** X6.  Through every history of a client (spawn, handshake, requests,
    arriving messages, timers, process errors and exits, disconnects)
    the pending table holds each request id at most once, and only ids
    between one and the last id handed out; a new request gets the next
    id, which is not in the table. *)
Theorem pending_ids_are_unique :
  forall (n : MCPClient.ServerName) (events : list MCPTransport.Event),
    MCPTransport.pendingWellFormed (MCPTransport.history n events) /\
    (forall method params id frame c',
       MCPTransport.sendRequest method params (MCPTransport.history n events)
         = MCPTransport.SendPending id frame c' ->
       id = MCPClient.requestId (MCPTransport.history n events) + 1 /\
       ~ In id (MCPClient.pendingRequests (MCPTransport.history n events)) /\
       MCPClient.pendingRequests c'
         = MCPClient.pendingRequests (MCPTransport.history n events) ++ [id]).
Proof.
  intros n events.
  assert (Hwf : MCPTransport.pendingWellFormed (MCPTransport.history n events)).
  { unfold MCPTransport.history. apply fold_react_wellFormed.
    unfold MCPTransport.pendingWellFormed, MCPTransport.newClient. simpl.
    split; [lia|]. split; [constructor | intros id []]. }
  split; [exact Hwf|].
  intros method params id frame c' Hsend.
  destruct Hwf as (_ & _ & Hrange).
  unfold MCPTransport.sendRequest in Hsend.
  destruct (negb (MCPClient.processAlive (MCPTransport.history n events)));
    [discriminate|].
  injection Hsend as Hid _ Hc. subst id c'. cbn [MCPClient.pendingRequests].
  assert (Hfresh : ~ In (MCPClient.requestId (MCPTransport.history n events) + 1)
                     (MCPClient.pendingRequests (MCPTransport.history n events))).
  { intros Hin. apply Hrange in Hin. lia. }
  split; [reflexivity|]. split; [exact Hfresh|].
  unfold MCPTransport.tableSet.
  destruct (MCPTransport.tableHas _ _) eqn:Hhas; [|reflexivity].
  apply tableHas_In in Hhas. contradiction.
Qed.

Lemma pending_ids_are_unique_witness :
  exists id frame c',
    MCPTransport.sendRequest "tools/list" (Json.JObject [])
      (MCPTransport.history MCPClient.serena
         [ MCPTransport.Spawned;
           MCPTransport.Request "initialize" (Json.JObject []) ])
    = MCPTransport.SendPending id frame c' /\
    id = 2 /\ MCPClient.pendingRequests c' = [1; 2].
Proof.
  destruct (pending_ids_are_unique MCPClient.serena
              [ MCPTransport.Spawned;
                MCPTransport.Request "initialize" (Json.JObject []) ])
    as [_ Hnext].
  eexists _, _, _. split; [reflexivity|].
  destruct (Hnext "tools/list" (Json.JObject []) _ _ _ eq_refl) as (Hid & _ & Hp).
  split; [exact Hid | exact Hp].
Defined.

(** X7.  A pending request is settled at most once.  A message with a
    numeric id makes at most one delivery, for that id, and only if the
    id is pending; afterwards the id is no longer pending, so a second
    message with the same id, and the timer of the request, deliver
    nothing.  The same holds with the timer first: a response that
    arrives after the timeout is dropped. *)
Theorem request_settles_at_most_once :
  forall (c : MCPClient.Client) (m : MCPTransport.Message) (id : Z),
    MCPTransport.msgId m = Some (MCPTransport.NumberId id) ->
    (snd (MCPTransport.handleMessage m c) = [] \/
     exists d, snd (MCPTransport.handleMessage m c) = [d] /\
               MCPTransport.deliveryId d = id /\
               In id (MCPClient.pendingRequests c)) /\
    ~ In id (MCPClient.pendingRequests (fst (MCPTransport.handleMessage m c))) /\
    MCPTransport.handleMessage m (fst (MCPTransport.handleMessage m c))
      = (fst (MCPTransport.handleMessage m c), []) /\
    MCPTransport.timeoutFires id (fst (MCPTransport.handleMessage m c))
      = (fst (MCPTransport.handleMessage m c), []) /\
    MCPTransport.handleMessage m (fst (MCPTransport.timeoutFires id c))
      = (fst (MCPTransport.timeoutFires id c), []).
Proof.
  intros c m id Hm.
  assert (Hafter : MCPTransport.tableHas id
                     (MCPClient.pendingRequests
                        (fst (MCPTransport.handleMessage m c))) = false).
  { unfold MCPTransport.handleMessage. rewrite Hm.
    destruct (MCPTransport.tableHas id (MCPClient.pendingRequests c)) eqn:Hhas;
      cbn [fst MCPTransport.withPending MCPClient.pendingRequests];
      [apply tableDelete_gone | exact Hhas]. }
  assert (Htimer : MCPTransport.tableHas id
                     (MCPClient.pendingRequests
                        (fst (MCPTransport.timeoutFires id c))) = false).
  { unfold MCPTransport.timeoutFires.
    destruct (MCPTransport.tableHas id (MCPClient.pendingRequests c)) eqn:Hhas;
      cbn [fst MCPTransport.withPending MCPClient.pendingRequests];
      [apply tableDelete_gone | exact Hhas]. }
  split; [|split; [|split; [|split]]].
  - unfold MCPTransport.handleMessage. rewrite Hm.
    destruct (MCPTransport.tableHas id (MCPClient.pendingRequests c)) eqn:Hhas;
      [right | now left].
    eexists. split; [reflexivity|]. split.
    + destruct (MCPTransport.msgError m); reflexivity.
    + now apply tableHas_In.
  - intros Hin. apply tableHas_In in Hin. rewrite Hafter in Hin. discriminate.
  - unfold MCPTransport.handleMessage at 1. now rewrite Hm, Hafter.
  - unfold MCPTransport.timeoutFires at 1. now rewrite Hafter.
  - unfold MCPTransport.handleMessage at 1. now rewrite Hm, Htimer.
Qed.

Lemma request_settles_at_most_once_witness :
  MCPTransport.handleMessage
    {| MCPTransport.msgId := Some (MCPTransport.NumberId 6);
       MCPTransport.msgResult := Some Json.JNull;
       MCPTransport.msgError := None; MCPTransport.msgMethod := None |}
    (fst (MCPTransport.timeoutFires 6 Fixtures.busySerena))
  = (fst (MCPTransport.timeoutFires 6 Fixtures.busySerena), []).
Proof.
  exact (proj2 (proj2 (proj2 (proj2
           (request_settles_at_most_once Fixtures.busySerena
              {| MCPTransport.msgId := Some (MCPTransport.NumberId 6);
                 MCPTransport.msgResult := Some Json.JNull;
                 MCPTransport.msgError := None; MCPTransport.msgMethod := None |}
              6 eq_refl))))).
Defined.

(** X8.  The reader does not depend on where the child's output is
    cut into chunks, as long as the cut falls between two characters,
    that is, as long as decoding the two chunks one by one gives the
    text of decoding them together (each chunk is decoded on its own,
    so a cut inside a multi-byte character is not covered).  Handling
    [d1] and then [d2] then leaves the same client and buffer, and
    makes the same deliveries in the same order, as handling
    [d1 ++ d2] at once.  The buffer kept between chunks never holds a
    newline, wherever the cut falls. *)
Theorem handleStdout_chunking :
  forall (toString : list ascii -> string)
         (parse : string -> option MCPTransport.Message)
         (d1 d2 : list ascii) (r : MCPTransport.Reader),
    toString (d1 ++ d2) = (toString d1 ++ toString d2)%string ->
    fst (MCPTransport.handleStdout toString parse d2
           (fst (MCPTransport.handleStdout toString parse d1 r)))
    = fst (MCPTransport.handleStdout toString parse (d1 ++ d2) r) /\
    snd (MCPTransport.handleStdout toString parse d1 r)
    ++ snd (MCPTransport.handleStdout toString parse d2
              (fst (MCPTransport.handleStdout toString parse d1 r)))
    = snd (MCPTransport.handleStdout toString parse (d1 ++ d2) r) /\
    MCPTransport.singleLine
      (MCPTransport.buffer (fst (MCPTransport.handleStdout toString parse d1 r)))
    = true.
Proof.
  intros toString parse d1 d2 r Hcut. unfold MCPTransport.handleStdout.
  rewrite Hcut. generalize (toString d1) (toString d2). clear Hcut d1 d2.
  intros t1 t2.
  rewrite <- string_append_assoc.
  rewrite (frames_app (MCPTransport.buffer r ++ t1) t2 EmptyString).
  pose proof (frames_rest_single (MCPTransport.buffer r ++ t1) EmptyString eq_refl)
    as Hrest.
  destruct (MCPTransport.frames EmptyString (MCPTransport.buffer r ++ t1))
    as [l1 r1]. cbn [fst snd] in *.
  rewrite fold_left_app.
  destruct (fold_left (MCPTransport.handleLine parse) l1
              (MCPTransport.client r, [])) as [c1 ds1] eqn:H1.
  cbn [fst snd MCPTransport.client MCPTransport.buffer].
  rewrite (frames_single r1 EmptyString t2 Hrest). cbn [String.append].
  destruct (MCPTransport.frames r1 t2) as [l2 r2]. cbn [fst snd].
  rewrite (fold_handleLine_deliveries parse l2 c1 ds1).
  destruct (fold_left (MCPTransport.handleLine parse) l2 (c1, [])) as [c2 ds2].
  cbn [fst snd]. repeat split. exact Hrest.
Qed.

Lemma handleStdout_chunking_witness :
  snd (MCPTransport.handleStdout Fixtures.sevenBit Fixtures.pongParser
         ["n"; "g"]%char Fixtures.busyReader)
  ++ snd (MCPTransport.handleStdout Fixtures.sevenBit Fixtures.pongParser
            ["010"]%char
            (fst (MCPTransport.handleStdout Fixtures.sevenBit Fixtures.pongParser
                    ["n"; "g"]%char Fixtures.busyReader)))
  = [MCPTransport.Resolve 5 (Some Json.JNull)].
Proof.
  destruct (handleStdout_chunking Fixtures.sevenBit Fixtures.pongParser
              ["n"; "g"]%char ["010"]%char Fixtures.busyReader eq_refl)
    as (_ & Hsame & _).
  rewrite Hsame. vm_compute. reflexivity.
Defined.

(** ** Serialized JSON is one line *)

Section JsonFacts.
Import JS Json MCPTransport.

(** Induction on JSON values through their arrays and objects. *)
Lemma JSON_nested_ind :
  forall P : JSON -> Prop,
    P JNull ->
    (forall b, P (JBool b)) ->
    (forall n, P (JNumber n)) ->
    (forall s, P (JString s)) ->
    (forall items, Forall P items -> P (JArray items)) ->
    (forall fields, Forall (fun kv => P (snd kv)) fields -> P (JObject fields)) ->
    forall v, P v.
Proof.
  intros P Hnull Hbool Hnum Hstr Harr Hobj.
  fix IH 1. intros v. destruct v as [|b|n|s|items|fields].
  - exact Hnull.
  - apply Hbool.
  - apply Hnum.
  - apply Hstr.
  - apply Harr. induction items as [|x items IHitems]; constructor.
    + apply IH.
    + exact IHitems.
  - apply Hobj. induction fields as [|[k x] fields IHfields]; constructor.
    + apply IH.
    + exact IHfields.
Qed.

Lemma escapeChar_singleLine : forall c, singleLine (escapeChar c) = true.
Proof.
  intros [b0 b1 b2 b3 b4 b5 b6 b7].
  destruct b0, b1, b2, b3, b4, b5, b6, b7; reflexivity.
Qed.

Lemma escape_singleLine : forall s, singleLine (escape s) = true.
Proof.
  induction s as [|c s IH]; simpl; [reflexivity|].
  now rewrite singleLine_app, escapeChar_singleLine, IH.
Qed.

Lemma quote_singleLine : forall s, singleLine (quote s) = true.
Proof.
  intros s. unfold quote. now rewrite !singleLine_app, escape_singleLine.
Qed.

Lemma numeral_singleLine : forall s, numeral s = true -> singleLine s = true.
Proof.
  unfold numeral, singleLine, chars.
  induction s as [|c s IH]; simpl; intros H; [reflexivity|].
  apply andb_true_iff in H. destruct H as [Hc Hs]. rewrite (IH Hs), andb_true_r.
  unfold isNewline. destruct (Ascii.eqb_spec c (ascii_of_nat 10)) as [->|]; [|reflexivity].
  discriminate Hc.
Qed.

Lemma concat_singleLine :
  forall sep l,
    singleLine sep = true -> Forall (fun s => singleLine s = true) l ->
    singleLine (String.concat sep l) = true.
Proof.
  intros sep l Hsep. induction l as [|x l IH]; intros Hl; [reflexivity|].
  inversion Hl as [|y l' Hx Hl']; subst. simpl.
  destruct l as [|x' l]; [exact Hx|].
  now rewrite !singleLine_app, Hx, Hsep, (IH Hl').
Qed.

Lemma assoc_In :
  forall {A : Type} k (l : list (string * A)) x, assoc k l = Some x -> In (k, x) l.
Proof.
  intros A k. induction l as [|[k' y] l IH]; simpl; intros x H; [discriminate|].
  destruct (String.eqb_spec k' k) as [->|Hne].
  - inversion H; subst. now left.
  - right. now apply IH.
Qed.

Lemma serialize_singleLine :
  forall K v, singleLine (serialize K v) = true.
Proof.
  intros K. induction v using JSON_nested_ind; cbn [serialize].
  - reflexivity.
  - destruct b; reflexivity.
  - apply numeral_singleLine, showZ_numeral.
  - apply quote_singleLine.
  - rewrite !singleLine_app. cbn [singleLine chars list_ascii_of_string forallb].
    rewrite concat_singleLine; [reflexivity | reflexivity |].
    apply Forall_forall. intros s Hs. apply in_map_iff in Hs.
    destruct Hs as (x & <- & Hx). rewrite Forall_forall in H. now apply H.
  - rewrite !singleLine_app. cbn [singleLine chars list_ascii_of_string forallb].
    rewrite concat_singleLine; [reflexivity | reflexivity |].
    apply Forall_forall. intros s Hs. apply in_flat_map in Hs.
    destruct Hs as (P & _ & HP).
    destruct (assoc P _) as [str|] eqn:Hfind; [|contradiction].
    destruct HP as [<-|[]]. rewrite !singleLine_app, quote_singleLine.
    apply assoc_In in Hfind. apply in_map_iff in Hfind.
    destruct Hfind as ([k x] & Heq & Hin). inversion Heq; subst.
    rewrite Forall_forall in H. pose proof (H (P, x) Hin) as Hx.
    cbn [snd] in Hx. now rewrite Hx.
Qed.

Lemma frames_singleLine :
  forall s a, singleLine s = true -> frames a s = ([], (a ++ s)%string).
Proof.
  intros s a Hs. pose proof (frames_single s a EmptyString Hs) as H.
  assert (Hnil : forall x : string, (x ++ "")%string = x)
    by (induction x as [|y x IHx]; simpl; [reflexivity | now rewrite IHx]).
  rewrite Hnil in H. now rewrite H.
Qed.

Lemma trimEnd_closed :
  forall a c, ResponseFormatter.isSpace c = false ->
    ResponseFormatter.trimEnd (a ++ String c "") = (a ++ String c "")%string.
Proof.
  intros a c Hc. induction a as [|y a IH]; simpl.
  - now rewrite Hc.
  - rewrite IH. destruct (a ++ String c "")%string eqn:E; [|reflexivity].
    destruct a; discriminate.
Qed.

End JsonFacts.

(** X9.  [JSON.stringify] without indentation never produces a line
    break, so the frame [sendRequest] writes is one line: the
    serialized request followed by the only newline of the frame.  A
    line reader of the kind [handleStdout] is, starting from an empty
    buffer, gets exactly the serialized request from it, unchanged by
    the trimming, and keeps nothing in its buffer. *)
Theorem request_frame_is_one_line :
  (forall (K : option (list string)) (v : Json.JSON),
     MCPTransport.singleLine (Json.serialize K v) = true) /\
  (forall method params c id frame c',
     MCPTransport.sendRequest method params c
       = MCPTransport.SendPending id frame c' ->
     frame = (Json.stringify (MCPTransport.requestJSON id method params)
              ++ MCPTransport.newline)%string /\
     MCPTransport.frames EmptyString frame
       = ([Json.stringify (MCPTransport.requestJSON id method params)], EmptyString) /\
     ResponseFormatter.trim
       (Json.stringify (MCPTransport.requestJSON id method params))
     = Json.stringify (MCPTransport.requestJSON id method params)).
Proof.
  split; [apply serialize_singleLine|].
  intros method params c id frame c' Hsend.
  unfold MCPTransport.sendRequest in Hsend.
  destruct (negb (MCPClient.processAlive c)); [discriminate|].
  assert (Hid : id = MCPClient.requestId c + 1) by congruence.
  assert (Hframe : frame
                   = (Json.stringify
                        (MCPTransport.requestJSON (MCPClient.requestId c + 1)
                           method params)
                      ++ MCPTransport.newline)%string) by congruence.
  clear Hsend. subst id frame.
  split; [reflexivity|]. split.
  - rewrite (frames_app _ MCPTransport.newline EmptyString).
    rewrite (frames_singleLine _ EmptyString (serialize_singleLine None _)).
    reflexivity.
  - unfold ResponseFormatter.trim.
    set (id := MCPClient.requestId c + 1).
    assert (Hshape : exists body,
               Json.stringify (MCPTransport.requestJSON id method params)
               = String "{"%char (body ++ String "}"%char "")).
    { unfold Json.stringify, MCPTransport.requestJSON. cbn [Json.serialize].
      eexists. cbn [String.append]. reflexivity. }
    destruct Hshape as (body & ->).
    cbn [ResponseFormatter.trimStart].
    change (ResponseFormatter.isSpace "{"%char) with false. cbv iota.
    apply (trimEnd_closed (String "{"%char body) "}"%char eq_refl).
Qed.

Lemma request_frame_is_one_line_witness :
  exists id frame c',
    MCPTransport.sendRequest "tools/list" (Json.JObject []) Fixtures.busySerena
      = MCPTransport.SendPending id frame c' /\
    MCPTransport.frames EmptyString frame
      = ([Json.stringify (MCPTransport.requestJSON id "tools/list" (Json.JObject []))],
         EmptyString).
Proof.
  destruct request_frame_is_one_line as [_ Hframe].
  eexists _, _, _. split; [reflexivity|].
  exact (proj1 (proj2 (Hframe "tools/list" (Json.JObject []) Fixtures.busySerena
                         _ _ _ eq_refl))).
Defined.

(** X10.  After [disconnect] the client is not connected, a request or
    tool call on it throws instead of writing, and a second
    [disconnect] changes nothing.  [disconnect] itself settles no
    pending request: the table is as before, and it is the exit of the
    killed process, handled by [handleProcessExit], that rejects
    them. *)
Theorem disconnect_closes_without_settling :
  forall c : MCPClient.Client,
    MCPTransport.isConnected (MCPTransport.disconnect c) = false /\
    MCPClient.pendingRequests (MCPTransport.disconnect c)
      = MCPClient.pendingRequests c /\
    MCPTransport.disconnect (MCPTransport.disconnect c) = MCPTransport.disconnect c /\
    (forall method params,
       MCPTransport.sendRequest method params (MCPTransport.disconnect c)
       = MCPTransport.SendThrows (MCPTransport.notRunningError (MCPClient.name c))) /\
    (MCPClient.processAlive c = true ->
     forall toolName args,
       MCPTransport.callTool toolName args (MCPTransport.disconnect c)
       = MCPTransport.SendThrows
           (MCPTransport.notInitializedError (MCPClient.name c))) /\
    (forall code,
       map fst (snd (MCPClient.handleProcessExit code (MCPTransport.disconnect c)))
       = MCPClient.pendingRequests c).
Proof.
  intros c. unfold MCPTransport.disconnect, MCPTransport.isConnected.
  destruct (MCPClient.processAlive c) eqn:Halive;
    cbn [MCPClient.initialized MCPClient.processAlive MCPClient.pendingRequests];
    rewrite ?Halive, ?andb_false_r; cbn [MCPClient.processAlive].
  - repeat split.
    intros code. unfold MCPClient.handleProcessExit.
    cbn [MCPClient.pendingRequests MCPClient.name].
    pose proof (rejectLoop_spec (MCPClient.exitError (MCPClient.name c) code)
                  (MCPClient.pendingRequests c) (MCPClient.pendingRequests c) [])
      as [Hlog _].
    destruct (MCPClient.rejectLoop _ _ _ _) as [table log]. cbn [snd] in *.
    rewrite Hlog. cbn [List.app]. rewrite map_map. cbn [fst]. apply map_id.
  - split; [reflexivity|]. split; [reflexivity|]. split; [reflexivity|].
    split; [|split; [discriminate|]].
    + intros method params. unfold MCPTransport.sendRequest. now rewrite Halive.
    + intros code. unfold MCPClient.handleProcessExit.
      pose proof (rejectLoop_spec (MCPClient.exitError (MCPClient.name c) code)
                    (MCPClient.pendingRequests c) (MCPClient.pendingRequests c) [])
        as [Hlog _].
      destruct (MCPClient.rejectLoop _ _ _ _) as [table log]. cbn [snd] in *.
      rewrite Hlog. cbn [List.app]. rewrite map_map. cbn [fst]. apply map_id.
Qed.

Lemma disconnect_closes_without_settling_witness :
  MCPTransport.callTool "find_symbol" [] (MCPTransport.disconnect Fixtures.busySerena)
  = MCPTransport.SendThrows (MCPTransport.notInitializedError MCPClient.serena).
Proof.
  destruct (disconnect_closes_without_settling Fixtures.busySerena)
    as (_ & _ & _ & _ & Hcall & _).
  exact (Hcall eq_refl "find_symbol" []).
Defined.

(** ** More on the response cache *)

Section CacheLookupFacts.
Import JS Json Protocol ResponseCache.

Lemma assoc_mapSet_same :
  forall k e m, assoc k (mapSet k e m) = Some e.
Proof.
  intros k e m. induction m as [|[k' e'] m IH]; simpl.
  - now rewrite String.eqb_refl.
  - destruct (String.eqb k' k) eqn:Hk; simpl.
    + now rewrite String.eqb_refl.
    + now rewrite Hk.
Qed.

Lemma assoc_mapDelete_same :
  forall k (m : Cache), assoc k (mapDelete k m) = None.
Proof.
  intros k m. unfold mapDelete. induction m as [|[k' e'] m IH]; simpl; [reflexivity|].
  destruct (String.eqb k' k) eqn:Hk; simpl; [exact IH|]. now rewrite Hk.
Qed.

Lemma assoc_filter_key :
  forall (g : string -> bool) k (m : Cache),
    g k = true -> assoc k (filter (fun kv => g (fst kv)) m) = assoc k m.
Proof.
  intros g k m Hg. induction m as [|[k' e'] m IH]; simpl; [reflexivity|].
  destruct (String.eqb_spec k' k) as [->|Hne].
  - rewrite Hg. simpl. now rewrite String.eqb_refl.
  - destruct (g k'); simpl; [|exact IH].
    destruct (String.eqb_spec k' k); [contradiction | exact IH].
Qed.

Lemma assoc_filter_key_gone :
  forall (g : string -> bool) k (m : Cache),
    g k = false -> assoc k (filter (fun kv => g (fst kv)) m) = None.
Proof.
  intros g k m Hg. induction m as [|[k' e'] m IH]; simpl; [reflexivity|].
  destruct (g k') eqn:Hk'; simpl; [|exact IH].
  destruct (String.eqb_spec k' k) as [->|Hne]; [congruence | exact IH].
Qed.

Lemma assoc_absent :
  forall k (m : Cache), ~ In k (map fst m) -> assoc k m = None.
Proof.
  intros k m. induction m as [|[k' e'] m IH]; simpl; intros Hin; [reflexivity|].
  destruct (String.eqb_spec k' k) as [->|Hne]; [tauto|]. apply IH. tauto.
Qed.

Lemma assoc_filter_NoDup :
  forall (f : string * CacheEntry -> bool) k (m : Cache),
    NoDup (map fst m) ->
    assoc k (filter f m)
    = match assoc k m with
      | Some e => if f (k, e) then Some e else None
      | None => None
      end.
Proof.
  intros f k m. induction m as [|[k' e'] m IH]; simpl; intros Hnd; [reflexivity|].
  inversion Hnd as [|x l Hx Hl]; subst.
  destruct (String.eqb_spec k' k) as [->|Hne].
  - destruct (f (k, e')); simpl.
    + now rewrite String.eqb_refl.
    + apply assoc_absent. intros Hin. apply Hx.
      apply in_map_iff in Hin. destruct Hin as (kv & Hk & Hkv).
      apply filter_In in Hkv. apply in_map_iff. exists kv. tauto.
  - destruct (f (k', e')); simpl; [|now apply IH].
    destruct (String.eqb_spec k' k); [contradiction | now apply IH].
Qed.

Lemma mapSet_length_present :
  forall k e (m : Cache) x,
    assoc k m = Some x -> List.length (mapSet k e m) = List.length m.
Proof.
  intros k e m. induction m as [|[k' e'] m IH]; simpl; intros x Hx; [discriminate|].
  destruct (String.eqb k' k); simpl; [reflexivity|]. f_equal. now apply (IH x).
Qed.

(** The scan ends on the first entry of the lowest score: it keeps
    the entry it holds unless a strictly lower score comes. *)
Lemma scan_first_minimal :
  forall entries k0 e0,
    exists k e,
      scan entries (Some k0) (Some (score e0)) = Some k /\
      (((k, e) = (k0, e0) /\
        forall k' e', In (k', e') entries -> Qle (score e0) (score e'))
       \/
       exists pre post,
         entries = pre ++ (k, e) :: post /\
         Qlt (score e) (score e0) /\
         (forall k' e', In (k', e') pre -> Qlt (score e) (score e')) /\
         (forall k' e', In (k', e') post -> Qle (score e) (score e'))).
Proof.
  induction entries as [|[k1 e1] entries IH]; intros k0 e0; cbn [scan].
  - exists k0, e0. split; [reflexivity|]. left. split; [reflexivity|].
    intros k' e' [].
  - unfold below. destruct (Qle_bool (score e0) (score e1)) eqn:Hcmp; cbn [negb].
    + apply Qle_bool_iff in Hcmp.
      destruct (IH k0 e0) as (k & e & Hscan & [(Heq & Hmin)
                                              | (pre & post & Hsplit & Hlt & Hpre & Hpost)]).
      * exists k, e. split; [exact Hscan|]. left. split; [exact Heq|].
        intros k' e' [H|H]; [inversion H; subst; exact Hcmp | now apply (Hmin k')].
      * exists k, e. split; [exact Hscan|]. right.
        exists ((k1, e1) :: pre), post. rewrite Hsplit.
        split; [reflexivity|]. split; [exact Hlt|]. split; [|exact Hpost].
        intros k' e' [H|H]; [|now apply (Hpre k')].
        inversion H; subst. now apply Qlt_le_trans with (score e0).
    + assert (Hlt : Qlt (score e1) (score e0)).
      { apply Qnot_le_lt. intros H. apply Qle_bool_iff in H. congruence. }
      destruct (IH k1 e1) as (k & e & Hscan & [(Heq & Hmin)
                                              | (pre & post & Hsplit & Hlt' & Hpre & Hpost)]).
      * exists k, e. split; [exact Hscan|]. right. inversion Heq; subst.
        exists [], entries. split; [reflexivity|]. split; [exact Hlt|].
        split; [intros k' e' []|exact Hmin].
      * exists k, e. split; [exact Hscan|]. right.
        exists ((k1, e1) :: pre), post. rewrite Hsplit.
        split; [reflexivity|].
        split; [now apply Qlt_trans with (score e1)|]. split; [|exact Hpost].
        intros k' e' [H|H]; [|now apply (Hpre k')].
        inversion H; subst. exact Hlt'.
Qed.

End CacheLookupFacts.

(** X11.  In an enabled cache, a value that was just set is returned
    by a get for the same server, tool and arguments as long as the age
    [now' - now] is at most [ttlSeconds * 1000], whatever the cache
    held before and however full it was; once the age exceeds that, the
    get misses and removes the entry. *)
Theorem cache_get_after_set :
  forall (cfg : ResponseCache.CacheConfig) (t t' : Z) (server tool : string)
         (args : list (string * Json.JSON)) (v : Protocol.CallToolResult)
         (cache : ResponseCache.Cache),
    ResponseCache.enabled cfg = true ->
    (t' - t <= ResponseCache.ttlSeconds cfg * 1000 ->
     snd (ResponseCache.get cfg t' server tool args
            (ResponseCache.set cfg t server tool args v cache)) = Some v) /\
    (ResponseCache.ttlSeconds cfg * 1000 < t' - t ->
     snd (ResponseCache.get cfg t' server tool args
            (ResponseCache.set cfg t server tool args v cache)) = None /\
     Json.assoc (ResponseCache.generateKey server tool args)
       (fst (ResponseCache.get cfg t' server tool args
               (ResponseCache.set cfg t server tool args v cache))) = None).
Proof.
  intros cfg t t' server tool args v cache Hen.
  unfold ResponseCache.get, ResponseCache.set. rewrite Hen. cbn [negb].
  rewrite assoc_mapSet_same. cbn [ResponseCache.timestamp ResponseCache.value].
  split; intros Hage.
  - destruct (Z.ltb_spec (ResponseCache.ttlSeconds cfg * 1000) (t' - t)); [lia|].
    reflexivity.
  - destruct (Z.ltb_spec (ResponseCache.ttlSeconds cfg * 1000) (t' - t)); [|lia].
    cbn [fst snd]. split; [reflexivity | apply assoc_mapDelete_same].
Qed.

Lemma cache_get_after_set_witness :
  snd (ResponseCache.get Fixtures.smallCache 61000 "serena" "tool1" []
         (ResponseCache.set Fixtures.smallCache 1000 "serena" "tool1" []
            (Fixtures.textResult "data1") [])) = Some (Fixtures.textResult "data1") /\
  snd (ResponseCache.get Fixtures.smallCache 61001 "serena" "tool1" []
         (ResponseCache.set Fixtures.smallCache 1000 "serena" "tool1" []
            (Fixtures.textResult "data1") [])) = None.
Proof.
  split.
  - apply (cache_get_after_set Fixtures.smallCache 1000 61000 "serena" "tool1" []
             (Fixtures.textResult "data1") [] eq_refl).
    simpl. lia.
  - apply (cache_get_after_set Fixtures.smallCache 1000 61001 "serena" "tool1" []
             (Fixtures.textResult "data1") [] eq_refl).
    simpl. lia.
Defined.

(** X12.  A get never returns an expired entry: when it returns a
    value, the cache is enabled and holds that value under the
    generated key with an age of at most [ttlSeconds * 1000]; the get
    adds one to the hit count of that entry and leaves the number of
    entries as it was. *)
Theorem cache_get_returns_only_fresh_entries :
  forall (cfg : ResponseCache.CacheConfig) (now : Z) (server tool : string)
         (args : list (string * Json.JSON)) (cache : ResponseCache.Cache)
         (v : Protocol.CallToolResult),
    snd (ResponseCache.get cfg now server tool args cache) = Some v ->
    ResponseCache.enabled cfg = true /\
    exists e,
      Json.assoc (ResponseCache.generateKey server tool args) cache = Some e /\
      ResponseCache.value e = v /\
      now - ResponseCache.timestamp e <= ResponseCache.ttlSeconds cfg * 1000 /\
      Json.assoc (ResponseCache.generateKey server tool args)
        (fst (ResponseCache.get cfg now server tool args cache))
      = Some {| ResponseCache.value := v;
                ResponseCache.timestamp := ResponseCache.timestamp e;
                ResponseCache.hits := ResponseCache.hits e + 1 |} /\
      List.length (fst (ResponseCache.get cfg now server tool args cache))
      = List.length cache.
Proof.
  intros cfg now server tool args cache v. unfold ResponseCache.get.
  destruct (ResponseCache.enabled cfg); cbn [negb]; [|discriminate].
  destruct (Json.assoc _ cache) as [e|] eqn:Hfind; [|discriminate].
  destruct (Z.ltb_spec (ResponseCache.ttlSeconds cfg * 1000)
              (now - ResponseCache.timestamp e)) as [Hold|Hfresh]; [discriminate|].
  cbn [fst snd]. intros Hv. inversion Hv; subst v. split; [reflexivity|].
  exists e. split; [reflexivity|]. split; [reflexivity|]. split; [exact Hfresh|].
  split; [apply assoc_mapSet_same | now apply (mapSet_length_present _ _ _ e)].
Qed.

Lemma cache_get_returns_only_fresh_entries_witness :
  ResponseCache.enabled Fixtures.smallCache = true /\
  exists e,
    Json.assoc (ResponseCache.generateKey "serena" "findSymbol"
                  [("name", Json.JString "test")]) Fixtures.twoServers = Some e /\
    ResponseCache.value e = Fixtures.textResult "data".
Proof.
  destruct (cache_get_returns_only_fresh_entries Fixtures.smallCache 2000
              "serena" "findSymbol" [("name", Json.JString "test")]
              Fixtures.twoServers (Fixtures.textResult "data") eq_refl)
    as (Hen & e & Hfind & Hv & _).
  split; [exact Hen|]. exists e. split; assumption.
Defined.

(** X13.  [invalidate] returns the number of entries it removed: the
    count plus the entries left is the size before; without a pattern
    nothing is left.  With a pattern that names an upstream, every
    later get for that upstream misses, and a get for any other
    upstream returns what it would have returned without the
    invalidation. *)
Theorem invalidate_by_server :
  forall (cfg : ResponseCache.CacheConfig) (cache : ResponseCache.Cache),
    (forall pattern,
       snd (ResponseCache.invalidate pattern cache)
       + ResponseCache.size (fst (ResponseCache.invalidate pattern cache))
       = ResponseCache.size cache) /\
    fst (ResponseCache.invalidate None cache) = [] /\
    (forall (n n' : MCPClient.ServerName) now tool args,
       snd (ResponseCache.get cfg now (MCPClient.serverNameString n) tool args
              (fst (ResponseCache.invalidate
                      (Some {| ResponseCache.patternServer :=
                                 Some (MCPClient.serverNameString n);
                               ResponseCache.patternTool := None |})
                      cache))) = None /\
       (n' <> n ->
        snd (ResponseCache.get cfg now (MCPClient.serverNameString n') tool args
               (fst (ResponseCache.invalidate
                       (Some {| ResponseCache.patternServer :=
                                  Some (MCPClient.serverNameString n);
                                ResponseCache.patternTool := None |})
                       cache)))
        = snd (ResponseCache.get cfg now (MCPClient.serverNameString n') tool args
                 cache))).
Proof.
  intros cfg cache. split; [|split; [reflexivity|]].
  - intros [p|]; unfold ResponseCache.invalidate, ResponseCache.size; cbn [fst snd].
    + rewrite <- Nat2Z.inj_add. f_equal.
      induction cache as [|kv cache IH]; simpl; [reflexivity|].
      destruct (ResponseCache.keyMatches p (fst kv)); simpl; lia.
    + simpl. lia.
  - intros n n' now tool args.
    set (p := {| ResponseCache.patternServer := Some (MCPClient.serverNameString n);
                 ResponseCache.patternTool := None |}).
    unfold ResponseCache.invalidate. cbn [fst].
    split.
    + unfold ResponseCache.get. destruct (negb (ResponseCache.enabled cfg));
        [reflexivity|].
      rewrite (assoc_filter_key_gone
                 (fun k => negb (ResponseCache.keyMatches p k))); [reflexivity|].
      apply negb_false_iff. unfold ResponseCache.generateKey. destruct n; reflexivity.
    + intros Hne. unfold ResponseCache.get.
      destruct (negb (ResponseCache.enabled cfg)); [reflexivity|].
      rewrite (assoc_filter_key
                 (fun k => negb (ResponseCache.keyMatches p k))).
      * destruct (Json.assoc _ cache) as [e|]; [|reflexivity].
        destruct (_ <? _); reflexivity.
      * apply negb_true_iff. unfold ResponseCache.generateKey.
        destruct n, n'; try reflexivity; congruence.
Qed.

Lemma invalidate_by_server_witness :
  snd (ResponseCache.get Fixtures.smallCache 2000 "context7" "getLibraryDocs"
         [("lib", Json.JString "react")]
         (fst (ResponseCache.invalidate
                 (Some {| ResponseCache.patternServer := Some "serena";
                          ResponseCache.patternTool := None |})
                 Fixtures.twoServers)))
  = Some (Fixtures.textResult "docs").
Proof.
  destruct (invalidate_by_server Fixtures.smallCache Fixtures.twoServers)
    as (_ & _ & Hget).
  destruct (Hget MCPClient.serena MCPClient.context7 2000 "getLibraryDocs"
              [("lib", Json.JString "react")]) as [_ Hother].
  cbn [MCPClient.serverNameString] in Hother.
  rewrite Hother; [reflexivity | discriminate].
Defined.

(** X14.  When the cache is not empty, [evictOldest] removes the
    first entry, in the order of the map, among those whose score is
    lowest, where the score is the double [timestamp / (hits + 1)]:
    every earlier entry has a strictly higher score and every later
    entry a score that is equal or higher.  Two entries whose exact
    quotients differ but round to the same double are therefore
    tied, and the earlier one goes. *)
Theorem evictOldest_removes_a_lowest_score :
  forall cache : ResponseCache.Cache,
    cache <> [] -> ResponseCache.keyed cache ->
    exists pre k e post,
      cache = pre ++ (k, e) :: post /\
      ResponseCache.evictOldest cache = ResponseCache.mapDelete k cache /\
      (forall k' e', In (k', e') pre ->
         Qlt (ResponseCache.score e) (ResponseCache.score e')) /\
      (forall k' e', In (k', e') post ->
         Qle (ResponseCache.score e) (ResponseCache.score e')).
Proof.
  intros [|[k0 e0] cache] Hne Hkeyed; [congruence|].
  unfold ResponseCache.evictOldest. cbn [ResponseCache.scan ResponseCache.below].
  destruct (scan_first_minimal cache k0 e0)
    as (k & e & Hscan & [(Heq & Hmin)
                        | (pre & post & Hsplit & Hlt & Hpre & Hpost)]).
  - inversion Heq; subst k e. rewrite Hscan.
    assert (Hk : k0 <> "").
    { unfold ResponseCache.keyed in Hkeyed. rewrite Forall_forall in Hkeyed.
      exact (Hkeyed (k0, e0) (or_introl eq_refl)). }
    apply String.eqb_neq in Hk. rewrite Hk.
    exists [], k0, e0, cache. split; [reflexivity|]. split; [reflexivity|].
    split; [intros k' e' []|exact Hmin].
  - rewrite Hscan.
    assert (Hk : k <> "").
    { unfold ResponseCache.keyed in Hkeyed. rewrite Forall_forall in Hkeyed.
      apply (Hkeyed (k, e)). right. rewrite Hsplit. apply in_or_app. right.
      now left. }
    apply String.eqb_neq in Hk. rewrite Hk.
    exists ((k0, e0) :: pre), k, e, post. rewrite Hsplit.
    split; [reflexivity|]. split; [reflexivity|]. split; [|exact Hpost].
    intros k' e' [H|H]; [inversion H; subst; exact Hlt | now apply (Hpre k')].
Qed.

Lemma evictOldest_removes_a_lowest_score_witness :
  ResponseCache.evictOldest Fixtures.closeScores
  = ResponseCache.mapDelete "context7:getLibraryDocs:{}" Fixtures.closeScores.
Proof.
  destruct (evictOldest_removes_a_lowest_score Fixtures.closeScores)
    as (pre & k & e & post & Hsplit & Hev & Hpre & _).
  - discriminate.
  - repeat constructor; discriminate.
  - destruct pre as [|[k1 e1] pre].
    + inversion Hsplit; subst. exact Hev.
    + exfalso.
      assert (Hscore : Qlt (ResponseCache.score e) (ResponseCache.score e1))
        by (apply (Hpre k1); now left).
      unfold Fixtures.closeScores in Hsplit. cbn [List.app] in Hsplit.
      assert (Hhead : e1 = {| ResponseCache.value := Fixtures.textResult "docs";
                              ResponseCache.timestamp := 1700568752091;
                              ResponseCache.hits := 5979 |}) by congruence.
      assert (Htail : [("serena:findSymbol:{}",
                        {| ResponseCache.value := Fixtures.textResult "data";
                           ResponseCache.timestamp := 1700000000000;
                           ResponseCache.hits := 5977 |})]
                      = pre ++ (k, e) :: post) by congruence.
      destruct pre as [|x pre]; cbn [List.app] in Htail.
      * assert (He : e = {| ResponseCache.value := Fixtures.textResult "data";
                            ResponseCache.timestamp := 1700000000000;
                            ResponseCache.hits := 5977 |}) by congruence.
        rewrite Hhead, He in Hscore. vm_compute in Hscore. discriminate.
      * destruct pre; discriminate.
Defined.

(** X15.  A sweep is only housekeeping: with distinct keys in the cache
    and a clock that does not run backwards, a get after a sweep
    returns exactly what it would have returned without the sweep; and
    after a sweep no entry of the cache is older than the time to
    live. *)
Theorem sweep_is_transparent :
  forall (cfg : ResponseCache.CacheConfig) (cache : ResponseCache.Cache)
         (t1 t2 : Z) (server tool : string) (args : list (string * Json.JSON)),
    NoDup (map fst cache) ->
    t1 <= t2 ->
    snd (ResponseCache.get cfg t2 server tool args (ResponseCache.sweep cfg t1 cache))
      = snd (ResponseCache.get cfg t2 server tool args cache) /\
    Forall (fun kv => t1 - ResponseCache.timestamp (snd kv)
                      <= ResponseCache.ttlSeconds cfg * 1000)
           (ResponseCache.sweep cfg t1 cache).
Proof.
  intros cfg cache t1 t2 server tool args Hnd Hclock. split.
  - unfold ResponseCache.get, ResponseCache.sweep.
    destruct (negb (ResponseCache.enabled cfg)); [reflexivity|].
    rewrite (assoc_filter_NoDup _ _ _ Hnd).
    destruct (Json.assoc _ cache) as [e|]; [|reflexivity]. cbn [snd].
    destruct (Z.ltb_spec (ResponseCache.ttlSeconds cfg * 1000)
                (t1 - ResponseCache.timestamp e)); cbn [negb].
    + destruct (Z.ltb_spec (ResponseCache.ttlSeconds cfg * 1000)
                  (t2 - ResponseCache.timestamp e)); [reflexivity | lia].
    + destruct (_ <? _); reflexivity.
  - unfold ResponseCache.sweep. apply Forall_forall. intros kv Hin.
    apply filter_In in Hin. destruct Hin as [_ Hkeep].
    apply negb_true_iff, Z.ltb_ge in Hkeep. exact Hkeep.
Qed.

Lemma sweep_is_transparent_witness :
  snd (ResponseCache.get Fixtures.smallCache 70000 "serena" "findSymbol"
         [("name", Json.JString "test")]
         (ResponseCache.sweep Fixtures.smallCache 62000 Fixtures.twoServers))
  = snd (ResponseCache.get Fixtures.smallCache 70000 "serena" "findSymbol"
           [("name", Json.JString "test")] Fixtures.twoServers).
Proof.
  apply (sweep_is_transparent Fixtures.smallCache Fixtures.twoServers 62000 70000).
  - vm_compute. repeat (constructor; [simpl; intuition discriminate|]). constructor.
  - lia.
Defined.

(** ** Cache keys of reordered and of flat parameter objects *)

Section SortFacts.
Import JS Json JsonShape.

Lemma ascii_compare_trans :
  forall a b c, Ascii.compare a b = Lt -> Ascii.compare b c = Lt ->
                Ascii.compare a c = Lt.
Proof.
  unfold Ascii.compare. intros a b c H1 H2.
  rewrite N.compare_lt_iff in *. now apply N.lt_trans with (N_of_ascii b).
Qed.

Lemma string_leb_trans :
  forall a b c, String.leb a b = true -> String.leb b c = true ->
                String.leb a c = true.
Proof.
  unfold String.leb.
  induction a as [|x a IH]; intros [|y b] [|z c]; simpl; try congruence.
  destruct (Ascii.compare x y) eqn:Hxy; try congruence.
  - apply Ascii.compare_eq_iff in Hxy. subst y.
    destruct (Ascii.compare x z) eqn:Hxz; try congruence. apply IH.
  - intros _. destruct (Ascii.compare y z) eqn:Hyz; try congruence.
    + apply Ascii.compare_eq_iff in Hyz. subst z. now rewrite Hxy.
    + now rewrite (ascii_compare_trans x y z Hxy Hyz).
Qed.

Lemma insertSorted_comm :
  forall x y l,
    insertSorted x (insertSorted y l) = insertSorted y (insertSorted x l).
Proof.
  intros x y l. induction l as [|z l IH]; cbn [insertSorted].
  - destruct (String.leb x y) eqn:Hxy, (String.leb y x) eqn:Hyx;
      cbn [insertSorted]; rewrite ?Hxy, ?Hyx; try reflexivity.
    + now rewrite (String.leb_antisym x y Hxy Hyx).
    + destruct (String.leb_total x y); congruence.
  - destruct (String.leb y z) eqn:Hyz, (String.leb x z) eqn:Hxz;
      cbn [insertSorted]; rewrite ?Hyz, ?Hxz.
    + destruct (String.leb x y) eqn:Hxy, (String.leb y x) eqn:Hyx;
        cbn [insertSorted]; rewrite ?Hyz, ?Hxz; try reflexivity.
      * now rewrite (String.leb_antisym x y Hxy Hyx).
      * destruct (String.leb_total x y); congruence.
    + destruct (String.leb x y) eqn:Hxy.
      * rewrite (string_leb_trans x y z Hxy Hyz) in Hxz. discriminate.
      * cbn [insertSorted]. rewrite ?Hxz, ?Hyz. reflexivity.
    + destruct (String.leb y x) eqn:Hyx.
      * rewrite (string_leb_trans y x z Hyx Hxz) in Hyz. discriminate.
      * cbn [insertSorted]. rewrite ?Hxz, ?Hyz. reflexivity.
    + now rewrite IH.
Qed.

Lemma sort_Permutation_eq :
  forall l l', Permutation l l' -> sort l = sort l'.
Proof.
  unfold sort. induction 1; cbn [fold_right].
  - reflexivity.
  - now rewrite IHPermutation.
  - apply insertSorted_comm.
  - congruence.
Qed.

Lemma insertSorted_Permutation :
  forall k l, Permutation (insertSorted k l) (k :: l).
Proof.
  intros k l. induction l as [|x l IH]; cbn [insertSorted]; [reflexivity|].
  destruct (String.leb k x); [reflexivity|].
  rewrite IH. apply perm_swap.
Qed.

Lemma sort_Permutation : forall l, Permutation (sort l) l.
Proof.
  unfold sort. induction l as [|k l IH]; cbn [fold_right]; [reflexivity|].
  rewrite insertSorted_Permutation. now constructor.
Qed.

Lemma insertField_Permutation :
  forall f l, Permutation (insertField f l) (f :: l).
Proof.
  intros f l. induction l as [|g l IH]; cbn [insertField]; [reflexivity|].
  destruct (String.leb (fst f) (fst g)); [reflexivity|].
  rewrite IH. apply perm_swap.
Qed.

Lemma sortFields_Permutation :
  forall fields, Permutation (fold_right insertField [] fields) fields.
Proof.
  induction fields as [|f l IH]; cbn [fold_right]; [reflexivity|].
  rewrite insertField_Permutation. now constructor.
Qed.

Lemma insertField_keys :
  forall f l, map fst (insertField f l) = insertSorted (fst f) (map fst l).
Proof.
  intros f l. induction l as [|g l IH]; cbn [insertField insertSorted map];
    [reflexivity|].
  destruct (String.leb (fst f) (fst g)); cbn [map]; [reflexivity|].
  now rewrite IH.
Qed.

Lemma sortFields_keys :
  forall fields, map fst (fold_right insertField [] fields) = sort (map fst fields).
Proof.
  unfold sort. induction fields as [|f l IH]; cbn [fold_right map]; [reflexivity|].
  now rewrite insertField_keys, IH.
Qed.

Lemma assoc_not_In :
  forall (A : Type) k (l : list (string * A)),
    ~ In k (map fst l) -> assoc k l = None.
Proof.
  intros A k l. induction l as [|[k' x] l IH]; simpl; intros Hin; [reflexivity|].
  destruct (String.eqb_spec k' k) as [->|Hne]; [tauto|]. apply IH. tauto.
Qed.

Lemma assoc_Permutation :
  forall (A : Type) k (l l' : list (string * A)),
    NoDup (map fst l) -> Permutation l l' -> assoc k l = assoc k l'.
Proof.
  intros A k l l' Hnd Hperm. induction Hperm as [|[k1 x1] l l' Hperm IH
                                                |[k1 x1] [k2 x2] l|l l' l'' H1 IH1 H2 IH2].
  - reflexivity.
  - simpl. inversion Hnd; subst. destruct (String.eqb k1 k); [reflexivity | now apply IH].
  - simpl. destruct (String.eqb_spec k1 k) as [->|H1];
      destruct (String.eqb_spec k2 k) as [->|H2]; try reflexivity.
    inversion Hnd as [|? ? Hnotin _]; subst. exfalso. apply Hnotin. now left.
  - rewrite IH1 by exact Hnd. apply IH2.
    apply (Permutation_NoDup (l := map fst l)); [now apply Permutation_map | exact Hnd].
Qed.

Lemma propertyList_NoDup :
  forall l seen,
    NoDup l -> (forall k, In k l -> ~ In k seen) -> propertyList seen l = l.
Proof.
  induction l as [|k l IH]; intros seen Hnd Hfresh; cbn [propertyList]; [reflexivity|].
  inversion Hnd as [|? ? Hk Hl]; subst.
  destruct (existsb (String.eqb k) seen) eqn:Hseen.
  - apply existsb_exists in Hseen. destruct Hseen as (k' & Hin & Heq).
    apply String.eqb_eq in Heq. subst k'. exfalso. apply (Hfresh k); [now left | exact Hin].
  - f_equal. apply IH; [exact Hl|].
    intros k' Hin [Heq|Hin'].
    + subst k'. contradiction.
    + apply (Hfresh k'); [now right | exact Hin'].
Qed.

Lemma serialize_objectFree :
  forall K v, objectFree v = true -> serialize K v = serialize None v.
Proof.
  intros K. induction v using JSON_nested_ind; cbn [serialize objectFree];
    try reflexivity; [|discriminate].
  intros Hfree. rewrite forallb_forall in Hfree. rewrite Forall_forall in H.
  do 3 f_equal. apply map_ext_in. intros x Hx. apply H; [exact Hx | now apply Hfree].
Qed.

Lemma canonicalize_objectFree :
  forall v, objectFree v = true -> canonicalize v = v.
Proof.
  induction v using JSON_nested_ind; cbn [canonicalize objectFree];
    try reflexivity; [|discriminate].
  intros Hfree. rewrite forallb_forall in Hfree. rewrite Forall_forall in H.
  f_equal. rewrite <- (map_id items) at 2. apply map_ext_in.
  intros x Hx. apply H; [exact Hx | now apply Hfree].
Qed.

Lemma serialized_fields_keys :
  forall K (fields : list (string * JSON)),
    map fst (map (fun kv : string * JSON =>
                    match kv with (k, x) => (k, serialize K x) end) fields)
    = map fst fields.
Proof.
  intros K fields. rewrite map_map. apply map_ext. now intros [k x].
Qed.

End SortFacts.

(** X16.  The cache key does not depend on the order in which the
    parameters are written: two parameter objects with distinct
    property names that hold the same properties in different orders
    get the same key, whatever the values are. *)
Theorem generateKey_ignores_parameter_order :
  forall (server tool : string) (args args' : list (string * Json.JSON)),
    NoDup (Json.keys args) ->
    Permutation args args' ->
    ResponseCache.generateKey server tool args
    = ResponseCache.generateKey server tool args'.
Proof.
  intros server tool args args' Hnd Hperm.
  unfold ResponseCache.generateKey, Json.stringifyWith, Json.keys in *.
  rewrite <- (sort_Permutation_eq (map fst args) (map fst args'))
    by now apply Permutation_map.
  set (K := Some (Json.propertyList [] (Json.sort (map fst args)))).
  do 3 f_equal. cbn [Json.serialize]. do 4 f_equal.
  apply flat_map_ext. intros P.
  rewrite (assoc_Permutation _ P
             (map (fun kv : string * Json.JSON =>
                     match kv with (k, x) => (k, Json.serialize K x) end) args)
             (map (fun kv : string * Json.JSON =>
                     match kv with (k, x) => (k, Json.serialize K x) end) args')).
  - reflexivity.
  - now rewrite serialized_fields_keys.
  - now apply Permutation_map.
Qed.

Lemma generateKey_ignores_parameter_order_witness :
  ResponseCache.generateKey "serena" "find_symbol" Fixtures.abOrder
  = ResponseCache.generateKey "serena" "find_symbol" Fixtures.baOrder.
Proof.
  apply (generateKey_ignores_parameter_order "serena" "find_symbol").
  - vm_compute. repeat (constructor; [simpl; intuition discriminate|]). constructor.
  - apply perm_swap.
Defined.

(** X17.  For a flat parameter object (distinct property names, no
    object among the values) the cache key is the server, the tool and
    the canonical JSON of the parameters, joined by colons. *)
Theorem generateKey_canonical_on_flat_parameters :
  forall (server tool : string) (args : list (string * Json.JSON)),
    JsonShape.flatObject args ->
    ResponseCache.generateKey server tool args
    = (server ++ ":" ++ tool ++ ":" ++ Json.canonicalJSON (Json.JObject args))%string.
Proof.
  intros server tool args [Hnd Hflat].
  unfold ResponseCache.generateKey, Json.stringifyWith, Json.canonicalJSON,
    Json.stringify, Json.keys.
  do 3 f_equal.
  assert (Hcanon : map (fun kv : string * Json.JSON =>
                          match kv with (k, x) => (k, Json.canonicalize x) end) args
                   = args).
  { rewrite <- (map_id args) at 2. apply map_ext_in. intros [k x] Hin.
    rewrite Forall_forall in Hflat. specialize (Hflat (k, x) Hin). cbn [snd] in Hflat.
    now rewrite canonicalize_objectFree. }
  cbn [Json.canonicalize]. rewrite Hcanon.
  rewrite propertyList_NoDup.
  2:{ apply (Permutation_NoDup (l := map fst args));
        [symmetry; apply sort_Permutation | exact Hnd]. }
  2:{ intros k _ []. }
  cbn [Json.serialize]. rewrite serialized_fields_keys, sortFields_keys.
  do 4 f_equal. apply flat_map_ext. intros P.
  assert (Hser : forall K (l : list (string * Json.JSON)),
             Forall (fun kv => JsonShape.objectFree (snd kv) = true) l ->
             map (fun kv : string * Json.JSON =>
                    match kv with (k, x) => (k, Json.serialize K x) end) l
             = map (fun kv : string * Json.JSON =>
                      match kv with (k, x) => (k, Json.serialize None x) end) l).
  { intros K l Hl. apply map_ext_in. intros [k x] Hin.
    rewrite Forall_forall in Hl. specialize (Hl (k, x) Hin). cbn [snd] in Hl.
    now rewrite (serialize_objectFree K). }
  rewrite (Hser _ args Hflat).
  rewrite (assoc_Permutation _ P
             (map (fun kv : string * Json.JSON =>
                     match kv with (k, x) => (k, Json.serialize None x) end) args)
             (map (fun kv : string * Json.JSON =>
                     match kv with (k, x) => (k, Json.serialize None x) end)
                  (fold_right Json.insertField [] args))).
  - reflexivity.
  - now rewrite serialized_fields_keys.
  - apply Permutation_map. symmetry. apply sortFields_Permutation.
Qed.

Lemma generateKey_canonical_on_flat_parameters_witness :
  ResponseCache.generateKey "serena" "find_symbol" Fixtures.baOrder
  = ("serena" ++ ":" ++ "find_symbol" ++ ":"
     ++ Json.canonicalJSON (Json.JObject Fixtures.baOrder))%string.
Proof.
  apply (generateKey_canonical_on_flat_parameters "serena" "find_symbol").
  split.
  - vm_compute. repeat (constructor; [simpl; intuition discriminate|]). constructor.
  - repeat constructor.
Defined.

(** ** Text compaction *)

Section CompactionFacts.
Import JS Json Protocol ResponseFormatter TextShape.

Lemma string_app_empty_r : forall s : string, (s ++ "")%string = s.
Proof.
  induction s as [|c s IH]; simpl; [reflexivity | now rewrite IH].
Qed.

Lemma isNewline_isSpace : forall c, isNewline c = true -> isSpace c = true.
Proof.
  intros c Hc. unfold isNewline in Hc. apply Ascii.eqb_eq in Hc. now subst c.
Qed.

Lemma allIn_weaken :
  forall (cls cls' : ascii -> bool),
    (forall c, cls c = true -> cls' c = true) ->
    forall s, allIn cls s = true -> allIn cls' s = true.
Proof.
  intros cls cls' Hsub. induction s as [|c s IH]; simpl; [reflexivity|].
  intros H. apply andb_true_iff in H. destruct H as [Hc Hs].
  now rewrite (Hsub c Hc), IH.
Qed.

Lemma allIn_app :
  forall cls a b, allIn cls (a ++ b) = andb (allIn cls a) (allIn cls b).
Proof.
  intros cls. induction a as [|c a IH]; intros b; simpl; [reflexivity|].
  now rewrite IH, andb_assoc.
Qed.

(** A run that arrives through the input joins the run carried over. *)
Lemma replaceRuns_run_app :
  forall cls min replacement a run b,
    allIn cls a = true ->
    replaceRuns cls min replacement run (a ++ b)
    = replaceRuns cls min replacement (run ++ a) b.
Proof.
  intros cls min replacement. induction a as [|c a IH]; intros run b Ha.
  - now rewrite string_app_empty_r.
  - simpl in Ha. apply andb_true_iff in Ha. destruct Ha as [Hc Ha].
    cbn [append replaceRuns]. rewrite Hc, (IH _ _ Ha), string_append_assoc.
    reflexivity.
Qed.

(** Of a run that is long enough only that fact matters. *)
Lemma replaceRuns_long_run :
  forall cls min replacement s run run',
    (min <= String.length run)%nat -> (min <= String.length run')%nat ->
    replaceRuns cls min replacement run s = replaceRuns cls min replacement run' s.
Proof.
  intros cls min replacement. induction s as [|c s IH]; intros run run' H H';
    cbn [replaceRuns].
  - unfold flushRun. apply Nat.leb_le in H, H'. now rewrite H, H'.
  - destruct (cls c).
    + apply IH; rewrite string_length_append; lia.
    + unfold flushRun. apply Nat.leb_le in H, H'. now rewrite H, H'.
Qed.

Lemma flushRun_newlines_allIn :
  forall run, allIn isNewline run = true ->
    allIn isSpace (flushRun 3 (nl ++ nl) run) = true.
Proof.
  intros run Hrun. unfold flushRun. destruct (Nat.leb 3 (String.length run)).
  - reflexivity.
  - now apply (allIn_weaken isNewline isSpace isNewline_isSpace).
Qed.

(** Replacing long runs of newlines first changes nothing once the
    runs of whitespace are replaced. *)
Lemma newline_rule_absorbed :
  forall s r1 r2,
    allIn isNewline r1 = true ->
    replaceRuns isSpace 2 " " r2 (replaceRuns isNewline 3 (nl ++ nl) r1 s)
    = replaceRuns isSpace 2 " " (r2 ++ r1) s.
Proof.
  induction s as [|c s IH]; intros r1 r2 Hr1.
  - cbn [replaceRuns].
    rewrite <- (string_app_empty_r (flushRun 3 (nl ++ nl) r1)).
    rewrite replaceRuns_run_app by now apply flushRun_newlines_allIn.
    cbn [replaceRuns]. unfold flushRun at 2.
    destruct (Nat.leb_spec 3 (String.length r1)) as [Hlong|Hshort]; [|reflexivity].
    unfold flushRun.
    assert (H1 : Nat.leb 2 (String.length (r2 ++ (nl ++ nl))) = true).
    { apply Nat.leb_le. rewrite string_length_append. simpl. lia. }
    assert (H2 : Nat.leb 2 (String.length (r2 ++ r1)) = true).
    { apply Nat.leb_le. rewrite string_length_append. lia. }
    now rewrite H1, H2.
  - cbn [replaceRuns]. destruct (isNewline c) eqn:Hnl.
    + rewrite (isNewline_isSpace c Hnl). rewrite IH.
      * now rewrite string_append_assoc.
      * rewrite allIn_app, Hr1. simpl. now rewrite Hnl.
    + rewrite replaceRuns_run_app by now apply flushRun_newlines_allIn.
      cbn [replaceRuns]. destruct (isSpace c) eqn:Hsp.
      * rewrite IH by reflexivity. rewrite string_app_empty_r.
        unfold flushRun.
        destruct (Nat.leb_spec 3 (String.length r1)) as [Hlong|Hshort]; [|reflexivity].
        apply replaceRuns_long_run; rewrite !string_length_append; simpl; lia.
      * rewrite (IH "" "" eq_refl). cbn [append]. f_equal.
        unfold flushRun at 2.
        destruct (Nat.leb_spec 3 (String.length r1)) as [Hlong|Hshort]; [|reflexivity].
        unfold flushRun.
        assert (H1 : Nat.leb 2 (String.length (r2 ++ (nl ++ nl))) = true).
        { apply Nat.leb_le. rewrite string_length_append. simpl. lia. }
        assert (H2 : Nat.leb 2 (String.length (r2 ++ r1)) = true).
        { apply Nat.leb_le. rewrite string_length_append. lia. }
        now rewrite H1, H2.
Qed.

Lemma isolated_tail :
  forall cls c s, isolated cls (String c s) = true -> isolated cls s = true.
Proof.
  intros cls c s H. cbn [isolated] in H. apply andb_true_iff in H. tauto.
Qed.

Lemma isolated_after_plain :
  forall cls f c rest,
    (String.length f <= 1)%nat -> cls c = false -> isolated cls rest = true ->
    isolated cls (f ++ String c rest) = true.
Proof.
  intros cls f c rest Hf Hc Hrest.
  assert (Hc' : isolated cls (String c rest) = true).
  { cbn [isolated]. rewrite Hc, Hrest. destruct rest; reflexivity. }
  destruct f as [|x [|y f]]; cbn [append].
  - exact Hc'.
  - cbn [isolated] in Hc' |- *. rewrite Hc', Hc, andb_false_r. reflexivity.
  - simpl in Hf. lia.
Qed.

Lemma flushRun_short :
  forall run, (String.length (flushRun 2 " " run) <= 1)%nat.
Proof.
  intros run. unfold flushRun.
  destruct (Nat.leb_spec 2 (String.length run)); simpl; lia.
Qed.

Lemma replaceRuns_isolated :
  forall s run, isolated isSpace (replaceRuns isSpace 2 " " run s) = true.
Proof.
  induction s as [|c s IH]; intros run; cbn [replaceRuns].
  - pose proof (flushRun_short run) as H.
    destruct (flushRun 2 " " run) as [|x [|y f]]; try reflexivity. simpl in H. lia.
  - destruct (isSpace c) eqn:Hc; [apply IH|].
    apply isolated_after_plain; [apply flushRun_short | exact Hc | apply IH].
Qed.

Lemma trimStart_isolated :
  forall cls s, isolated cls s = true -> isolated cls (trimStart s) = true.
Proof.
  intros cls. induction s as [|c s IH]; intros H; cbn [trimStart]; [reflexivity|].
  destruct (isSpace c); [|exact H]. apply IH. now apply (isolated_tail cls c).
Qed.

Lemma trimEnd_head :
  forall s d r, trimEnd s = String d r -> exists s', s = String d s'.
Proof.
  intros [|c s] d r; cbn [trimEnd]; [discriminate|].
  intros H. exists s. destruct (trimEnd s).
  - destruct (isSpace c); [discriminate | congruence].
  - congruence.
Qed.

Lemma trimEnd_isolated :
  forall cls s, isolated cls s = true -> isolated cls (trimEnd s) = true.
Proof.
  intros cls. induction s as [|c s IH]; intros H; cbn [trimEnd]; [reflexivity|].
  pose proof (IH (isolated_tail cls c s H)) as Hrest.
  destruct (trimEnd s) as [|d r] eqn:Hend.
  - destruct (isSpace c); reflexivity.
  - destruct (trimEnd_head s d r Hend) as (s' & ->).
    cbn [isolated] in H |- *. apply andb_true_iff in H. destruct H as [Hcd _].
    rewrite Hcd. exact Hrest.
Qed.

Lemma trimEnd_idempotent : forall s, trimEnd (trimEnd s) = trimEnd s.
Proof.
  induction s as [|c s IH]; cbn [trimEnd]; [reflexivity|].
  destruct (trimEnd s) as [|d r] eqn:Hend.
  - destruct (isSpace c) eqn:Hc; cbn [trimEnd]; [reflexivity | now rewrite Hc].
  - cbn [trimEnd] in IH |- *. now rewrite IH.
Qed.

Lemma trimStart_head :
  forall s, match trimStart s with
            | String c _ => isSpace c = false
            | EmptyString => True
            end.
Proof.
  induction s as [|c s IH]; cbn [trimStart]; [exact I|].
  destruct (isSpace c) eqn:Hc; [exact IH | exact Hc].
Qed.

Lemma trim_idempotent : forall s, trim (trim s) = trim s.
Proof.
  intros s. unfold trim. pose proof (trimStart_head s) as Hhead.
  destruct (trimEnd (trimStart s)) as [|d r] eqn:Hend; [reflexivity|].
  destruct (trimEnd_head _ d r Hend) as (s' & Hs'). rewrite Hs' in Hhead.
  cbn [trimStart]. rewrite Hhead, <- Hend. apply trimEnd_idempotent.
Qed.

(** Where the class characters stand alone there is nothing to replace. *)
Lemma replaceRuns_isolated_fixed :
  forall cls min replacement s run,
    Nat.leb min 1 = false ->
    (run = "" \/ exists x, run = String x "" /\ cls x = true) ->
    isolated cls (run ++ s) = true ->
    replaceRuns cls min replacement run s = (run ++ s)%string.
Proof.
  intros cls min replacement. induction s as [|c s IH]; intros run Hmin Hrun Hiso;
    cbn [replaceRuns].
  - rewrite string_app_empty_r. unfold flushRun.
    destruct Hrun as [->|(x & -> & _)]; simpl.
    + destruct min; [discriminate | reflexivity].
    + now rewrite Hmin.
  - destruct (cls c) eqn:Hc.
    + destruct Hrun as [->|(x & -> & Hx)].
      * cbn [append] in *. rewrite IH; [reflexivity | exact Hmin | | exact Hiso].
        right. exists c. now split.
      * cbn [append isolated] in Hiso. rewrite Hx, Hc in Hiso. discriminate.
    + assert (Hs : isolated cls s = true).
      { destruct Hrun as [->|(x & -> & _)]; cbn [append] in Hiso.
        - now apply (isolated_tail cls c).
        - apply (isolated_tail cls c). now apply (isolated_tail cls x). }
      rewrite (IH "" Hmin (or_introl eq_refl) Hs). cbn [append].
      unfold flushRun. destruct Hrun as [->|(x & -> & _)]; simpl.
      * destruct min; [discriminate | reflexivity].
      * now rewrite Hmin.
Qed.

Lemma flushRun_length :
  forall min replacement run,
    (String.length replacement <= min)%nat ->
    (String.length (flushRun min replacement run) <= String.length run)%nat.
Proof.
  intros min replacement run H. unfold flushRun.
  destruct (Nat.leb_spec min (String.length run)); lia.
Qed.

Lemma replaceRuns_length :
  forall cls min replacement s run,
    (String.length replacement <= min)%nat ->
    (String.length (replaceRuns cls min replacement run s)
     <= String.length run + String.length s)%nat.
Proof.
  intros cls min replacement. induction s as [|c s IH]; intros run H;
    cbn [replaceRuns].
  - pose proof (flushRun_length min replacement run H). simpl. lia.
  - destruct (cls c).
    + pose proof (IH (run ++ String c "")%string H) as Hle.
      rewrite string_length_append in Hle. simpl in *. lia.
    + rewrite string_length_append.
      pose proof (flushRun_length min replacement run H).
      pose proof (IH "" H). simpl in *. lia.
Qed.

Lemma trimStart_length :
  forall s, (String.length (trimStart s) <= String.length s)%nat.
Proof.
  induction s as [|c s IH]; cbn [trimStart]; [lia|].
  destruct (isSpace c); simpl; lia.
Qed.

Lemma trimEnd_length :
  forall s, (String.length (trimEnd s) <= String.length s)%nat.
Proof.
  induction s as [|c s IH]; cbn [trimEnd]; [lia|].
  destruct (trimEnd s); [destruct (isSpace c)|]; simpl in *; lia.
Qed.

Lemma compressText_absorbed :
  forall t, compressText t = trim (replaceRuns isSpace 2 " " "" t).
Proof.
  intros t. unfold compressText. now rewrite (newline_rule_absorbed t "" "" eq_refl).
Qed.

Lemma compressText_isolated :
  forall t, isolated isSpace (compressText t) = true.
Proof.
  intros t. unfold compressText, trim.
  apply trimEnd_isolated, trimStart_isolated, replaceRuns_isolated.
Qed.

Lemma compressText_idempotent :
  forall t, compressText (compressText t) = compressText t.
Proof.
  intros t. rewrite (compressText_absorbed (compressText t)).
  rewrite replaceRuns_isolated_fixed.
  - cbn [append]. unfold compressText. apply trim_idempotent.
  - reflexivity.
  - now left.
  - apply compressText_isolated.
Qed.

Lemma compressItem_idempotent :
  forall item, compressItem (compressItem item) = compressItem item.
Proof.
  intros item. destruct (text item) as [t|] eqn:Ht.
  - destruct (andb (String.eqb (type item) "text") (negb (String.eqb t ""))) eqn:Hc.
    + assert (E : compressItem item
                  = {| type := "text"; text := Some (compressText t); data := None |}).
      { unfold compressItem. now rewrite Ht, Hc. }
      rewrite E. unfold compressItem. cbn [text type].
      rewrite compressText_idempotent.
      destruct (String.eqb (compressText t) ""); reflexivity.
    + assert (E : compressItem item = item).
      { unfold compressItem. now rewrite Ht, Hc. }
      now rewrite !E.
  - assert (E : compressItem item = item).
    { unfold compressItem. now rewrite Ht. }
    now rewrite !E.
Qed.

End CompactionFacts.

(** X18.  Compacted text is in a normal form: no two whitespace
    characters stand side by side in it, it neither starts nor ends
    with whitespace (trimming it again changes nothing), it is never
    longer than the text it came from, and compacting it again gives
    the same text. *)
Theorem compressText_normal_form :
  forall t : string,
    TextShape.isolated ResponseFormatter.isSpace (ResponseFormatter.compressText t)
      = true /\
    ResponseFormatter.trim (ResponseFormatter.compressText t)
      = ResponseFormatter.compressText t /\
    (String.length (ResponseFormatter.compressText t) <= String.length t)%nat /\
    ResponseFormatter.compressText (ResponseFormatter.compressText t)
      = ResponseFormatter.compressText t.
Proof.
  intros t. split; [apply compressText_isolated|].
  split; [unfold ResponseFormatter.compressText; apply trim_idempotent|].
  split; [|apply compressText_idempotent].
  unfold ResponseFormatter.compressText, ResponseFormatter.trim.
  pose proof (trimEnd_length
                (ResponseFormatter.trimStart
                   (ResponseFormatter.replaceRuns ResponseFormatter.isSpace 2 " " ""
                      (ResponseFormatter.replaceRuns ResponseFormatter.isNewline 3
                         (ResponseFormatter.nl ++ ResponseFormatter.nl) "" t)))).
  pose proof (trimStart_length
                (ResponseFormatter.replaceRuns ResponseFormatter.isSpace 2 " " ""
                   (ResponseFormatter.replaceRuns ResponseFormatter.isNewline 3
                      (ResponseFormatter.nl ++ ResponseFormatter.nl) "" t))).
  pose proof (replaceRuns_length ResponseFormatter.isSpace 2 " "
                (ResponseFormatter.replaceRuns ResponseFormatter.isNewline 3
                   (ResponseFormatter.nl ++ ResponseFormatter.nl) "" t) ""
                ltac:(simpl; lia)).
  pose proof (replaceRuns_length ResponseFormatter.isNewline 3
                (ResponseFormatter.nl ++ ResponseFormatter.nl) t ""
                ltac:(simpl; lia)).
  simpl in *. lia.
Qed.

(** X19.  The first replacement of [compressText], which turns three
    or more newlines into two, never shows in the result: the
    whitespace replacement that follows turns those two newlines into
    one space, so the result is the same as without the first
    replacement, and a line break survives only where it stands alone
    between two characters that are not whitespace. *)
Theorem compressText_newline_rule_has_no_effect :
  forall t : string,
    ResponseFormatter.compressText t
    = ResponseFormatter.trim
        (ResponseFormatter.replaceRuns ResponseFormatter.isSpace 2 " " "" t).
Proof.
  exact compressText_absorbed.
Qed.

(** X20.  [compressResponse] keeps the number of content items and
    the error flag, leaves every item alone that is not a text item
    with a non-empty text, leaves every text of a text item of its
    result in the normal form of [compressText], and compressing a
    compressed response changes nothing. *)
Theorem compressResponse_properties :
  forall r : Protocol.CallToolResult,
    List.length (Protocol.content (ResponseFormatter.compressResponse r))
      = List.length (Protocol.content r) /\
    Protocol.isError (ResponseFormatter.compressResponse r) = Protocol.isError r /\
    (forall item,
       In item (Protocol.content r) ->
       (Protocol.type item <> "text" \/ Protocol.text item = None
        \/ Protocol.text item = Some "") ->
       ResponseFormatter.compressItem item = item) /\
    (forall item t,
       In item (Protocol.content (ResponseFormatter.compressResponse r)) ->
       Protocol.type item = "text" -> Protocol.text item = Some t ->
       ResponseFormatter.compressText t = t) /\
    ResponseFormatter.compressResponse (ResponseFormatter.compressResponse r)
      = ResponseFormatter.compressResponse r.
Proof.
  intros r. unfold ResponseFormatter.compressResponse.
  cbn [Protocol.content Protocol.isError].
  split; [apply length_map|]. split; [reflexivity|]. split; [|split].
  - intros item _ Hcase. unfold ResponseFormatter.compressItem.
    destruct (Protocol.text item) as [t|]; [|reflexivity].
    destruct Hcase as [Htype|[Hnone|Hempty]].
    + apply String.eqb_neq in Htype. now rewrite Htype.
    + discriminate.
    + inversion Hempty; subst t. now rewrite andb_false_r.
  - intros item t Hin Htype Htext. apply in_map_iff in Hin.
    destruct Hin as (item0 & Heq & _). unfold ResponseFormatter.compressItem in Heq.
    destruct (Protocol.text item0) as [t0|] eqn:Ht0.
    + destruct (andb (String.eqb (Protocol.type item0) "text")
                  (negb (String.eqb t0 ""))) eqn:Hc.
      * subst item. cbn [Protocol.text] in Htext. inversion Htext; subst t.
        apply compressText_idempotent.
      * subst item0. rewrite Htext in Ht0. inversion Ht0; subst t0.
        rewrite Htype in Hc. simpl in Hc.
        apply negb_false_iff, String.eqb_eq in Hc. now subst t.
    + subst item0. congruence.
  - f_equal. rewrite map_map. apply map_ext. intros item.
    apply compressItem_idempotent.
Qed.

Lemma compressResponse_properties_witness :
  ResponseFormatter.compressItem
    {| Protocol.type := "image"; Protocol.text := None;
       Protocol.data := Some (Json.JString "AAAA") |}
  = {| Protocol.type := "image"; Protocol.text := None;
       Protocol.data := Some (Json.JString "AAAA") |}.
Proof.
  destruct (compressResponse_properties
              {| Protocol.content :=
                   [ {| Protocol.type := "image"; Protocol.text := None;
                        Protocol.data := Some (Json.JString "AAAA") |} ];
                 Protocol.isError := None |}) as (_ & _ & Hkeep & _).
  apply Hkeep; [now left | right; left; reflexivity].
Defined.

(** ** The order in which queued calls start *)

Section ExecutorOrderFacts.
Import JS Protocol ParallelExecutor ExecutorShape.
Variable cfg : ExecutorConfig.

Lemma app_same_length :
  forall (A : Type) (l1 m1 l2 m2 : list A),
    List.length l1 = List.length m1 -> l1 ++ l2 = m1 ++ m2 -> l2 = m2.
Proof.
  intros A. induction l1 as [|x l1 IH]; intros [|y m1] l2 m2 Hlen Heq;
    simpl in *; try discriminate.
  - exact Heq.
  - inversion Heq. apply (IH m1); [lia | assumption].
Qed.

Ltac count_tickets :=
  apply (Permutation_count_occ Nat.eq_dec); intros x;
  repeat (rewrite ?map_app, ?count_occ_app; cbn [map count_occ]);
  repeat match goal with
         | H : Permutation ?a ?b |- _ =>
             let H' := fresh "Hocc" in
             pose proof (proj1 (Permutation_count_occ Nat.eq_dec a b) H x) as H';
             clear H;
             repeat (rewrite ?map_app, ?count_occ_app in H'; cbn [map count_occ] in H')
         end;
  cbn [ticket fst] in *;
  repeat match goal with
         | |- context [Nat.eq_dec ?a ?b] => destruct (Nat.eq_dec a b)
         | H : context [Nat.eq_dec ?a ?b] |- _ => destruct (Nat.eq_dec a b)
         end;
  try congruence; try lia.

(** A step hands out at most one ticket and loses none. *)
Lemma step_tickets :
  forall s l s',
    coherent cfg s -> step cfg s l s' ->
    match l with
    | Present _ =>
        nextTicket s' = S (nextTicket s) /\
        Permutation (tickets s') (nextTicket s :: tickets s)
    | _ =>
        nextTicket s' = nextTicket s /\ Permutation (tickets s') (tickets s)
    end.
Proof.
  intros s l s' (Hcount & Hcap & Hfull) Hstep. unfold step in Hstep.
  destruct l as [operation | i o | i]; cbn [applyLabel] in Hstep.
  - inversion Hstep; subst s'. unfold executeWithConcurrencyControl, tickets.
    cbn [activeOperations]. cbv zeta.
    destruct (maxConcurrent cfg <=? activeOperations s);
      cbn [startOperation queue inFlight resuming settled nextTicket];
      (split; [reflexivity|]); count_tickets.
  - unfold executorSettles in Hstep.
    destruct (extract ticket i (inFlight s)) as [[t rest]|] eqn:Hex; [|discriminate].
    destruct (extract_Some _ _ _ _ _ Hex) as [Hk Hperm].
    inversion Hstep; subst s'. unfold tickets.
    cbn [queue inFlight resuming settled nextTicket]. split; [reflexivity|].
    apply (Permutation_map ticket) in Hperm. cbn [map] in Hperm. rewrite Hk in Hperm.
    count_tickets.
  - unfold resume in Hstep.
    destruct (extract fst i (resuming s)) as [[[j o] rest]|] eqn:Hex; [|discriminate].
    destruct (extract_Some _ _ _ _ _ Hex) as [Hk Hperm]. cbn [fst] in Hk. subst j.
    inversion Hstep; subst s'. unfold processQueue. cbn [queue].
    match goal with
    | |- context [processLoop cfg (queue s) ?s1] =>
        destruct (processLoop_spec cfg (queue s) s1 eq_refl)
          as (released & Hq & Hin & Hres & Hset & Hnext & _);
        [cbn [activeOperations]; lia|];
        cbn [queue inFlight resuming settled nextTicket] in Hin, Hres, Hset, Hnext;
        set (s' := processLoop cfg (queue s) s1) in *
    end.
    unfold tickets. rewrite Hnext, Hin, Hres, Hset. split; [reflexivity|].
    rewrite Hq.
    apply (Permutation_map fst) in Hperm. cbn [map fst] in Hperm.
    count_tickets.
Qed.

Lemma reachable_tickets :
  0 <= maxConcurrent cfg ->
  forall s, reachable cfg s -> Permutation (tickets s) (seq 0 (nextTicket s)).
Proof.
  intros Hcap s Hreach. induction Hreach as [|s l s' Hreach IH Hstep].
  - reflexivity.
  - pose proof (step_tickets s l s' (reachable_coherent cfg Hcap s Hreach) Hstep) as H.
    destruct l as [operation | i o | i]; destruct H as [Hnext Hperm]; rewrite Hnext.
    + rewrite seq_S. cbn [Nat.add]. rewrite Hperm, IH.
      apply Permutation_cons_append.
    + now rewrite Hperm.
    + now rewrite Hperm.
Qed.


(** The queue holds the most recent tickets, oldest first. *)
Lemma step_queue_recent :
  forall s l s',
    coherent cfg s -> step cfg s l s' ->
    (List.length (queue s) <= nextTicket s)%nat ->
    map ticket (queue s)
      = seq (nextTicket s - List.length (queue s)) (List.length (queue s)) ->
    map ticket (queue s')
      = seq (nextTicket s' - List.length (queue s')) (List.length (queue s')).
Proof.
  intros s l s' Hco Hstep Hlen Hfifo.
  pose proof (step_queue_discipline cfg s l s' Hstep) as Hq.
  pose proof (step_tickets s l s' Hco Hstep) as Ht.
  destruct Hco as (Hcount & Hcap & Hfull).
  destruct l as [operation | i o | i].
  - destruct Ht as [Hnext _]. rewrite Hnext. cbv zeta in Hq.
    destruct (Z.leb_spec (maxConcurrent cfg) (activeOperations s)) as [Hge|Hlt];
      destruct Hq as [Hq _]; rewrite Hq.
    + rewrite map_app, length_app, Hfifo. cbn [map ticket List.length].
      replace (S (nextTicket s) - (List.length (queue s) + 1))%nat
        with (nextTicket s - List.length (queue s))%nat by lia.
      rewrite seq_app. cbn [seq]. do 2 f_equal. lia.
    + destruct (queue s) as [|t q]; [reflexivity|].
      assert (maxConcurrent cfg <= activeOperations s) by (apply Hfull; discriminate).
      lia.
  - destruct Ht as [Hnext _]. destruct Hq as (Hq & _). now rewrite Hnext, Hq.
  - destruct Ht as [Hnext _]. destruct (Hq Hcap) as (released & Hsplit & _).
    rewrite Hnext. rewrite Hsplit in Hfifo, Hlen.
    rewrite map_app, length_app, seq_app in Hfifo. rewrite length_app in Hlen.
    apply app_same_length in Hfifo; [|now rewrite length_map, length_seq].
    rewrite Hfifo. f_equal. lia.
Qed.

Lemma reachable_queue_recent :
  0 <= maxConcurrent cfg ->
  forall s, reachable cfg s ->
    map ticket (queue s)
      = seq (nextTicket s - List.length (queue s)) (List.length (queue s)).
Proof.
  intros Hcap s Hreach. induction Hreach as [|s l s' Hreach IH Hstep].
  - reflexivity.
  - apply (step_queue_recent s l s'); auto.
    + now apply reachable_coherent.
    + pose proof (Permutation_length (reachable_tickets Hcap s Hreach)) as Hlen.
      unfold tickets in Hlen. rewrite !length_app, !length_map, length_seq in Hlen.
      lia.
Qed.

Lemma present_reachable :
  forall operations s,
    reachable cfg s ->
    reachable cfg
      (fold_left (fun st operation => executeWithConcurrencyControl cfg operation st)
                 operations s).
Proof.
  induction operations as [|operation rest IH]; intros s Hs; cbn [fold_left];
    [exact Hs|].
  apply IH. now apply (reachable_step cfg s (Present operation)).
Qed.

End ExecutorOrderFacts.

(** X21.  In every state the executor can reach, each call made so far
    is in exactly one place: the tickets of the calls waiting in the
    queue, running, about to resume and settled are together the
    tickets [0 .. nextTicket - 1], each once.  The queue holds the most
    recently made calls in the order they were made, so calls start in
    the order in which they arrived and no call that is still waiting
    was made before one that has started. *)
Theorem executor_starts_calls_in_arrival_order :
  forall cfg : ParallelExecutor.ExecutorConfig,
    0 <= ParallelExecutor.maxConcurrent cfg ->
    forall s, ParallelExecutor.reachable cfg s ->
      Permutation (ExecutorShape.tickets s) (seq 0 (ParallelExecutor.nextTicket s)) /\
      NoDup (ExecutorShape.tickets s) /\
      map ParallelExecutor.ticket (ParallelExecutor.queue s)
        = seq (ParallelExecutor.nextTicket s
               - List.length (ParallelExecutor.queue s))
              (List.length (ParallelExecutor.queue s)) /\
      (forall i j,
         In i (ExecutorShape.started s) ->
         In j (map ParallelExecutor.ticket (ParallelExecutor.queue s)) ->
         (i < j)%nat).
Proof.
  intros cfg Hcap s Hreach.
  pose proof (reachable_tickets cfg Hcap s Hreach) as Hperm.
  pose proof (reachable_queue_recent cfg Hcap s Hreach) as Hfifo.
  assert (Hnd : NoDup (ExecutorShape.tickets s)).
  { apply (Permutation_NoDup (l := seq 0 (ParallelExecutor.nextTicket s)));
      [now symmetry | apply seq_NoDup]. }
  split; [exact Hperm|]. split; [exact Hnd|]. split; [exact Hfifo|].
  intros i j Hi Hj.
  assert (Hbound : (i < ParallelExecutor.nextTicket s)%nat).
  { assert (Hin : In i (ExecutorShape.tickets s))
      by (unfold ExecutorShape.tickets; apply in_or_app; now right).
    apply (Permutation_in _ Hperm), in_seq in Hin. lia. }
  assert (Hlen : (List.length (ParallelExecutor.queue s)
                  <= ParallelExecutor.nextTicket s)%nat).
  { pose proof (Permutation_length Hperm) as Hl. unfold ExecutorShape.tickets in Hl.
    rewrite !length_app, !length_map, length_seq in Hl. lia. }
  destruct (Nat.lt_ge_cases i j) as [Hlt|Hge]; [exact Hlt|]. exfalso.
  assert (Hiq : In i (map ParallelExecutor.ticket (ParallelExecutor.queue s))).
  { rewrite Hfifo in Hj |- *. apply in_seq in Hj. apply in_seq. lia. }
  unfold ExecutorShape.tickets in Hnd. fold (ExecutorShape.started s) in Hnd.
  apply NoDup_app_remove_l in Hnd as Hstarted.
  assert (Hdisjoint : forall x,
             In x (map ParallelExecutor.ticket (ParallelExecutor.queue s)) ->
             ~ In x (ExecutorShape.started s)).
  { clear - Hnd. induction (map ParallelExecutor.ticket (ParallelExecutor.queue s))
      as [|y q IH]; intros x Hx; [contradiction|].
    cbn [List.app] in Hnd. inversion Hnd as [|? ? Hy Hrest]; subst.
    destruct Hx as [->|Hx]; [|now apply IH].
    intros Hin. apply Hy. apply in_or_app. now right. }
  exact (Hdisjoint i Hiq Hi).
Qed.

Lemma executor_starts_calls_in_arrival_order_witness :
  map ParallelExecutor.ticket (ParallelExecutor.queue Fixtures.threePresented)
  = [2%nat] /\
  NoDup (ExecutorShape.tickets Fixtures.threePresented).
Proof.
  destruct (executor_starts_calls_in_arrival_order Fixtures.capTwo
              ltac:(simpl; lia) Fixtures.threePresented)
    as (_ & Hnd & Hfifo & _).
  - apply present_reachable. apply ParallelExecutor.reachable_idle.
  - split; [exact Hfifo | exact Hnd].
Defined.

(** ** The dispatcher and its cache *)

Section DispatchCacheFacts.
Import JS Json Protocol Registry BridgeServer.

Lemma recordOperation_fields :
  forall m s,
    initialized (recordOperation m s) = initialized s /\
    clients (recordOperation m s) = clients s /\
    cacheConfig (recordOperation m s) = cacheConfig s /\
    cache (recordOperation m s) = cache s /\
    retryConfig (recordOperation m s) = retryConfig s.
Proof.
  intros m s. unfold recordOperation. destruct (metricsEnabled s); repeat split.
Qed.

Lemma get_after_set_hit :
  forall cfg t t' server tool args v c,
    ResponseCache.enabled cfg = true ->
    t' - t <= ResponseCache.ttlSeconds cfg * 1000 ->
    exists c',
      ResponseCache.get cfg t' server tool args
        (ResponseCache.set cfg t server tool args v c) = (c', Some v).
Proof.
  intros cfg t t' server tool args v c Hen Hage.
  unfold ResponseCache.get, ResponseCache.set. rewrite Hen. cbn [negb].
  rewrite assoc_mapSet_same. cbn [ResponseCache.timestamp ResponseCache.value].
  destruct (Z.ltb_spec (ResponseCache.ttlSeconds cfg * 1000) (t' - t)); [lia|].
  eexists. reflexivity.
Qed.


Lemma get_miss_incl :
  forall cfg t server tool args c,
    snd (ResponseCache.get cfg t server tool args c) = None ->
    incl (fst (ResponseCache.get cfg t server tool args c)) c.
Proof.
  intros cfg t server tool args c. unfold ResponseCache.get.
  destruct (negb (ResponseCache.enabled cfg)); [intros _; apply incl_refl|].
  destruct (assoc _ c) as [e|]; [|intros _; apply incl_refl].
  destruct (_ <? _); [|discriminate]. intros _. cbn [fst].
  unfold ResponseCache.mapDelete. apply incl_filter.
Qed.


End DispatchCacheFacts.



(** X23.  What a dispatch leaves alone.  It never changes the
    dispatcher's configuration or its clients.  It adds to the cache
    only on a fresh success of a cacheable operation: for an operation
    that is not cacheable the cache is left exactly as it was, and
    after a dispatch that returns no data (every failure raised by
    validation, routing or the upstream call) the cache holds nothing
    that it did not hold before. *)
Theorem dispatch_cache_discipline :
  forall (env : BridgeServer.Env) (category : Protocol.OperationCategory)
         (operation : string) (params : list (string * Json.JSON))
         (s s' : BridgeServer.Server) (c : BridgeServer.Completion),
    BridgeServer.executeOperation env category operation params s = (s', c) ->
    BridgeServer.initialized s' = BridgeServer.initialized s /\
    BridgeServer.clients s' = BridgeServer.clients s /\
    BridgeServer.cacheConfig s' = BridgeServer.cacheConfig s /\
    BridgeServer.retryConfig s' = BridgeServer.retryConfig s /\
    (forall mapping,
       Registry.getOperationMapping category operation
         = Some (Registry.Mapping mapping) ->
       Registry.cacheable mapping = false ->
       BridgeServer.cache s' = BridgeServer.cache s) /\
    (Registry.getOperationMapping category operation = None ->
     BridgeServer.cache s' = BridgeServer.cache s) /\
    (Registry.getOperationMapping category operation = Some Registry.Inherited ->
     BridgeServer.cache s' = BridgeServer.cache s) /\
    (forall r,
       c = BridgeServer.Returns r -> Protocol.responseData r = None ->
       incl (BridgeServer.cache s') (BridgeServer.cache s)).
Proof.
  intros env category operation params s s' c H.
  unfold BridgeServer.executeOperation in H.
  destruct (BridgeServer.initialized s) eqn:Hinit; cbn [negb] in H;
    [|inversion H; subst; repeat split; auto; intros; apply incl_refl].
  destruct (Registry.isValidOperation category operation) eqn:Hvalid;
    cbn [negb] in H;
    [|inversion H; subst; repeat split; auto; intros; apply incl_refl].
  destruct (Registry.getOperationMapping category operation)
    as [[mapping|]|] eqn:Hmap;
    [ | inversion H; subst; repeat split; auto; intros; apply incl_refl
      | inversion H; subst; repeat split; auto; intros; apply incl_refl ].
  destruct (BridgeServer.hasClient s (Registry.server mapping)) eqn:Hclient;
    cbn [negb] in H;
    [|inversion H; subst; repeat split; auto; intros; apply incl_refl].
  destruct (Registry.cacheable mapping) eqn:Hc.
  - destruct (ResponseCache.get _ _ _ _ _ _) as [c1 [hit|]] eqn:Hget.
    + inversion H as [[Hs Hcompl]]. clear H.
      match goal with
      | |- context [BridgeServer.recordOperation ?m ?s0] =>
          destruct (recordOperation_fields m s0)
            as (Hi & Hcl & Hcfg & Hca & Hre)
      end.
      rewrite Hi, Hcl, Hcfg, Hre. cbn [BridgeServer.withCache BridgeServer.initialized
        BridgeServer.clients BridgeServer.cacheConfig BridgeServer.retryConfig].
      split; [exact Hinit|]. split; [reflexivity|]. split; [reflexivity|].
      split; [reflexivity|]. split; [intros m Hm; congruence|].
      split; [discriminate|]. split; [discriminate|].
      intros r Hr Hnone. inversion Hr; subst r. discriminate.
    + assert (Hincl : incl c1 (BridgeServer.cache s)).
      { pose proof (get_miss_incl (BridgeServer.cacheConfig s) (BridgeServer.now env)
                      (MCPClient.serverNameString (Registry.server mapping))
                      (Registry.tool mapping) params (BridgeServer.cache s)) as Hm.
        rewrite Hget in Hm. now apply Hm. }
      destruct (ErrorHandler.success _) eqn:Hsucc;
        [destruct (ErrorHandler.result _) as [result|] eqn:Hres|];
        inversion H as [[Hs Hcompl]]; clear H;
        match goal with
        | |- context [BridgeServer.recordOperation ?m ?s0] =>
            destruct (recordOperation_fields m s0)
              as (Hi & Hcl & Hcfg & Hca & Hre)
        end;
        rewrite Hi, Hcl, Hcfg, Hre, ?Hca;
        cbn [BridgeServer.withCache BridgeServer.initialized BridgeServer.clients
             BridgeServer.cacheConfig BridgeServer.retryConfig BridgeServer.cache];
        (split; [exact Hinit|]); (split; [reflexivity|]); (split; [reflexivity|]);
        (split; [reflexivity|]); (split; [intros m Hm; congruence|]);
        (split; [discriminate|]); (split; [discriminate|]);
        intros r Hr Hnone; inversion Hr; subst r;
        try discriminate; exact Hincl.
  - cbv beta iota zeta in H.
    destruct (ErrorHandler.success _) eqn:Hsucc;
      [destruct (ErrorHandler.result _) as [result|] eqn:Hres|];
      inversion H as [[Hs Hcompl]]; clear H;
      match goal with
      | |- context [BridgeServer.recordOperation ?m ?s0] =>
          destruct (recordOperation_fields m s0)
            as (Hi & Hcl & Hcfg & Hca & Hre)
      end;
      rewrite Hi, Hcl, Hcfg, Hre, ?Hca;
      cbn [BridgeServer.withCache BridgeServer.initialized BridgeServer.clients
           BridgeServer.cacheConfig BridgeServer.retryConfig BridgeServer.cache];
      (split; [exact Hinit|]); (split; [reflexivity|]); (split; [reflexivity|]);
      (split; [reflexivity|]); (split; [reflexivity|]);
      (split; [discriminate|]); (split; [discriminate|]);
      intros; apply incl_refl.
Qed.


Lemma dispatch_cache_discipline_witness :
  BridgeServer.cache
    (fst (BridgeServer.executeOperation (Fixtures.answering (Fixtures.textResult "ok"))
            Protocol.code_operations "editFile" Fixtures.userQuery
            Fixtures.readyServer))
  = BridgeServer.cache Fixtures.readyServer.
Proof.
  destruct (dispatch_cache_discipline (Fixtures.answering (Fixtures.textResult "ok"))
              Protocol.code_operations "editFile" Fixtures.userQuery
              Fixtures.readyServer
              (fst (BridgeServer.executeOperation
                      (Fixtures.answering (Fixtures.textResult "ok"))
                      Protocol.code_operations "editFile" Fixtures.userQuery
                      Fixtures.readyServer))
              (snd (BridgeServer.executeOperation
                      (Fixtures.answering (Fixtures.textResult "ok"))
                      Protocol.code_operations "editFile" Fixtures.userQuery
                      Fixtures.readyServer)))
    as (_ & _ & _ & _ & Hkeep & _).
  - vm_compute. reflexivity.
  - apply (Hkeep {| Registry.server := MCPClient.serena;
                    Registry.tool := "replace_lines";
                    Registry.cacheable := false |}); reflexivity.
Defined.

(** ** The operation registry *)

Section RegistryFacts.
Import JS Json Protocol Registry RegistryQueries.

Lemma assoc_Some_In :
  forall (A : Type) k (x : A) l, assoc k l = Some x -> In (k, x) l.
Proof.
  intros A k x. induction l as [|[k' y] l IH]; simpl; [discriminate|].
  destruct (String.eqb_spec k' k) as [->|Hne].
  - intros H. inversion H. now left.
  - intros H. right. now apply IH.
Qed.

Lemma assoc_In_NoDup :
  forall (A : Type) k (x : A) l,
    NoDup (map fst l) -> In (k, x) l -> assoc k l = Some x.
Proof.
  intros A k x. induction l as [|[k' y] l IH]; simpl; intros Hnd Hin; [contradiction|].
  inversion Hnd as [|? ? Hk Hl]; subst.
  destruct Hin as [Heq|Hin].
  - inversion Heq; subst. now rewrite String.eqb_refl.
  - destruct (String.eqb_spec k' k) as [->|Hne]; [|now apply IH].
    exfalso. apply Hk. apply in_map_iff. now exists (k, x).
Qed.

Lemma string_NoDup_dec :
  forall l : list string,
    (fix distinct (l : list string) : bool :=
       match l with
       | [] => true
       | k :: rest => andb (negb (existsb (String.eqb k) rest)) (distinct rest)
       end) l = true -> NoDup l.
Proof.
  induction l as [|k l IH]; intros H; constructor.
  - apply andb_true_iff in H. destruct H as [H _].
    apply negb_true_iff in H. intros Hin.
    assert (existsb (String.eqb k) l = true).
    { apply existsb_exists. exists k. split; [exact Hin | apply String.eqb_refl]. }
    congruence.
  - apply IH. apply andb_true_iff in H. tauto.
Qed.

Lemma listOperations_NoDup : forall c, NoDup (listOperations c).
Proof.
  intros c. apply string_NoDup_dec. destruct c; vm_compute; reflexivity.
Qed.

Lemma registry_servers :
  forall c,
    forallb (fun kv => MCPClient.ServerName_eqb (server (snd kv)) (categoryServer c))
            (OPERATION_REGISTRY c) = true.
Proof.
  intros c. destruct c; vm_compute; reflexivity.
Qed.

Lemma ServerName_eqb_eq :
  forall a b, MCPClient.ServerName_eqb a b = true <-> a = b.
Proof.
  intros a b. split.
  - destruct a, b; simpl; intros H; try reflexivity; discriminate.
  - intros ->. unfold MCPClient.ServerName_eqb. apply String.eqb_refl.
Qed.

End RegistryFacts.

Lemma getOperationMapping_listed :
  forall c operation m,
    In (operation, m) (Registry.OPERATION_REGISTRY c) ->
    Registry.getOperationMapping c operation = Some (Registry.Mapping m).
Proof.
  intros c operation m Hin. unfold Registry.getOperationMapping.
  now rewrite (assoc_In_NoDup _ operation m _ (listOperations_NoDup c) Hin).
Qed.

Lemma getOperationMapping_Mapping :
  forall c operation m,
    Registry.getOperationMapping c operation = Some (Registry.Mapping m) ->
    In (operation, m) (Registry.OPERATION_REGISTRY c).
Proof.
  intros c operation m. unfold Registry.getOperationMapping.
  destruct (Json.assoc operation (Registry.OPERATION_REGISTRY c)) as [m'|] eqn:Hfind.
  - intros H. inversion H; subst. now apply assoc_Some_In.
  - destruct (existsb _ _); discriminate.
Qed.

(** X24.  The operation registry.  A name is valid in a category
    exactly when it is listed there or is one of the twelve member
    names that every plain object inherits ([constructor], [toString],
    [__proto__], ...); for a listed name the lookup returns its
    mapping, for an inherited name it returns the inherited member,
    which is no mapping.  No operation is listed twice in a category
    and none has an inherited name; every mapping of a category is
    routed to the one upstream of that category; and the table has the
    57 operations it announces: 23, 2, 21, 4 and 7. *)
Theorem registry_is_consistent :
  (forall c operation,
     Registry.isValidOperation c operation = true <->
     In operation (Registry.listOperations c) \/
     In operation Registry.objectPrototypeNames) /\
  (forall c operation,
     In operation (Registry.listOperations c) <->
     exists m, Registry.getOperationMapping c operation = Some (Registry.Mapping m)) /\
  (forall c operation,
     Registry.getOperationMapping c operation = Some Registry.Inherited <->
     In operation Registry.objectPrototypeNames) /\
  (forall c, NoDup (Registry.listOperations c)) /\
  (forall c operation m,
     Registry.getOperationMapping c operation = Some (Registry.Mapping m) ->
     Registry.server m = RegistryQueries.categoryServer c) /\
  map (fun c => List.length (Registry.listOperations c)) RegistryQueries.categories
    = [23; 2; 21; 4; 7]%nat.
Proof.
  assert (Hlisted : forall c operation,
             In operation (Registry.listOperations c) <->
             exists m, Registry.getOperationMapping c operation
                       = Some (Registry.Mapping m)).
  { intros c operation. unfold Registry.listOperations. split.
    - intros Hin. apply in_map_iff in Hin. destruct Hin as ([k m] & Hk & Hin).
      cbn [fst] in Hk. subst k. exists m. now apply getOperationMapping_listed.
    - intros (m & Hm). apply getOperationMapping_Mapping in Hm.
      apply in_map_iff. now exists (operation, m). }
  assert (Hdisjoint : forall c operation,
             In operation (Registry.listOperations c) ->
             existsb (String.eqb operation) Registry.objectPrototypeNames = false).
  { intros c operation Hin.
    assert (Hall : forallb
                     (fun k => negb (existsb (String.eqb k)
                                       Registry.objectPrototypeNames))
                     (Registry.listOperations c) = true)
      by (destruct c; vm_compute; reflexivity).
    rewrite forallb_forall in Hall. apply negb_true_iff. now apply Hall. }
  assert (Hinherited : forall c operation,
             Registry.getOperationMapping c operation = Some Registry.Inherited <->
             In operation Registry.objectPrototypeNames).
  { intros c operation. unfold Registry.getOperationMapping.
    destruct (Json.assoc operation (Registry.OPERATION_REGISTRY c)) as [m|] eqn:Hfind.
    - split; [discriminate|]. intros Hin. exfalso.
      assert (Hl : In operation (Registry.listOperations c)).
      { apply assoc_Some_In in Hfind. unfold Registry.listOperations.
        apply in_map_iff. now exists (operation, m). }
      apply Hdisjoint in Hl.
      assert (Ht : existsb (String.eqb operation) Registry.objectPrototypeNames
                   = true).
      { apply existsb_exists. exists operation. split; [exact Hin|].
        apply String.eqb_refl. }
      congruence.
    - destruct (existsb (String.eqb operation) Registry.objectPrototypeNames)
        eqn:Hex.
      + split; [intros _|reflexivity]. apply existsb_exists in Hex.
        destruct Hex as (k & Hk & Heq). apply String.eqb_eq in Heq. now subst k.
      + split; [discriminate|]. intros Hin.
        assert (Ht : existsb (String.eqb operation) Registry.objectPrototypeNames
                     = true).
        { apply existsb_exists. exists operation. split; [exact Hin|].
          apply String.eqb_refl. }
        congruence. }
  split; [|split; [exact Hlisted|split; [exact Hinherited|
          split; [exact listOperations_NoDup|split; [|reflexivity]]]]].
  - intros c operation. rewrite Hlisted, <- (Hinherited c).
    unfold Registry.isValidOperation.
    destruct (Registry.getOperationMapping c operation) as [[m|]|]; split;
      try reflexivity; try discriminate.
    + intros _. left. now exists m.
    + intros _. now right.
    + intros [(m & Hm)|Hm]; discriminate.
  - intros c operation m Hmap. apply getOperationMapping_Mapping in Hmap.
    pose proof (registry_servers c) as Hall. rewrite forallb_forall in Hall.
    apply ServerName_eqb_eq. exact (Hall (operation, m) Hmap).
Qed.

Lemma registry_is_consistent_witness :
  Registry.isValidOperation Protocol.code_operations "toString" = true /\
  Registry.server Fixtures.findSymbolMapping = MCPClient.serena.
Proof.
  destruct registry_is_consistent as (Hvalid & _ & _ & _ & Hserver & _). split.
  - apply (Hvalid Protocol.code_operations "toString"). right. simpl. tauto.
  - apply (Hserver Protocol.code_operations "findSymbol"). reflexivity.
Defined.

(** X25.  [getCacheableOperations(server)] lists exactly the operations
    that have a cacheable mapping to that upstream in some category,
    and all of them belong to the category of that upstream. *)
Theorem getCacheableOperations_spec :
  forall (sv : MCPClient.ServerName) (operation : string),
    In operation (RegistryQueries.getCacheableOperations sv) <->
    exists c m,
      Registry.getOperationMapping c operation = Some (Registry.Mapping m) /\
      Registry.server m = sv /\ Registry.cacheable m = true /\
      RegistryQueries.categoryServer c = sv.
Proof.
  intros sv operation. unfold RegistryQueries.getCacheableOperations. split.
  - intros Hin. apply in_flat_map in Hin. destruct Hin as (c & _ & Hin).
    apply in_map_iff in Hin. destruct Hin as ([k m] & Hk & Hin).
    cbn [fst] in Hk. subst k. apply filter_In in Hin. destruct Hin as [Hin Hkeep].
    cbn [snd] in Hkeep. apply andb_true_iff in Hkeep. destruct Hkeep as [Hsv Hc].
    apply ServerName_eqb_eq in Hsv.
    assert (Hmap : Registry.getOperationMapping c operation
                   = Some (Registry.Mapping m)).
    { now apply getOperationMapping_listed. }
    exists c, m. split; [exact Hmap|]. split; [exact Hsv|]. split; [exact Hc|].
    pose proof (registry_servers c) as Hall. rewrite forallb_forall in Hall.
    specialize (Hall (operation, m) Hin). apply ServerName_eqb_eq in Hall.
    cbn [snd] in Hall. congruence.
  - intros (c & m & Hmap & Hsv & Hc & _). apply in_flat_map. exists c. split.
    + destruct c; simpl; tauto.
    + apply in_map_iff. exists (operation, m). split; [reflexivity|].
      apply filter_In. split.
      * now apply getOperationMapping_Mapping.
      * cbn [snd]. rewrite Hc, andb_true_r. now apply ServerName_eqb_eq.
Qed.

Lemma getCacheableOperations_spec_witness :
  In "findSymbol" (RegistryQueries.getCacheableOperations MCPClient.serena).
Proof.
  apply (getCacheableOperations_spec MCPClient.serena "findSymbol").
  exists Protocol.code_operations, Fixtures.findSymbolMapping.
  repeat split; reflexivity.
Defined.

(** ** The metrics collector *)

Section MetricsFacts.
Import BridgeServer MetricsCollector.

Lemma sumFrom_shift :
  forall f ms start, sumFrom f start ms = start + sumFrom f 0 ms.
Proof.
  intros f. unfold sumFrom. induction ms as [|m ms IH]; intros start; cbn [fold_left].
  - lia.
  - rewrite IH, (IH (0 + f m)). lia.
Qed.

Lemma sumFrom_cons :
  forall f m ms, sumFrom f 0 (m :: ms) = f m + sumFrom f 0 ms.
Proof.
  intros f m ms. unfold sumFrom at 1. cbn [fold_left].
  fold (sumFrom f (0 + f m) ms). rewrite sumFrom_shift. lia.
Qed.

Lemma sumFrom_nonneg :
  forall f ms, Forall (fun m => 0 <= f m) ms -> 0 <= sumFrom f 0 ms.
Proof.
  intros f. induction ms as [|m ms IH]; intros H.
  - unfold sumFrom. simpl. lia.
  - inversion H; subst. rewrite sumFrom_cons. specialize (IH ltac:(assumption)). lia.
Qed.

Lemma count_cons : forall m ms, count (m :: ms) = 1 + count ms.
Proof. intros m ms. unfold count. cbn [List.length]. lia. Qed.

Section Distinct.
Context {A : Type}.
Variable eqb : A -> A -> bool.
Hypothesis eqb_spec : forall a b, eqb a b = true <-> a = b.

Lemma existsb_eqb_In :
  forall x l, existsb (eqb x) l = true <-> In x l.
Proof.
  intros x l. rewrite existsb_exists. split.
  - intros (y & Hin & Heq). apply eqb_spec in Heq. now subst y.
  - intros Hin. exists x. split; [exact Hin | now apply eqb_spec].
Qed.

Lemma distinct_In :
  forall items seen x,
    In x (distinct eqb seen items) <-> In x items /\ ~ In x seen.
Proof.
  induction items as [|y items IH]; intros seen x; cbn [distinct].
  - simpl. tauto.
  - destruct (existsb (eqb y) seen) eqn:Hseen.
    + apply existsb_eqb_In in Hseen. rewrite IH. simpl. split.
      * tauto.
      * intros [[->|Hin] Hnot]; [contradiction | tauto].
    + assert (Hy : ~ In y seen).
      { intros Hin. apply existsb_eqb_In in Hin. congruence. }
      simpl. rewrite IH. simpl. split.
      * intros [->|[Hin Hnot]]; [tauto|]. split; [tauto|]. tauto.
      * intros [[->|Hin] Hnot]; [now left|].
        destruct (eqb y x) eqn:Hyx.
        -- apply eqb_spec in Hyx. now left.
        -- right. split; [exact Hin|]. intros [Heq|Hs]; [|contradiction].
           apply eqb_spec in Heq. congruence.
Qed.

Lemma distinct_NoDup :
  forall items seen, NoDup (distinct eqb seen items).
Proof.
  induction items as [|y items IH]; intros seen; cbn [distinct]; [constructor|].
  destruct (existsb (eqb y) seen); [apply IH|].
  constructor; [|apply IH]. rewrite distinct_In. simpl. tauto.
Qed.

(** The groups of a list by a key, taken over distinct keys that cover
    the list, add up to the whole list. *)
Lemma indicator_sum :
  forall (v : Z) a keys,
    NoDup keys -> In a keys ->
    fold_right Z.add 0 (map (fun k => if eqb a k then v else 0) keys) = v.
Proof.
  intros v a. induction keys as [|k keys IH]; intros Hnd Hin; [contradiction|].
  inversion Hnd as [|? ? Hk Hrest]; subst. cbn [map fold_right].
  destruct Hin as [->|Hin].
  - assert (H : eqb a a = true) by now apply eqb_spec. rewrite H.
    assert (Hzero : fold_right Z.add 0 (map (fun k => if eqb a k then v else 0) keys)
                    = 0).
    { clear IH Hnd Hrest. induction keys as [|k keys IH]; [reflexivity|].
      cbn [map fold_right]. destruct (eqb a k) eqn:Hak.
      - apply eqb_spec in Hak. subst k. exfalso. apply Hk. now left.
      - rewrite IH; [reflexivity|]. intros Hin. apply Hk. now right. }
    rewrite Hzero. lia.
  - destruct (eqb a k) eqn:Hak.
    + apply eqb_spec in Hak. subst k. contradiction.
    + rewrite (IH Hrest Hin). lia.
Qed.

Lemma groups_add_up :
  forall (key : OperationMetric -> A) (f : OperationMetric -> Z) keys ms,
    NoDup keys ->
    (forall m, In m ms -> In (key m) keys) ->
    fold_right Z.add 0
      (map (fun k => sumFrom f 0 (filter (fun m => eqb (key m) k) ms)) keys)
    = sumFrom f 0 ms.
Proof.
  intros key f keys ms Hnd. induction ms as [|m ms IH]; intros Hcover.
  - cbn [filter]. unfold sumFrom. cbn [fold_left]. clear Hnd Hcover.
    induction keys as [|k keys IHk]; [reflexivity|]. cbn [map fold_right].
    rewrite IHk. reflexivity.
  - assert (Hsplit : forall l,
               fold_right Z.add 0
                 (map (fun k => sumFrom f 0 (filter (fun x => eqb (key x) k) (m :: ms)))
                      l)
               = fold_right Z.add 0 (map (fun k => if eqb (key m) k then f m else 0) l)
                 + fold_right Z.add 0
                     (map (fun k => sumFrom f 0 (filter (fun x => eqb (key x) k) ms))
                          l)).
    { induction l as [|k l IHl]; cbn [map fold_right]; [reflexivity|].
      rewrite IHl. cbn [filter].
      destruct (eqb (key m) k); [rewrite sumFrom_cons|]; lia. }
    rewrite Hsplit, IH by (intros x Hx; apply Hcover; now right).
    rewrite (indicator_sum (f m) (key m) keys Hnd (Hcover m (or_introl eq_refl))).
    now rewrite sumFrom_cons.
Qed.

End Distinct.

Lemma count_sumFrom : forall ms, count ms = sumFrom (fun _ => 1) 0 ms.
Proof.
  induction ms as [|m ms IH]; [reflexivity|].
  now rewrite count_cons, sumFrom_cons, IH.
Qed.

Lemma string_eqb_spec' : forall a b : string, String.eqb a b = true <-> a = b.
Proof. intros a b. apply String.eqb_eq. Qed.

Lemma schema_tokens_bounds :
  forall servers start,
    NoDup servers ->
    start + 2000 * Z.of_nat (List.length servers)
      <= fold_left (fun sum sv => sum + toolSchemaTokensPerServer sv) servers start
      <= start + 57000.
Proof.
  intros servers start Hnd.
  assert (Hsum : forall l s,
             fold_left (fun sum sv => sum + toolSchemaTokensPerServer sv) l s
             = s + fold_right Z.add 0 (map toolSchemaTokensPerServer l)).
  { induction l as [|x l IH]; intros s; cbn [fold_left map fold_right]; [lia|].
    rewrite IH. lia. }
  rewrite Hsum.
  assert (Hlow : forall l,
             2000 * Z.of_nat (List.length l)
             <= fold_right Z.add 0 (map toolSchemaTokensPerServer l)).
  { induction l as [|x l IH]; cbn [map fold_right List.length]; [lia|].
    destruct x; simpl toolSchemaTokensPerServer; lia. }
  assert (Hhigh : fold_right Z.add 0 (map toolSchemaTokensPerServer servers) <= 57000).
  { assert (Hall : forall sv, In sv [MCPClient.serena; MCPClient.context7;
                                     MCPClient.playwright; MCPClient.tavily;
                                     MCPClient.shadcn])
      by (intros sv; destruct sv; simpl; tauto).
    assert (Hincl : forall (l all : list MCPClient.ServerName),
               NoDup l -> (forall sv, In sv l -> In sv all) ->
               fold_right Z.add 0 (map toolSchemaTokensPerServer l)
               <= fold_right Z.add 0 (map toolSchemaTokensPerServer all)).
    { induction l as [|x l IH]; intros all Hl Hsub; cbn [map fold_right].
      - clear Hsub. induction all as [|y all IHa]; cbn [map fold_right]; [lia|].
        destruct y; simpl toolSchemaTokensPerServer; lia.
      - inversion Hl as [|? ? Hx Hrest]; subst.
        destruct (in_split x all (Hsub x (or_introl eq_refl))) as (a1 & a2 & ->).
        specialize (IH (a1 ++ a2) Hrest).
        rewrite map_app in *. cbn [map] in *. rewrite fold_right_app in *.
        cbn [fold_right] in *.
        assert (Hshift : forall (u : list Z) (z : Z),
                   fold_right Z.add z u = z + fold_right Z.add 0 u).
        { induction u as [|y u IHu]; intros z; cbn [fold_right]; [lia|].
          rewrite IHu. lia. }
        rewrite (Hshift _ (_ + _)). rewrite (Hshift _ (fold_right _ _ _)) in IH.
        assert (Hsub' : forall sv, In sv l -> In sv (a1 ++ a2)).
        { intros sv Hsv. specialize (Hsub sv (or_intror Hsv)).
          apply in_app_or in Hsub. apply in_or_app.
          destruct Hsub as [H|[H|H]]; [now left | | now right].
          subst sv. contradiction. }
        specialize (IH Hsub'). lia. }
    apply Z.le_trans
      with (fold_right Z.add 0
              (map toolSchemaTokensPerServer
                 [MCPClient.serena; MCPClient.context7; MCPClient.playwright;
                  MCPClient.tavily; MCPClient.shadcn])).
    - apply (Hincl servers _ Hnd). intros sv _. apply Hall.
    - simpl. lia. }
  specialize (Hlow servers). lia.
Qed.

End MetricsFacts.

(** X26.  The summary of the collected metrics is consistent: the
    successful and the failed operations add up to the total and none
    of the counts is negative; every upstream that occurs in the
    metrics has exactly one row in [byServer], and the rows partition
    the metrics, so their operation counts add up to [totalOperations]
    and their tokens to [totalTokens].  No operation name has two rows
    in [byOperation], and when no recorded operation is named
    [__proto__] the same holds for [byOperation]: every operation name
    has its row and the rows add up to the totals. *)
Theorem getSummary_is_consistent :
  forall ms : list BridgeServer.OperationMetric,
    let s := MetricsCollector.getSummary ms in
    MetricsCollector.successfulOperations s + MetricsCollector.failedOperations s
      = MetricsCollector.totalOperations s /\
    0 <= MetricsCollector.successfulOperations s /\
    0 <= MetricsCollector.failedOperations s /\
    NoDup (map fst (MetricsCollector.byServer s)) /\
    NoDup (map fst (MetricsCollector.byOperation s)) /\
    (forall m, In m ms ->
       In (BridgeServer.metricServer m) (map fst (MetricsCollector.byServer s))) /\
    MetricsCollector.column MetricsCollector.operations (MetricsCollector.byServer s)
      = MetricsCollector.totalOperations s /\
    MetricsCollector.column MetricsCollector.tokens (MetricsCollector.byServer s)
      = MetricsCollector.totalTokens s /\
    (Forall (fun m => BridgeServer.metricOperation m <> "__proto__") ms ->
     (forall m, In m ms ->
        In (BridgeServer.metricOperation m)
           (map fst (MetricsCollector.byOperation s))) /\
     MetricsCollector.column MetricsCollector.operations
       (MetricsCollector.byOperation s)
       = MetricsCollector.totalOperations s /\
     MetricsCollector.column MetricsCollector.tokens (MetricsCollector.byOperation s)
       = MetricsCollector.totalTokens s).
Proof.
  intros ms s. subst s. unfold MetricsCollector.getSummary.
  cbn [MetricsCollector.totalOperations MetricsCollector.successfulOperations
       MetricsCollector.failedOperations MetricsCollector.totalTokens
       MetricsCollector.byServer MetricsCollector.byOperation].
  assert (Hkeys1 : map fst (MetricsCollector.aggregateByServer ms)
                   = MetricsCollector.distinct MCPClient.ServerName_eqb []
                       (map BridgeServer.metricServer ms)).
  { unfold MetricsCollector.aggregateByServer. rewrite map_map. cbn [fst].
    apply map_id. }
  assert (Hkeys2 : map fst (MetricsCollector.aggregateByOperation ms)
                   = filter (fun op => negb (String.eqb op "__proto__"))
                       (MetricsCollector.distinct String.eqb []
                          (map BridgeServer.metricOperation ms))).
  { unfold MetricsCollector.aggregateByOperation. rewrite map_map. cbn [fst].
    apply map_id. }
  assert (Hcover1 : forall m, In m ms ->
             In (BridgeServer.metricServer m)
                (MetricsCollector.distinct MCPClient.ServerName_eqb []
                   (map BridgeServer.metricServer ms))).
  { intros m Hm. apply (distinct_In _ ServerName_eqb_eq).
    split; [now apply in_map | intros []]. }
  pose proof (distinct_NoDup _ ServerName_eqb_eq
                (map BridgeServer.metricServer ms) []) as Hnd1.
  pose proof (distinct_NoDup _ string_eqb_spec'
                (map BridgeServer.metricOperation ms) []) as Hnd2.
  assert (Hfilter : (List.length (filter BridgeServer.metricSuccess ms)
                     <= List.length ms)%nat) by apply filter_length_le.
  unfold MetricsCollector.count.
  split; [lia|]. split; [lia|]. split; [lia|].
  split; [now rewrite Hkeys1|].
  split; [rewrite Hkeys2; now apply NoDup_filter|].
  split; [intros m Hm; rewrite Hkeys1; auto|].
  fold (MetricsCollector.count ms). rewrite (count_sumFrom ms).
  split; [|split].
  - unfold MetricsCollector.column, MetricsCollector.aggregateByServer.
    rewrite !map_map. cbn [snd MetricsCollector.aggregate MetricsCollector.operations].
    rewrite <- (groups_add_up _ ServerName_eqb_eq BridgeServer.metricServer
                  (fun _ => 1) _ ms Hnd1 Hcover1).
    f_equal. apply map_ext. intros sv. apply count_sumFrom.
  - unfold MetricsCollector.column, MetricsCollector.aggregateByServer.
    rewrite !map_map. cbn [snd MetricsCollector.aggregate MetricsCollector.tokens].
    apply (groups_add_up _ ServerName_eqb_eq BridgeServer.metricServer
             BridgeServer.metricTokensEstimate _ ms Hnd1 Hcover1).
  - intros Hnames.
    assert (Hkeep : filter (fun op => negb (String.eqb op "__proto__"))
                      (MetricsCollector.distinct String.eqb []
                         (map BridgeServer.metricOperation ms))
                    = MetricsCollector.distinct String.eqb []
                        (map BridgeServer.metricOperation ms)).
    { apply forallb_filter_id. apply forallb_forall. intros op Hop.
      apply (distinct_In _ string_eqb_spec') in Hop. destruct Hop as [Hop _].
      apply in_map_iff in Hop. destruct Hop as (m & <- & Hm).
      rewrite Forall_forall in Hnames. apply negb_true_iff, String.eqb_neq.
      now apply Hnames. }
    assert (Hcover2 : forall m, In m ms ->
               In (BridgeServer.metricOperation m)
                  (MetricsCollector.distinct String.eqb []
                     (map BridgeServer.metricOperation ms))).
    { intros m Hm. apply (distinct_In _ string_eqb_spec').
      split; [now apply in_map | intros []]. }
    split; [intros m Hm; rewrite Hkeys2, Hkeep; auto|].
    unfold MetricsCollector.column, MetricsCollector.aggregateByOperation.
    rewrite Hkeep, !map_map.
    cbn [snd MetricsCollector.aggregate MetricsCollector.operations
         MetricsCollector.tokens].
    split.
    + rewrite <- (groups_add_up _ string_eqb_spec' BridgeServer.metricOperation
                    (fun _ => 1) _ ms Hnd2 Hcover2).
      f_equal. apply map_ext. intros op. apply count_sumFrom.
    + apply (groups_add_up _ string_eqb_spec' BridgeServer.metricOperation
               BridgeServer.metricTokensEstimate _ ms Hnd2 Hcover2).
Qed.

Lemma getSummary_is_consistent_witness :
  In MCPClient.context7
     (map fst (MetricsCollector.byServer
                 (MetricsCollector.getSummary Fixtures.threeMetrics))).
Proof.
  destruct (getSummary_is_consistent Fixtures.threeMetrics)
    as (_ & _ & _ & _ & _ & Hrows & _).
  apply (Hrows {| BridgeServer.metricServer := MCPClient.context7;
                  BridgeServer.metricOperation := "getLibraryDocs";
                  BridgeServer.metricDurationMs := 30000;
                  BridgeServer.metricTokensEstimate := 0;
                  BridgeServer.metricCached := false;
                  BridgeServer.metricSuccess := false;
                  BridgeServer.metricTimestamp := 1700000030000 |}).
  simpl. tauto.
Defined.

(** X27.  The token reduction report.  When no recorded estimate is
    negative, the estimate for direct use is the bridge's tokens plus
    the schema tokens of the distinct upstreams used: at least 2000
    for each of them and at most 57000 in all; the reduction is a
    percentage between 0 and 100, and it is 0 when nothing has been
    recorded. *)
Theorem calculateTokenReduction_bounds :
  forall ms : list BridgeServer.OperationMetric,
    Forall (fun m => 0 <= BridgeServer.metricTokensEstimate m) ms ->
    let r := MetricsCollector.calculateTokenReduction ms in
    0 <= MetricsCollector.bridgeTokens r /\
    MetricsCollector.bridgeTokens r
      + 2000 * Z.of_nat (List.length (MetricsCollector.byServer
                                        (MetricsCollector.getSummary ms)))
      <= MetricsCollector.estimatedDirectTokens r /\
    MetricsCollector.estimatedDirectTokens r
      <= MetricsCollector.bridgeTokens r + 57000 /\
    Qle 0 (MetricsCollector.reductionPercentage r) /\
    Qle (MetricsCollector.reductionPercentage r) (inject_Z 100) /\
    (ms = [] -> Qeq (MetricsCollector.reductionPercentage r) 0).
Proof.
  intros ms Hpos r. subst r. unfold MetricsCollector.calculateTokenReduction.
  cbn [MetricsCollector.bridgeTokens MetricsCollector.estimatedDirectTokens
       MetricsCollector.reductionPercentage MetricsCollector.getSummary
       MetricsCollector.byServer].
  pose proof (sumFrom_nonneg BridgeServer.metricTokensEstimate ms Hpos) as Hbridge.
  pose proof (schema_tokens_bounds
                (MetricsCollector.distinct MCPClient.ServerName_eqb []
                   (map BridgeServer.metricServer ms))
                (MetricsCollector.sumFrom BridgeServer.metricTokensEstimate 0 ms)
                (distinct_NoDup _ ServerName_eqb_eq _ [])) as Hdirect.
  set (bridge := MetricsCollector.sumFrom BridgeServer.metricTokensEstimate 0 ms) in *.
  set (direct := fold_left _ _ bridge) in *.
  assert (Hrows : List.length (MetricsCollector.aggregateByServer ms)
                  = List.length (MetricsCollector.distinct MCPClient.ServerName_eqb []
                                   (map BridgeServer.metricServer ms))).
  { unfold MetricsCollector.aggregateByServer. apply length_map. }
  rewrite Hrows.
  split; [exact Hbridge|]. split; [lia|]. split; [lia|].
  destruct (Z.ltb_spec 0 direct) as [Hlt|Hge].
  - split; [|split].
    + unfold Qle, Qmult. simpl. nia.
    + unfold Qle, Qmult, inject_Z. cbn [Qnum Qden].
      rewrite Pos2Z.inj_mul, Z2Pos.id by lia. nia.
    + intros ->. unfold Qeq. cbn [Qnum Qden].
      subst direct bridge. cbn. reflexivity.
  - split; [apply Qle_refl|]. split; [unfold Qle; simpl; lia|].
    intros _. reflexivity.
Qed.

Lemma calculateTokenReduction_bounds_witness :
  MetricsCollector.bridgeTokens
    (MetricsCollector.calculateTokenReduction Fixtures.threeMetrics) + 4000
  <= MetricsCollector.estimatedDirectTokens
       (MetricsCollector.calculateTokenReduction Fixtures.threeMetrics).
Proof.
  destruct (calculateTokenReduction_bounds Fixtures.threeMetrics)
    as (_ & Hlow & _).
  - repeat constructor; simpl; lia.
  - exact Hlow.
Defined.


(** ** The protocol front of the bridge *)

(** X28.  [handleMessage] answers requests and only requests.  A
    message that is a request (version 2.0, a string or number id, a
    string method) always gets one answer, a JSON-RPC object that
    carries the id of the request and then depends on the handler
    registered for the method: its result when its promise is
    fulfilled with a value, nothing more when it is fulfilled with
    [undefined], an error with code -32603 and the message of the
    reason when it rejects, and an error with code -32601 when no
    handler is registered.  The answer is [null] only for a
    notification, which has no id.  Whatever is neither, and whatever
    did not parse, gets the parse-error answer, whose id is the number
    0, and leaves the handler object as it was.  Every answer is a
    single line. *)
Theorem handleMessage_answers_requests_only :
  forall (app : MCPProtocolHandler.Application)
         (h : MCPProtocolHandler.Handler) (parsed : option Json.JSON),
    (forall fields,
       parsed = Some (Json.JObject fields) ->
       MCPProtocolHandler.isRequest fields = true ->
       Json.assoc "id" fields = Some (MCPProtocolHandler.idOf fields) /\
       exists body,
         snd (MCPProtocolHandler.handleMessage app parsed h)
         = Some (Json.stringify
                   (Json.JObject (("jsonrpc", Json.JString "2.0")
                                  :: ("id", MCPProtocolHandler.idOf fields) :: body))) /\
         match Json.assoc (MCPProtocolHandler.methodOf fields)
                 (MCPProtocolHandler.requestHandlers h) with
         | None =>
             body = [("error",
                      Json.JObject
                        [("code", Json.JNumber (-32601));
                         ("message",
                          Json.JString
                            ("Method not found: "
                             ++ MCPProtocolHandler.methodOf fields)%string)])]
         | Some handler =>
             match snd (MCPProtocolHandler.call app handler
                          (Json.assoc "params" fields) h) with
             | JS.Fulfilled (Some result) => body = [("result", result)]
             | JS.Fulfilled None => body = []
             | JS.Rejected reason =>
                 body = [("error",
                          Json.JObject
                            [("code", Json.JNumber (-32603));
                             ("message",
                              Json.JString
                                (MCPProtocolHandler.reasonMessage reason))])]
             end
         end) /\
    (snd (MCPProtocolHandler.handleMessage app parsed h) = None ->
     exists fields,
       parsed = Some (Json.JObject fields) /\
       MCPProtocolHandler.isNotification fields = true /\
       Json.assoc "id" fields = None) /\
    ((forall fields,
        parsed = Some (Json.JObject fields) ->
        MCPProtocolHandler.isRequest fields = false /\
        MCPProtocolHandler.isNotification fields = false) ->
     MCPProtocolHandler.handleMessage app parsed h
     = (h, Some (Json.stringify
                   (Json.JObject
                      [ ("jsonrpc", Json.JString "2.0"); ("id", Json.JNumber 0);
                        ("error", Json.JObject [("code", Json.JNumber (-32700));
                                                ("message", Json.JString "Parse error")])
                      ])))) /\
    (forall answer,
       snd (MCPProtocolHandler.handleMessage app parsed h) = Some answer ->
       MCPTransport.singleLine answer = true).
Proof.
  intros app h parsed. split; [|split; [|split]].
  - intros fields -> Hreq. unfold MCPProtocolHandler.handleMessage. rewrite Hreq.
    unfold MCPProtocolHandler.isRequest in Hreq.
    apply andb_true_iff in Hreq. destruct Hreq as [_ Hreq].
    apply andb_true_iff in Hreq. destruct Hreq as [Hid _].
    unfold MCPProtocolHandler.handleRequest, MCPProtocolHandler.idOf.
    destruct (Json.assoc "id" fields) as [id|]; [|discriminate].
    split; [reflexivity|].
    destruct (Json.assoc _ (MCPProtocolHandler.requestHandlers h)) as [handler|].
    + destruct (MCPProtocolHandler.call app handler _ h) as [effects [[r|]|reason]];
        cbn [snd]; eexists; split; reflexivity.
    + cbn [snd]. eexists. split; reflexivity.
  - unfold MCPProtocolHandler.handleMessage.
    destruct parsed as [[| | | | |fields]|]; try discriminate.
    destruct (MCPProtocolHandler.isRequest fields).
    + destruct (MCPProtocolHandler.handleRequest app fields h). discriminate.
    + destruct (MCPProtocolHandler.isNotification fields) eqn:Hnote; [|discriminate].
      intros _. exists fields. split; [reflexivity|]. split; [exact Hnote|].
      unfold MCPProtocolHandler.isNotification in Hnote.
      apply andb_true_iff in Hnote. destruct Hnote as [_ Hnote].
      apply andb_true_iff in Hnote. destruct Hnote as [_ Hid].
      destruct (Json.assoc "id" fields); [discriminate | reflexivity].
  - intros Hneither. unfold MCPProtocolHandler.handleMessage.
    destruct parsed as [[| | | | |fields]|]; try reflexivity.
    destruct (Hneither fields eq_refl) as [-> ->]. reflexivity.
  - intros answer. unfold MCPProtocolHandler.handleMessage.
    assert (Hparse : MCPTransport.singleLine MCPProtocolHandler.parseErrorResponse
                     = true) by apply serialize_singleLine.
    destruct parsed as [[| | | | |fields]|];
      try (cbn [snd]; intros H; inversion H; subst; exact Hparse).
    destruct (MCPProtocolHandler.isRequest fields).
    + unfold MCPProtocolHandler.handleRequest.
      destruct (Json.assoc _ (MCPProtocolHandler.requestHandlers h)) as [handler|].
      * destruct (MCPProtocolHandler.call app handler _ h) as [effects [result|reason]];
          cbn [snd]; intros H; inversion H; subst; apply serialize_singleLine.
      * cbn [snd]. intros H. inversion H; subst. apply serialize_singleLine.
    + destruct (MCPProtocolHandler.isNotification fields).
      * destruct (MCPProtocolHandler.handleNotification app fields h) as [h' [|]];
          cbn [snd]; intros H; inversion H; subst; exact Hparse.
      * cbn [snd]. intros H. inversion H; subst. exact Hparse.
Qed.

Lemma handleMessage_answers_requests_only_witness :
  exists body,
    snd (MCPProtocolHandler.handleMessage Fixtures.noApplication
           (Some (Json.JObject [ ("jsonrpc", Json.JString "2.0");
                                 ("id", Json.JNumber 7);
                                 ("method", Json.JString "tools/list") ]))
           MCPProtocolHandler.newHandler)
    = Some (Json.stringify
              (Json.JObject (("jsonrpc", Json.JString "2.0")
                             :: ("id", Json.JNumber 7) :: body))).
Proof.
  destruct (handleMessage_answers_requests_only Fixtures.noApplication
              MCPProtocolHandler.newHandler
              (Some (Json.JObject [ ("jsonrpc", Json.JString "2.0");
                                    ("id", Json.JNumber 7);
                                    ("method", Json.JString "tools/list") ])))
    as (Hrequest & _).
  destruct (Hrequest _ eq_refl eq_refl) as (_ & body & Hanswer & _).
  exists body. exact Hanswer.
Defined.

(** X29.  The handshake on a fresh protocol handler, whatever the
    application.  An [initialize] request with any string or number id
    whose [params] are present and not [null] is answered under that
    id with protocol version 2024-11-05 and leaves the handler object
    as it was, not initialized.  Without [params], or with [null], the
    request is answered with error -32603 instead: the handler fails on
    reading [clientInfo].  The [initialized] notification gets no
    answer and makes the handler initialized.  A request for a method
    that nobody registered is answered with error -32601 naming the
    method. *)
Theorem fresh_handler_handshake :
  forall (app : MCPProtocolHandler.Application) (id : Json.JSON)
         (params : option Json.JSON) (method : string),
    MCPProtocolHandler.isStringOrNumber (Some id) = true ->
    (forall p,
       p <> Json.JNull ->
       MCPProtocolHandler.handleMessage app
         (Some (Json.JObject [ ("jsonrpc", Json.JString "2.0"); ("id", id);
                               ("method", Json.JString "initialize");
                               ("params", p) ]))
         MCPProtocolHandler.newHandler
       = (MCPProtocolHandler.newHandler,
          Some (Json.stringify
                  (Json.JObject
                     [ ("jsonrpc", Json.JString "2.0"); ("id", id);
                       ("result",
                        Json.JObject
                          [ ("protocolVersion", Json.JString "2024-11-05");
                            ("capabilities",
                             Json.JObject [("tools", Json.JObject [])]);
                            ("serverInfo",
                             Json.JObject [ ("name", Json.JString "mcp-bridge");
                                            ("version", Json.JString "1.0.0") ]) ])
                     ])))) /\
    ((params = None \/ params = Some Json.JNull) ->
     MCPProtocolHandler.handleMessage app
       (Some (Json.JObject ([ ("jsonrpc", Json.JString "2.0"); ("id", id);
                              ("method", Json.JString "initialize") ]
                            ++ MCPProtocolHandler.optionalField "params" params)))
       MCPProtocolHandler.newHandler
     = (MCPProtocolHandler.newHandler,
        Some (Json.stringify
                (Json.JObject
                   [ ("jsonrpc", Json.JString "2.0"); ("id", id);
                     ("error",
                      Json.JObject
                        [ ("code", Json.JNumber (-32603));
                          ("message",
                           Json.JString
                             (MCPProtocolHandler.cannotRead
                                match params with
                                | None => "undefined"
                                | Some _ => "null"
                                end "clientInfo")) ]) ])))) /\
    MCPProtocolHandler.isInitialized MCPProtocolHandler.newHandler = false /\
    MCPProtocolHandler.isInitialized
      (fst (MCPProtocolHandler.handleMessage app
              (Some (Json.JObject ([ ("jsonrpc", Json.JString "2.0");
                                     ("method", Json.JString "initialized") ]
                                   ++ MCPProtocolHandler.optionalField "params" params)))
              MCPProtocolHandler.newHandler)) = true /\
    snd (MCPProtocolHandler.handleMessage app
           (Some (Json.JObject ([ ("jsonrpc", Json.JString "2.0");
                                  ("method", Json.JString "initialized") ]
                                ++ MCPProtocolHandler.optionalField "params" params)))
           MCPProtocolHandler.newHandler) = None /\
    (method <> "initialize" ->
     snd (MCPProtocolHandler.handleMessage app
            (Some (Json.JObject [ ("jsonrpc", Json.JString "2.0"); ("id", id);
                                  ("method", Json.JString method) ]))
            MCPProtocolHandler.newHandler)
     = Some (Json.stringify
               (Json.JObject
                  [ ("jsonrpc", Json.JString "2.0"); ("id", id);
                    ("error",
                     Json.JObject
                       [ ("code", Json.JNumber (-32601));
                         ("message",
                          Json.JString ("Method not found: " ++ method)%string) ]) ]))).
Proof.
  intros app id params method Hid.
  assert (Hreq : forall m rest,
             MCPProtocolHandler.isRequest
               ([ ("jsonrpc", Json.JString "2.0"); ("id", id);
                  ("method", Json.JString m) ] ++ rest) = true).
  { intros m rest. unfold MCPProtocolHandler.isRequest. cbn.
    destruct id; try discriminate; reflexivity. }
  split; [|split; [|split; [reflexivity|split; [|split]]]].
  - intros p Hp. unfold MCPProtocolHandler.handleMessage.
    pose proof (Hreq "initialize" [("params", p)]) as Hm. cbn [List.app] in Hm.
    rewrite Hm. unfold MCPProtocolHandler.handleRequest.
    destruct p; try contradiction; reflexivity.
  - intros Hparams. unfold MCPProtocolHandler.handleMessage. rewrite Hreq.
    unfold MCPProtocolHandler.handleRequest.
    destruct Hparams as [->| ->]; reflexivity.
  - destruct params; reflexivity.
  - destruct params; reflexivity.
  - intros Hne. unfold MCPProtocolHandler.handleMessage.
    pose proof (Hreq method []) as Hm. cbn [List.app] in Hm. rewrite Hm.
    unfold MCPProtocolHandler.handleRequest.
    cbn [List.app MCPProtocolHandler.methodOf Json.assoc String.eqb Ascii.eqb
         Bool.eqb MCPProtocolHandler.idOf].
    change (MCPProtocolHandler.requestHandlers MCPProtocolHandler.newHandler)
      with [("initialize", MCPProtocolHandler.HandleInitialize)].
    cbn [Json.assoc]. apply not_eq_sym in Hne. apply String.eqb_neq in Hne.
    rewrite Hne. reflexivity.
Qed.

Lemma fresh_handler_handshake_witness :
  MCPProtocolHandler.handleMessage Fixtures.noApplication
    (Some (Json.JObject [ ("jsonrpc", Json.JString "2.0"); ("id", Json.JNumber 1);
                          ("method", Json.JString "initialize") ]))
    MCPProtocolHandler.newHandler
  = (MCPProtocolHandler.newHandler,
     Some (Json.stringify
             (Json.JObject
                [ ("jsonrpc", Json.JString "2.0"); ("id", Json.JNumber 1);
                  ("error",
                   Json.JObject
                     [ ("code", Json.JNumber (-32603));
                       ("message",
                        Json.JString
                          "Cannot read properties of undefined (reading 'clientInfo')")
                     ]) ]))).
Proof.
  destruct (fresh_handler_handshake Fixtures.noApplication (Json.JNumber 1) None
              "tools/list" eq_refl) as (_ & Hmissing & _).
  exact (Hmissing (or_introl eq_refl)).
Defined.
